(** * Heyana/postprocessing: the pass composer and the shared outline manager

    A shallow embedding of

    - [OutlineManager] (src/effects/OutlineManager.js): the constructor,
      [getSelectionForLayer], [addToLayer], [removeFromLayer], [update],
      [clearUnused], [setSize], and the [update] of the TypeScript class
      in the third document of the file;
    - [SharedOutlineEffect] (same file, second document): [update] and the
      [selectionLayer] setter;
    - [EffectComposer] (core/EffectComposer.js): [addPass], [removePass],
      [removeAllPasses], [render], the depth texture, the multi-target
      probe and [setMRTRenderPass], together with
      [MRTRenderPass.initialize];
    - [PerformanceLogger] (utils/PerformanceLogger.js).

    JavaScript objects that are shared and mutated (passes, managers, the
    scene, the camera, class-level static properties) live in explicit
    stores that are threaded through every call; exceptions are explicit
    outcomes of a small state-and-exception monad.  Sizes and scales are
    binary64 numbers; clock readings in milliseconds are integers. *)

From Stdlib Require Import ZArith QArith Qround Qpower Lia Lqa Bool SpecFloat.
From stdpp Require Import base option list gmap fin_sets fin_maps strings.

Local Open Scope Z_scope.

(** ** A state-and-exception monad for JavaScript method bodies *)

Module Js.

(** How a call ends: it returns a value, or an exception is in flight. *)
Inductive outcome (A : Type) : Type :=
| Normal (a : A)
| Thrown.

Arguments Normal {A} a.
Arguments Thrown {A}.

Definition M (S A : Type) : Type := S -> outcome A * S.

Definition ret {S A} (a : A) : M S A := fun s => (Normal a, s).

Definition bind {S A B} (m : M S A) (k : A -> M S B) : M S B :=
  fun s =>
    match m s with
    | (Normal a, s') => k a s'
    | (Thrown, s') => (Thrown, s')
    end.

Definition throw {S A} : M S A := fun s => (Thrown, s).

Definition get {S} : M S S := fun s => (Normal s, s).

Definition modify {S} (f : S -> S) : M S unit := fun s => (Normal tt, f s).

(** [try { body } catch (e) { handler }] *)
Definition try_catch {S A} (body handler : M S A) : M S A :=
  fun s =>
    match body s with
    | (Normal a, s') => (Normal a, s')
    | (Thrown, s') => handler s'
    end.

(** [if (c) { body }] for a statement. *)
Definition when {S} (c : bool) (body : M S unit) : M S unit :=
  if c then body else ret tt.

(** Did the call return normally? *)
Definition returned {A} (o : outcome A) : bool :=
  match o with Normal _ => true | Thrown => false end.

End Js.

Import Js.

Declare Scope js_scope.
Delimit Scope js_scope with js.
Notation "'let*' x := m 'in' k" := (bind m (fun x => k))
  (at level 10, x name, m at level 100, k at level 200) : js_scope.
Notation "m >> k" := (bind m (fun _ => k))
  (at level 90, right associativity) : js_scope.
Local Open Scope js_scope.

(** ** JavaScript numbers *)

(** A JavaScript number is an IEEE 754 binary64 value: 53 bits of
    precision, exponents below 1024.  The arithmetic is that of the
    standard, every result rounded to the nearest value, ties to even. *)
Definition number : Type := spec_float.

(** [x * y] and [x / y] *)
Definition Number_mul (x y : number) : number := SFmul 53 1024 x y.

Definition Number_div (x y : number) : number := SFdiv 53 1024 x y.

(** The number an integer literal denotes. *)
Definition Number_of_Z (z : Z) : number := binary_normalize 53 1024 z 0 false.

(** The exact value of a number, if it is finite. *)
Definition number_value (x : number) : option Q :=
  match x with
  | S754_zero _ => Some 0%Q
  | S754_finite s m e => Some (inject_Z (cond_Zopp s (Zpos m)) * Qpower 2 e)%Q
  | _ => None
  end.

(** The largest integer not above [z * 2 ^ e]. *)
Definition floor_scaled (z e : Z) : Z :=
  if 0 <=? e then z * 2 ^ e else z / 2 ^ (- e).

(** [Math.floor(x)]: [NaN], the infinities, the zeros and the numbers
    without a fractional part are answered as they are. *)
Definition Math_floor (x : number) : number :=
  match x with
  | S754_finite s m e =>
      if 0 <=? e then x else Number_of_Z (floor_scaled (cond_Zopp s (Zpos m)) e)
  | _ => x
  end.

(** A size in whole pixels. *)
Definition px (w h : Z) : number * number := (Number_of_Z w, Number_of_Z h).

(** Modelled from the spec: [round(x)], the nearest integer, halves going
    upwards. *)
Definition spec_round (x : Q) : Z := Qfloor (x + (1 # 2)).

(** ** Shared context: scene, camera, class-level statics, render log *)

(** Scene nodes, textures and colours are opaque handles. *)
Definition Obj := nat.

(** What the collaborators were asked to do, oldest first: a depth render
    (with the scene background it saw), [selection.setVisible(visible)] on
    every selection of a manager, the mask, outline and blur renders, and a
    [clearUnused] made by a consumer. *)
Inductive Event : Type :=
| EvDepthRender (background : option nat)
| EvSetVisible (selections : gmap Z (gset Obj)) (visible : bool)
| EvMaskRender (cameraMask : Z)
| EvOutlineRender (layer : Z)
| EvBlurRender (layer : Z)
| EvClearUnused (active : gset Obj) (exceptLayer : Z).

(** A JavaScript property that may be [undefined], [null] or hold a value. *)
Inductive jsprop (A : Type) : Type :=
| Undefined
| Null
| Val (a : A).

Arguments Undefined {A}.
Arguments Null {A}.
Arguments Val {A} a.

(** The mutable context every manager and every effect reads and writes:
    the static properties of the two classes, the main scene and camera,
    and the log of render calls. *)
Record World : Type := mkWorld {
  lastDepthPassTime : option Z;        (* OutlineManager.lastDepthPassTime *)
  activeObjects : option (gset Obj);   (* SharedOutlineEffect.activeObjects *)
  updateCounter : option Z;            (* SharedOutlineEffect.updateCounter *)
  staticCurrentLayer : jsprop Z;       (* SharedOutlineEffect.currentLayer *)
  background : option nat;             (* scene.background; None is null *)
  cameraMask : Z;                      (* camera.layers.mask *)
  trace : list Event
}.

Definition set_lastDepthPassTime (v : option Z) (w : World) : World :=
  mkWorld v (activeObjects w) (updateCounter w) (staticCurrentLayer w)
    (background w) (cameraMask w) (trace w).

Definition set_activeObjects (v : option (gset Obj)) (w : World) : World :=
  mkWorld (lastDepthPassTime w) v (updateCounter w) (staticCurrentLayer w)
    (background w) (cameraMask w) (trace w).

Definition set_updateCounter (v : option Z) (w : World) : World :=
  mkWorld (lastDepthPassTime w) (activeObjects w) v (staticCurrentLayer w)
    (background w) (cameraMask w) (trace w).

Definition set_staticCurrentLayer (v : jsprop Z) (w : World) : World :=
  mkWorld (lastDepthPassTime w) (activeObjects w) (updateCounter w) v
    (background w) (cameraMask w) (trace w).

Definition set_background (v : option nat) (w : World) : World :=
  mkWorld (lastDepthPassTime w) (activeObjects w) (updateCounter w)
    (staticCurrentLayer w) v (cameraMask w) (trace w).

Definition set_cameraMask (v : Z) (w : World) : World :=
  mkWorld (lastDepthPassTime w) (activeObjects w) (updateCounter w)
    (staticCurrentLayer w) (background w) v (trace w).

Definition log (e : Event) (w : World) : World :=
  mkWorld (lastDepthPassTime w) (activeObjects w) (updateCounter w)
    (staticCurrentLayer w) (background w) (cameraMask w) (trace w ++ [e]).

(** The events a call appended to the log. *)
Definition new_events (before after : World) : list Event :=
  drop (length (trace before)) (trace after).

Definition is_depth (e : Event) : bool :=
  match e with EvDepthRender _ => true | _ => false end.

Definition is_mask (e : Event) : bool :=
  match e with EvMaskRender _ => true | _ => false end.

Definition is_clearUnused (e : Event) : bool :=
  match e with EvClearUnused _ _ => true | _ => false end.

Definition count (f : Event -> bool) (tr : list Event) : nat :=
  length (filter (fun e => f e = true) tr).

(** three.js [Layers.set(layer)]: [mask = (1 << layer | 0) >>> 0]; the shift
    count of [<<] is taken modulo 32. *)
Definition layers_set (layer : Z) : Z := Z.shiftl 1 (layer `mod` 32).

(** What the outside world decides during one call: the wall clock read by
    [Date.now()] and whether a collaborator's render raises. *)
Record Env : Type := mkEnv {
  now : Z;
  depthThrows : bool;
  maskThrows : bool;
  outlineThrows : bool;
  blurThrows : bool
}.

(** ** OutlineManager *)

Module OutlineManager.

Record t : Type := mk {
  selectionsByLayer : gmap Z (gset Obj);
  defaultLayer : Z;                (* this.selection.layer *)
  currentLayer : option Z;         (* null, or set by a consumer *)
  needsUpdate : bool;
  resolutionScale : number;
  depthPassSize : number * number; (* last depthPass.setSize(w, h) *)
  maskSize : number * number       (* last renderTargetMask.setSize(w, h) *)
}.

Definition set_selectionsByLayer (v : gmap Z (gset Obj)) (m : t) : t :=
  mk v (defaultLayer m) (currentLayer m) (needsUpdate m) (resolutionScale m)
    (depthPassSize m) (maskSize m).

Definition set_currentLayer (v : option Z) (m : t) : t :=
  mk (selectionsByLayer m) (defaultLayer m) v (needsUpdate m)
    (resolutionScale m) (depthPassSize m) (maskSize m).

Definition set_needsUpdate (v : bool) (m : t) : t :=
  mk (selectionsByLayer m) (defaultLayer m) (currentLayer m) v
    (resolutionScale m) (depthPassSize m) (maskSize m).

Definition set_sizes (d k : number * number) (m : t) : t :=
  mk (selectionsByLayer m) (defaultLayer m) (currentLayer m) (needsUpdate m)
    (resolutionScale m) d k.

(** The manager together with the context it runs in. *)
Record St : Type := mkSt { mgr : t; world : World }.

Definition on_world (f : World -> World) : M St unit :=
  modify (fun s => mkSt (mgr s) (f (world s))).

Definition on_mgr (f : t -> t) : M St unit :=
  modify (fun s => mkSt (f (mgr s)) (world s)).

(** [getSelectionForLayer(layer)]: the selection is created on first use. *)
Definition getSelectionForLayer (layer : Z) (m : t) : gset Obj * t :=
  match selectionsByLayer m !! layer with
  | Some sel => (sel, m)
  | None => (∅, set_selectionsByLayer (<[layer := ∅]> (selectionsByLayer m)) m)
  end.

Definition setNeedsUpdate (m : t) : t := set_needsUpdate true m.

(** [for (const selection of this.selectionsByLayer.values())
       if (selection.size > 0) { hasObjects = true; break; }] *)
Definition hasObjects (m : t) : bool :=
  bool_decide (map_Exists (fun _ sel => sel ≠ (∅ : gset Obj)) (selectionsByLayer m)).

(** [for (const selection of this.selectionsByLayer.values())
       selection.setVisible(visible)] *)
Definition setVisibleAll (visible : bool) : M St unit :=
  let* s := get in
  on_world (log (EvSetVisible (selectionsByLayer (mgr s)) visible)).

(** [!OutlineManager.lastDepthPassTime || now - OutlineManager.lastDepthPassTime > 16]:
    a number is falsy when it is 0. *)
Definition depthDue (now : Z) (last : option Z) : bool :=
  match last with
  | None => true
  | Some t => (t =? 0) || (16 <? now - t)
  end.

Definition depthPass_render (env : Env) : M St unit :=
  on_world (fun w => log (EvDepthRender (background w)) w) >>
  if depthThrows env then throw else ret tt.

Definition maskPass_render (env : Env) : M St unit :=
  on_world (fun w => log (EvMaskRender (cameraMask w)) w) >>
  if maskThrows env then throw else ret tt.

(** [update(renderer, deltaTime)] *)
Definition update (env : Env) : M St bool :=
  let* s0 := get in
  if negb (needsUpdate (mgr s0)) && negb (hasObjects (mgr s0)) then ret false
  else
    when (depthDue (now env) (lastDepthPassTime (world s0)))
      (let background0 := background (world s0) in
       on_world (set_background None) >>
       setVisibleAll false >>
       depthPass_render env >>
       setVisibleAll true >>
       on_world (set_lastDepthPassTime (Some (now env))) >>
       on_world (set_background background0)) >>
    let* s1 := get in
    let mask := cameraMask (world s1) in
    let* layerRendered :=
      match currentLayer (mgr s1) with
      | Some layer =>
          match selectionsByLayer (mgr s1) !! layer with
          | Some sel =>
              if bool_decide (sel ≠ ∅) then
                on_world (set_cameraMask (layers_set layer)) >>
                maskPass_render env >>
                ret true
              else ret false
          | None => ret false
          end
      | None => ret false
      end in
    when (negb layerRendered)
      (on_world (set_cameraMask (layers_set (defaultLayer (mgr s1)))) >>
       maskPass_render env) >>
    on_world (set_cameraMask mask) >>
    on_mgr (set_needsUpdate false) >>
    ret true.

(** The guard of [update]: no update is pending and nothing is selected. *)
Definition idle (m : t) : bool := negb (needsUpdate m) && negb (hasObjects m).

(** The inner loop of [clearUnused]:
    [for (const object of [...selection])
       if (!activeObjects.has(object)) { selection.delete(object); needsUpdate = true; }] *)
Definition clearSelection (activeObjects : gset Obj) (sel : gset Obj)
  : gset Obj * bool :=
  set_fold (fun object acc =>
              if decide (object ∈ activeObjects) then acc
              else (fst acc ∖ {[object]}, true))
           (sel, false) sel.

(** [clearUnused(activeObjects, exceptLayer)]; [None] is an [exceptLayer]
    that was not passed. *)
Definition clearUnused (activeObjects : gset Obj) (exceptLayer : option Z)
  (m : t) : t :=
  map_fold (fun layer sel acc =>
              if decide (exceptLayer = Some layer) then acc
              else
                let r := clearSelection activeObjects sel in
                set_needsUpdate (needsUpdate acc || snd r)
                  (set_selectionsByLayer
                     (<[layer := fst r]> (selectionsByLayer acc)) acc))
           m (selectionsByLayer m).

(** A call of [clearUnused] by a consumer, as seen in the log. *)
Definition call_clearUnused (activeObjects : gset Obj) (exceptLayer : Z)
  : M St unit :=
  on_world (log (EvClearUnused activeObjects exceptLayer)) >>
  on_mgr (clearUnused activeObjects (Some exceptLayer)).

(** [setSize(width, height)] *)
Definition setSize (width height : number) (m : t) : t :=
  let w := Math_floor (Number_mul width (resolutionScale m)) in
  let h := Math_floor (Number_mul height (resolutionScale m)) in
  set_sizes (w, h) (w, h) m.

(** *** The rest of the manager *)

(** [new OutlineManager(scene, camera, { resolutionScale })].  [layer] is
    the layer of [new Selection()], which the constructor registers; the
    mask target starts as a 1 x 1 target and [depthSize] is the size of the
    new depth pass. *)
Definition new_OutlineManager (layer : Z) (resolutionScale : number)
  (depthSize : number * number) : t :=
  mk {[ layer := ∅ ]} layer None true resolutionScale depthSize (px 1 1).

(** [addToLayer(object, layer)] *)
Definition addToLayer (object : Obj) (layer : Z) (m : t) : t :=
  let selection := fst (getSelectionForLayer layer m) in
  let m1 := snd (getSelectionForLayer layer m) in
  set_needsUpdate true
    (set_selectionsByLayer
       (<[layer := {[object]} ∪ selection]> (selectionsByLayer m1)) m1).

(** [removeFromLayer(object, layer)]: [selection.delete(object)] answers
    whether the object was a member. *)
Definition removeFromLayer (object : Obj) (layer : Z) (m : t) : bool * t :=
  match selectionsByLayer m !! layer with
  | Some selection =>
      let result := bool_decide (object ∈ selection) in
      let m1 := set_selectionsByLayer
                  (<[layer := selection ∖ {[object]}]> (selectionsByLayer m)) m in
      (result, if result then set_needsUpdate true m1 else m1)
  | None => (false, m)
  end.

(** The layer whose mask [update] draws: the current layer when it is
    registered with a selection that is not empty, the default layer
    otherwise. *)
Definition maskLayer (m : t) : Z :=
  match currentLayer m with
  | Some layer =>
      match selectionsByLayer m !! layer with
      | Some sel => if bool_decide (sel ≠ ∅) then layer else defaultLayer m
      | None => defaultLayer m
      end
  | None => defaultLayer m
  end.

(** The members of a layer's selection; a layer that is not registered has
    none. *)
Definition selectionOf (m : t) (layer : Z) : gset Obj :=
  default ∅ (selectionsByLayer m !! layer).

End OutlineManager.

(** ** One frame of consumers calling [update]

    Each call is made on some manager instance, in whatever state its
    consumers left it, at some reading of the wall clock; all of them share
    the scene, the camera and the class-level statics.  An exception that
    leaves [update] ends that consumer's pass (the composer catches it at
    the pass boundary) and the frame goes on. *)

Definition frame_call (call : OutlineManager.t * Env) (w : World) : World :=
  OutlineManager.world
    (snd (OutlineManager.update (snd call) (OutlineManager.mkSt (fst call) w))).

Definition run_frame (calls : list (OutlineManager.t * Env)) (w : World) : World :=
  fold_left (fun acc call => frame_call call acc) calls w.

(** ** SharedOutlineEffect *)

Module SharedOutlineEffect.

Import OutlineManager.

(** The fields of a consumer that [update] reads.  The pulse uniform and
    the animation time only feed the shader and are left out. *)
Record t : Type := mk {
  selection : gset Obj;
  _selectionLayer : Z;            (* this._selectionLayer *)
  blurEnabled : bool             (* this.blurPass.enabled *)
}.

(** [for (const object of this.selection)
       if (!layerSelection.has(object)) { layerSelection.add(object);
                                          this.manager.setNeedsUpdate(); }] *)
Definition registerSelection (sel : gset Obj) (layer : Z)
  (m : OutlineManager.t) : OutlineManager.t :=
  set_fold (fun object acc =>
              let layerSelection := default ∅ (selectionsByLayer acc !! layer) in
              if decide (object ∈ layerSelection) then acc
              else setNeedsUpdate
                     (set_selectionsByLayer
                        (<[layer := {[object]} ∪ layerSelection]>
                           (selectionsByLayer acc)) acc))
           m sel.

Definition outlinePass_render (env : Env) (layer : Z) : M St unit :=
  on_world (log (EvOutlineRender layer)) >>
  if outlineThrows env then throw else ret tt.

Definition blurPass_render (env : Env) (layer : Z) : M St unit :=
  on_world (log (EvBlurRender layer)) >>
  if blurThrows env then throw else ret tt.

(** [update(renderer, inputBuffer, deltaTime)] *)
Definition update (env : Env) (e : t) : M St unit :=
  on_world (fun w =>
    match activeObjects w with None => set_activeObjects (Some ∅) w | Some _ => w end) >>
  on_world (fun w =>
    match staticCurrentLayer w with
    | Undefined => set_staticCurrentLayer Null w
    | _ => w
    end) >>
  on_world (fun w =>
    match updateCounter w with None => set_updateCounter (Some 0) w | Some _ => w end) >>
  on_world (fun w => set_updateCounter (Z.succ <$> updateCounter w) w) >>
  let* s := get in
  let renderCounter := updateCounter (world s) in
  on_mgr (set_currentLayer (Some (_selectionLayer e))) >>
  on_world (set_staticCurrentLayer (Val (_selectionLayer e))) >>
  when (bool_decide (selection e ≠ ∅))
    (on_world (fun w =>
       set_activeObjects (union (selection e) <$> activeObjects w) w)) >>
  when (bool_decide (selection e ≠ ∅))
    (on_mgr (fun m => snd (getSelectionForLayer (_selectionLayer e) m)) >>
     on_mgr (registerSelection (selection e) (_selectionLayer e)) >>
     let* _ := OutlineManager.update env in
     outlinePass_render env (_selectionLayer e) >>
     when (blurEnabled e) (blurPass_render env (_selectionLayer e))) >>
  when (bool_decide (renderCounter = Some 2))
    (let* s1 := get in
     call_clearUnused (default ∅ (activeObjects (world s1))) (_selectionLayer e) >>
     on_world (set_activeObjects (Some ∅)) >>
     on_world (set_updateCounter (Some 0)) >>
     on_world (set_staticCurrentLayer Null)).

(** *** The rest of the consumer *)

(** [set selectionLayer(value)]: the selection is rebuilt with the same
    objects on the new layer, and the manager is asked for an update. *)
Definition set_selectionLayer (value : Z) (e : t) : M St t :=
  let objects := selection e in
  on_mgr setNeedsUpdate >>
  ret (mk objects value (blurEnabled e)).

(** The consumers of a composer are updated one after the other; an
    exception that leaves an [update] ends that consumer's pass and the
    next consumer is updated all the same. *)
Definition effect_call (call : Env * t) (s : St) : St :=
  snd (update (fst call) (snd call) s).

Definition run_effects (calls : list (Env * t)) (s : St) : St :=
  fold_left (fun acc call => effect_call call acc) calls s.

(** No render raises during the call. *)
Definition quiet (env : Env) : bool :=
  negb (depthThrows env) && negb (maskThrows env)
  && negb (outlineThrows env) && negb (blurThrows env).

End SharedOutlineEffect.

(** ** EffectComposer *)

Module Composer.

(** The classes the composer tells apart with [instanceof]. *)
Inductive PassClass : Type :=
| RenderPass
| DepthPass
| SharedDepthPass
| MRTRenderPass
| EffectPass
| MaskPass
| OtherPass.

Global Instance PassClass_eq_dec : EqDecision PassClass.
Proof. solve_decision. Defined.

(** Modelled from the spec: the Pass contract (passes/Pass.js and the
    concrete passes other than MRTRenderPass are not among the sources).
    A pass has the flags [enabled], [needsSwap], [needsDepthTexture] and
    [renderToScreen], is sized and initialised by its owner, and is handed
    the shared depth texture through [setDepthTexture]; [depthTextureSet]
    is the argument of the latest such call.  The last three fields are
    those of an MRTRenderPass: [renderTargetMRT] is [None] for [null],
    [Some None] for a target without a [textures] array and [Some (Some n)]
    for one with [n] textures. *)
Record Pass : Type := mkPass {
  cls : PassClass;
  enabled : bool;
  needsSwap : bool;
  needsDepthTexture : bool;
  renderToScreen : bool;
  overridesDepthTexture : bool;
  depthTextureSet : option nat;
  size : option (Z * Z);
  initialized : bool;
  clearPassEnabled : bool;
  isWebGL2Supported : bool;
  isMRTSupported : bool;
  renderTargetMRT : option (option nat)
}.

Definition set_renderToScreen (v : bool) (x : Pass) : Pass :=
  mkPass (cls x) (enabled x) (needsSwap x) (needsDepthTexture x) v
    (overridesDepthTexture x) (depthTextureSet x) (size x) (initialized x)
    (clearPassEnabled x) (isWebGL2Supported x) (isMRTSupported x)
    (renderTargetMRT x).

Definition set_depthTextureSet (v : option nat) (x : Pass) : Pass :=
  mkPass (cls x) (enabled x) (needsSwap x) (needsDepthTexture x)
    (renderToScreen x) (overridesDepthTexture x) v (size x) (initialized x)
    (clearPassEnabled x) (isWebGL2Supported x) (isMRTSupported x)
    (renderTargetMRT x).

Definition set_size (v : option (Z * Z)) (x : Pass) : Pass :=
  mkPass (cls x) (enabled x) (needsSwap x) (needsDepthTexture x)
    (renderToScreen x) (overridesDepthTexture x) (depthTextureSet x) v
    (initialized x) (clearPassEnabled x) (isWebGL2Supported x)
    (isMRTSupported x) (renderTargetMRT x).

Definition set_initialized (v : bool) (x : Pass) : Pass :=
  mkPass (cls x) (enabled x) (needsSwap x) (needsDepthTexture x)
    (renderToScreen x) (overridesDepthTexture x) (depthTextureSet x)
    (size x) v (clearPassEnabled x) (isWebGL2Supported x) (isMRTSupported x)
    (renderTargetMRT x).

Definition set_isWebGL2Supported (v : bool) (x : Pass) : Pass :=
  mkPass (cls x) (enabled x) (needsSwap x) (needsDepthTexture x)
    (renderToScreen x) (overridesDepthTexture x) (depthTextureSet x)
    (size x) (initialized x) (clearPassEnabled x) v (isMRTSupported x)
    (renderTargetMRT x).

Definition set_isMRTSupported (v : bool) (x : Pass) : Pass :=
  mkPass (cls x) (enabled x) (needsSwap x) (needsDepthTexture x)
    (renderToScreen x) (overridesDepthTexture x) (depthTextureSet x)
    (size x) (initialized x) (clearPassEnabled x) (isWebGL2Supported x) v
    (renderTargetMRT x).

Definition set_renderTargetMRT (v : option (option nat)) (x : Pass) : Pass :=
  mkPass (cls x) (enabled x) (needsSwap x) (needsDepthTexture x)
    (renderToScreen x) (overridesDepthTexture x) (depthTextureSet x)
    (size x) (initialized x) (clearPassEnabled x) (isWebGL2Supported x)
    (isMRTSupported x) v.

(** Modelled from the spec: [pass.setDepthTexture(t)] hands the pass the
    shared depth texture, or [null] to clear the reference. *)
Definition setDepthTexture (t : option nat) (p : Pass) : Pass :=
  set_depthTextureSet t p.

(** Modelled from the spec: [pass.getDepthTexture()] answers the texture
    the pass was handed if its class keeps one; the base class keeps none
    and answers [null]. *)
Definition getDepthTexture (p : Pass) : option nat :=
  if overridesDepthTexture p then depthTextureSet p else None.

(** [get depthTexture()] of an MRTRenderPass: [textures[1]] when there is
    a target with a [textures] array that long. *)
Definition mrt_depthTexture (p : Pass) : bool :=
  match renderTargetMRT p with
  | Some (Some n) => (2 <=? n)%nat
  | _ => false
  end.

(** A freshly constructed MRTRenderPass: [needsSwap] is set, everything
    else is as the base class leaves it. *)
Definition new_MRTRenderPass : Pass :=
  mkPass MRTRenderPass true true false false false None None false false
    false false None.

(** What the renderer answers. *)
Record Renderer : Type := mkRenderer {
  isWebGL2 : bool;                       (* renderer.capabilities.isWebGL2 *)
  drawBuffersExtension : outcome bool;   (* !!gl.getExtension('WEBGL_draw_buffers') *)
  drawingBufferSize : Z * Z
}.

(** What [new WebGLRenderTarget(w, h, { count: 2 })] yields: it raises, or
    gives a target that has no [textures] array ([None]) or one of the
    given length. *)
Inductive Alloc : Type :=
| AllocThrows
| AllocTarget (textures : option nat).

(** What the surrounding library does during one [addPass] or one probe. *)
Record Platform : Type := mkPlatform {
  probeAlloc : Alloc;          (* the test target of _checkMRTSupport *)
  ctorThrows : bool;           (* new MRTRenderPass(...) raises *)
  initAlloc : Alloc;           (* the test target of MRTRenderPass.initialize *)
  targetAlloc : Alloc;         (* the target of createRenderTargets *)
  sharedDepthThrows : bool;    (* new SharedDepthPass(...) raises *)
  sharedDepthTexture : bool    (* the new SharedDepthPass has a texture *)
}.

Record SharedDepth : Type := mkSharedDepth { sd_texture : bool }.

(** One [pass.render(renderer, inputBuffer, outputBuffer, dt, stencilTest
    [, _sharedDepthPass])] as the pass sees it. *)
Record RenderCall : Type := mkCall {
  rc_index : nat;
  rc_pass : nat;
  rc_input : nat;
  rc_output : nat;
  rc_stencil : jsprop bool;
  rc_shared : option SharedDepth
}.

(** The composer, the heap of pass objects it refers to, the depth
    textures created and disposed so far, and the log of render calls. *)
Record St : Type := mkSt {
  renderer : option Renderer;
  inputBuffer : nat;
  outputBuffer : nat;
  inputBufferDepthTexture : option nat;
  depthTexture : option nat;
  passes : list nat;
  autoRenderToScreen : bool;
  _useMRT : bool;
  _mrtRenderPass : option nat;
  _sharedDepthPass : option SharedDepth;
  stencilTest : jsprop bool;
  heap : gmap nat Pass;
  texNext : nat;
  disposed : gset nat;
  calls : list RenderCall;
  depthClears : nat
}.

Definition set_inputBufferDepthTexture (v : option nat) (x : St) : St :=
  mkSt (renderer x) (inputBuffer x) (outputBuffer x) v (depthTexture x)
    (passes x) (autoRenderToScreen x) (_useMRT x) (_mrtRenderPass x)
    (_sharedDepthPass x) (stencilTest x) (heap x) (texNext x) (disposed x)
    (calls x) (depthClears x).

Definition set_depthTexture (v : option nat) (x : St) : St :=
  mkSt (renderer x) (inputBuffer x) (outputBuffer x)
    (inputBufferDepthTexture x) v (passes x) (autoRenderToScreen x)
    (_useMRT x) (_mrtRenderPass x) (_sharedDepthPass x) (stencilTest x)
    (heap x) (texNext x) (disposed x) (calls x) (depthClears x).

Definition set_passes (v : list nat) (x : St) : St :=
  mkSt (renderer x) (inputBuffer x) (outputBuffer x)
    (inputBufferDepthTexture x) (depthTexture x) v (autoRenderToScreen x)
    (_useMRT x) (_mrtRenderPass x) (_sharedDepthPass x) (stencilTest x)
    (heap x) (texNext x) (disposed x) (calls x) (depthClears x).

Definition set_autoRenderToScreen (v : bool) (x : St) : St :=
  mkSt (renderer x) (inputBuffer x) (outputBuffer x)
    (inputBufferDepthTexture x) (depthTexture x) (passes x) v (_useMRT x)
    (_mrtRenderPass x) (_sharedDepthPass x) (stencilTest x) (heap x)
    (texNext x) (disposed x) (calls x) (depthClears x).

Definition set_useMRT (v : bool) (x : St) : St :=
  mkSt (renderer x) (inputBuffer x) (outputBuffer x)
    (inputBufferDepthTexture x) (depthTexture x) (passes x)
    (autoRenderToScreen x) v (_mrtRenderPass x) (_sharedDepthPass x)
    (stencilTest x) (heap x) (texNext x) (disposed x) (calls x)
    (depthClears x).

Definition set_mrtRenderPass (v : option nat) (x : St) : St :=
  mkSt (renderer x) (inputBuffer x) (outputBuffer x)
    (inputBufferDepthTexture x) (depthTexture x) (passes x)
    (autoRenderToScreen x) (_useMRT x) v (_sharedDepthPass x) (stencilTest x)
    (heap x) (texNext x) (disposed x) (calls x) (depthClears x).

Definition set_sharedDepthPass (v : option SharedDepth) (x : St) : St :=
  mkSt (renderer x) (inputBuffer x) (outputBuffer x)
    (inputBufferDepthTexture x) (depthTexture x) (passes x)
    (autoRenderToScreen x) (_useMRT x) (_mrtRenderPass x) v (stencilTest x)
    (heap x) (texNext x) (disposed x) (calls x) (depthClears x).

Definition set_stencilTest (v : jsprop bool) (x : St) : St :=
  mkSt (renderer x) (inputBuffer x) (outputBuffer x)
    (inputBufferDepthTexture x) (depthTexture x) (passes x)
    (autoRenderToScreen x) (_useMRT x) (_mrtRenderPass x) (_sharedDepthPass x)
    v (heap x) (texNext x) (disposed x) (calls x) (depthClears x).

Definition set_heap (v : gmap nat Pass) (x : St) : St :=
  mkSt (renderer x) (inputBuffer x) (outputBuffer x)
    (inputBufferDepthTexture x) (depthTexture x) (passes x)
    (autoRenderToScreen x) (_useMRT x) (_mrtRenderPass x) (_sharedDepthPass x)
    (stencilTest x) v (texNext x) (disposed x) (calls x) (depthClears x).

Definition set_texNext (v : nat) (x : St) : St :=
  mkSt (renderer x) (inputBuffer x) (outputBuffer x)
    (inputBufferDepthTexture x) (depthTexture x) (passes x)
    (autoRenderToScreen x) (_useMRT x) (_mrtRenderPass x) (_sharedDepthPass x)
    (stencilTest x) (heap x) v (disposed x) (calls x) (depthClears x).

Definition set_disposed (v : gset nat) (x : St) : St :=
  mkSt (renderer x) (inputBuffer x) (outputBuffer x)
    (inputBufferDepthTexture x) (depthTexture x) (passes x)
    (autoRenderToScreen x) (_useMRT x) (_mrtRenderPass x) (_sharedDepthPass x)
    (stencilTest x) (heap x) (texNext x) v (calls x) (depthClears x).

Definition set_calls (v : list RenderCall) (x : St) : St :=
  mkSt (renderer x) (inputBuffer x) (outputBuffer x)
    (inputBufferDepthTexture x) (depthTexture x) (passes x)
    (autoRenderToScreen x) (_useMRT x) (_mrtRenderPass x) (_sharedDepthPass x)
    (stencilTest x) (heap x) (texNext x) (disposed x) v (depthClears x).

Definition set_depthClears (v : nat) (x : St) : St :=
  mkSt (renderer x) (inputBuffer x) (outputBuffer x)
    (inputBufferDepthTexture x) (depthTexture x) (passes x)
    (autoRenderToScreen x) (_useMRT x) (_mrtRenderPass x) (_sharedDepthPass x)
    (stencilTest x) (heap x) (texNext x) (disposed x) (calls x) v.

Definition on_pass (id : nat) (f : Pass -> Pass) : M St unit :=
  modify (fun s => set_heap (alter f id (heap s)) s).

(** Reading a property of [pass]: of something that is not an object this
    is a TypeError. *)
Definition the_pass (id : nat) : M St Pass :=
  let* s := get in
  match heap s !! id with
  | Some p => ret p
  | None => throw
  end.

(** *** The multi-target probe and the substitute pass *)

(** [_cleanupMRTResources()] *)
Definition _cleanupMRTResources : M St unit :=
  let* s := get in
  match _mrtRenderPass s with
  | Some id => on_pass id (set_renderTargetMRT None)
  | None => ret tt
  end >>
  modify (set_mrtRenderPass None) >>
  modify (set_sharedDepthPass None).

(** [_checkMRTSupport(renderer)], called with [this.renderer] *)
Definition _checkMRTSupport (plat : Platform) : M St unit :=
  let* s := get in
  match renderer s with
  | None => modify (set_useMRT false)
  | Some r =>
      let hasDrawBuffers :=
        if isWebGL2 r then true
        else match drawBuffersExtension r with Normal b => b | Thrown => false end in
      let mrtSupported :=
        if isWebGL2 r && hasDrawBuffers then
          match probeAlloc plat with
          | AllocTarget (Some 2%nat) => true
          | _ => false
          end
        else false in
      let supported := isWebGL2 r && hasDrawBuffers && mrtSupported in
      modify (set_useMRT supported) >>
      when (negb supported)
        (when (bool_decide (_mrtRenderPass s ≠ None) || bool_decide (_sharedDepthPass s ≠ None))
           _cleanupMRTResources)
  end.

(** [MRTRenderPass.createRenderTargets()] on the pass object [id].  Naming
    [textures[0]] and [textures[1]] raises a TypeError when the target has
    no such textures; the [catch] resets the target. *)
Definition createRenderTargets (plat : Platform) (id : nat) : M St bool :=
  let* p := the_pass id in
  match renderTargetMRT p with
  | None =>
      try_catch
        (if negb (isWebGL2Supported p) || negb (isMRTSupported p) then ret false
         else
           match targetAlloc plat with
           | AllocThrows => throw
           | AllocTarget tx =>
               on_pass id (set_renderTargetMRT (Some tx)) >>
               match tx with
               | Some n => if (2 <=? n)%nat then ret true else throw
               | None => throw
               end
           end)
        (on_pass id (set_renderTargetMRT None) >> ret false)
  | Some _ => ret true
  end.

(** [MRTRenderPass.initialize(renderer, alpha, frameBufferType)] on the
    pass object [id], called with [this.renderer] of the composer. *)
Definition MRT_initialize (plat : Platform) (id : nat) : M St bool :=
  let* s := get in
  match renderer s with
  | None => ret false
  | Some r =>
      on_pass id (set_isWebGL2Supported (isWebGL2 r)) >>
      if negb (isWebGL2 r) then ret false
      else
        let* probed :=
          try_catch
            (match initAlloc plat with
             | AllocThrows => throw
             | AllocTarget None =>
                 on_pass id (set_isMRTSupported false) >> ret false
             | AllocTarget (Some _) =>
                 on_pass id (set_isMRTSupported true) >> ret true
             end)
            (on_pass id (set_isMRTSupported false) >> ret false) in
        if negb probed then ret false
        else
          let* success := createRenderTargets plat id in
          let* p := the_pass id in
          if negb (mrt_depthTexture p) then ret false else ret success
  end.

(** [setMRTRenderPass(scene, camera)]: the id of the new pass, or [None]
    for [null]. *)
Definition setMRTRenderPass (plat : Platform) : M St (option nat) :=
  try_catch
    (let* s := get in
     if negb (_useMRT s) then ret None
     else
       (if ctorThrows plat then throw else ret tt) >>
       let id := fresh (dom (heap s)) in
       modify (fun s' => set_heap (<[id := new_MRTRenderPass]> (heap s')) s') >>
       modify (set_mrtRenderPass (Some id)) >>
       match renderer s with
       | None => modify (set_mrtRenderPass None) >> ret None
       | Some _ =>
           let* initResult := MRT_initialize plat id in
           if negb initResult then modify (set_mrtRenderPass None) >> ret None
           else
             let* p := the_pass id in
             if negb (mrt_depthTexture p) then ret (Some id)
             else
               (if sharedDepthThrows plat then throw else ret tt) >>
               modify (set_sharedDepthPass
                         (Some (mkSharedDepth (sharedDepthTexture plat)))) >>
               when (negb (sharedDepthTexture plat))
                 (modify (set_sharedDepthPass None)) >>
               ret (Some id)
       end)
    (modify (set_mrtRenderPass None) >>
     modify (set_sharedDepthPass None) >>
     ret None).

(** *** The shared depth texture *)

(** [createDepthTexture()] *)
Definition createDepthTexture : M St nat :=
  let* s := get in
  let depthTexture := texNext s in
  modify (set_texNext (S (texNext s))) >>
  modify (set_depthTexture (Some depthTexture)) >>
  modify (set_inputBufferDepthTexture (Some depthTexture)) >>
  ret depthTexture.

(** [for (pass of passes) pass.setDepthTexture(t)] *)
Definition setDepthTextureOn (t : option nat) (ids : list nat)
  (h : gmap nat Pass) : gmap nat Pass :=
  foldr (fun id h' => alter (setDepthTexture t) id h') h ids.

Definition setDepthTextureAll (t : option nat) : M St unit :=
  modify (fun s => set_heap (setDepthTextureOn t (passes s) (heap s)) s).

(** [deleteDepthTexture()] *)
Definition deleteDepthTexture : M St unit :=
  let* s := get in
  match depthTexture s with
  | Some t =>
      modify (set_disposed ({[t]} ∪ disposed s)) >>
      modify (set_depthTexture None) >>
      modify (set_inputBufferDepthTexture None) >>
      setDepthTextureAll None
  | None => ret tt
  end.

(** *** addPass and removePass *)

(** Where [passes.splice(index, 0, pass)] inserts: a negative index counts
    from the end, and the result is clamped to the list. *)
Definition splice_pos (len : nat) (index : Z) : nat :=
  if index <? 0 then Z.to_nat (Z.max (Z.of_nat len + index) 0)
  else Z.to_nat (Z.min index (Z.of_nat len)).

Definition insert_pass (index : option Z) (pass : nat) (l : list nat) : list nat :=
  match index with
  | None => l ++ [pass]
  | Some i => take (splice_pos (length l) i) l ++ pass :: drop (splice_pos (length l) i) l
  end.

(** [passes[passes.length - 1].renderToScreen = v] *)
Definition set_last_renderToScreen (v : bool) : M St unit :=
  let* s := get in
  match last (passes s) with
  | Some id => on_pass id (set_renderToScreen v)
  | None => throw
  end.

(** The first half of [addPass]: when multi-target rendering is enabled
    and the very first pass is a RenderPass, try to put an MRTRenderPass in
    its place.  The answer tells whether that happened, in which case
    [addPass] returns at once. *)
Definition substitutePass (plat : Platform) (p : Pass) : M St bool :=
  let* s := get in
  if _useMRT s && (length (passes s) =? 0)%nat && bool_decide (cls p = RenderPass) then
    let* mrtPass := setMRTRenderPass plat in
    match mrtPass with
    | Some mid =>
        match renderer s with
        | Some r =>
            on_pass mid (set_size (Some (drawingBufferSize r))) >>
            modify (fun s' => set_passes (passes s' ++ [mid]) s') >>
            ret true
        | None => throw
        end
    | None => ret false
    end
  else ret false.

(** The second half of [addPass]: the pass itself is sized, initialised and
    put on the list, and the depth texture is created or handed on. *)
Definition insertPass (pass : nat) (index : option Z) : M St unit :=
  let* s := get in
  match renderer s with
  | None => throw
  | Some r =>
      on_pass pass (set_size (Some (drawingBufferSize r))) >>
      on_pass pass (set_initialized true) >>
      let* s1 := get in
      when (autoRenderToScreen s1)
        (when (0 <? length (passes s1))%nat (set_last_renderToScreen false) >>
         let* p1 := the_pass pass in
         when (renderToScreen p1) (modify (set_autoRenderToScreen false))) >>
      modify (fun s' => set_passes (insert_pass index pass (passes s')) s') >>
      let* s2 := get in
      when (autoRenderToScreen s2) (set_last_renderToScreen true) >>
      let* p2 := the_pass pass in
      when (needsDepthTexture p2 || bool_decide (depthTexture s2 ≠ None))
        (match depthTexture s2 with
         | None =>
             let* depthTexture := createDepthTexture in
             setDepthTextureAll (Some depthTexture)
         | Some t => on_pass pass (setDepthTexture (Some t))
         end)
  end.

(** [addPass(pass, index)]; [index] is [None] when it is not passed. *)
Definition addPass (plat : Platform) (pass : nat) (index : option Z) : M St unit :=
  let* p := the_pass pass in
  let* substituted := substitutePass plat p in
  if substituted then ret tt else insertPass pass index.

(** [passes.reduce((a, b) => (a || b.needsDepthTexture), false)] *)
Definition depthTextureRequired (s : St) : bool :=
  fold_left (fun a b =>
               a || match heap s !! b with
                    | Some p => needsDepthTexture p
                    | None => false
                    end)
            (passes s) false.

(** [removePass(pass)] *)
Definition removePass (pass : nat) : M St unit :=
  let* s := get in
  match list_find (fun x => x = pass) (passes s) with
  | None => ret tt
  | Some (index, _) =>
      modify (set_passes (delete index (passes s))) >>
      let* s1 := get in
      when (bool_decide (depthTexture s1 ≠ None))
        (when (negb (depthTextureRequired s1))
           (let* p := the_pass pass in
            when (bool_decide (getDepthTexture p = depthTexture s1))
              (on_pass pass (setDepthTexture None)) >>
            deleteDepthTexture)) >>
      when (autoRenderToScreen s1)
        (when (index =? length (passes s1))%nat
           (on_pass pass (set_renderToScreen false) >>
            when (0 <? length (passes s1))%nat (set_last_renderToScreen true)))
  end.

(** *** render *)

(** The local variables of the pass loop. *)
Record Locals : Type := mkLocals {
  l_input : nat;                      (* inputBuffer *)
  l_output : nat;                     (* outputBuffer *)
  l_shared : option SharedDepth;      (* _sharedDepthPass *)
  l_valid : bool                      (* validSharedDepth *)
}.

(** [const temp = inputBuffer; inputBuffer = outputBuffer; outputBuffer = temp] *)
Definition swap (loc : Locals) : Locals :=
  mkLocals (l_output loc) (l_input loc) (l_shared loc) (l_valid loc).

(** [pass.render(renderer, inputBuffer, outputBuffer, dt, this.stencilTest
    [, _sharedDepthPass])]: the call is logged, and raises when the pass at
    this position is one that fails in this frame.  What a render does to
    the pass itself stays outside: of the fields kept here only
    [renderTargetMRT] is concerned, which an MRTRenderPass that has no
    target allocates during its render. *)
Definition pass_render (throws : nat -> bool) (i id : nat) (loc : Locals)
  (shared : option SharedDepth) : M St unit :=
  let* s := get in
  modify (set_calls
            (calls s ++ [mkCall i id (l_input loc) (l_output loc) (stencilTest s) shared])) >>
  if throws i then throw else ret tt.

(** [_updateSharedDepthPass()] *)
Definition _updateSharedDepthPass : M St bool :=
  try_catch
    (let* s := get in
     match _mrtRenderPass s, _sharedDepthPass s with
     | Some mid, Some _ =>
         let* p := the_pass mid in
         if negb (mrt_depthTexture p) then ret false
         else modify (set_sharedDepthPass (Some (mkSharedDepth true))) >> ret true
     | _, _ => ret false
     end)
    (ret false).

(** How the [try] block of one iteration ends: with [continue], or by
    falling through to the code after the [catch]. *)
Inductive flow : Type :=
| Continue
| Proceed (loc : Locals).

(** One iteration of [for (let i = 0, l = passes.length; i < l; ++i)]. *)
Definition render_step (throws : nat -> bool) (skipDepthPass : bool)
  (depthPassIndex : option nat) (i id : nat) (loc : Locals) : M St Locals :=
  let* pass := the_pass id in
  if negb (enabled pass) then ret loc
  else if skipDepthPass && bool_decide (depthPassIndex = Some i) then ret loc
  else
    let* s := get in
    let* f :=
      try_catch
        (if bool_decide (cls pass = MRTRenderPass) && negb (_useMRT s) then ret Continue
         else if bool_decide (cls pass = MRTRenderPass) then
           pass_render throws i id loc None >>
           let* updated := _updateSharedDepthPass in
           let* s' := get in
           ret (Proceed (if updated
                         then mkLocals (l_input loc) (l_output loc) (_sharedDepthPass s') true
                         else loc))
         else if bool_decide (cls pass = EffectPass) && l_valid loc then
           pass_render throws i id loc (l_shared loc) >> ret (Proceed loc)
         else
           pass_render throws i id loc None >> ret (Proceed loc))
        (ret (Proceed loc)) in
    match f with
    | Continue => ret loc
    | Proceed loc1 =>
        let* loc2 :=
          if needsSwap pass then
            when (bool_decide (cls pass = MaskPass)
                  && (enabled pass && negb (clearPassEnabled pass)))
              (modify (fun s' => set_depthClears (S (depthClears s')) s')) >>
            ret (swap loc1)
          else ret loc1 in
        when (bool_decide (cls pass = MaskPass))
          (if enabled pass && negb (clearPassEnabled pass)
           then modify (set_stencilTest (Val true))
           else when (clearPassEnabled pass) (modify (set_stencilTest (Val false)))) >>
        ret loc2
    end.

Fixpoint render_loop (throws : nat -> bool) (skipDepthPass : bool)
  (depthPassIndex : option nat) (i : nat) (ids : list nat) (loc : Locals)
  : M St Locals :=
  match ids with
  | [] => ret loc
  | id :: rest =>
      let* loc' := render_step throws skipDepthPass depthPassIndex i id loc in
      render_loop throws skipDepthPass depthPassIndex (S i) rest loc'
  end.

(** [depthPassIndex]: the first pass that is a DepthPass and not a
    SharedDepthPass; [None] stands for -1. *)
Definition find_depthPassIndex (s : St) : option nat :=
  fst <$> list_find (fun id => cls <$> heap s !! id = Some DepthPass) (passes s).

(** [validSharedDepth]: there is a shared depth pass and it has a texture. *)
Definition validSharedDepth (s : St) : bool :=
  match _sharedDepthPass s with
  | Some sd => sd_texture sd
  | None => false
  end.

(** [skipDepthPass = this._useMRT && depthPassIndex !== -1 && validSharedDepth] *)
Definition skipDepthPass (s : St) : bool :=
  _useMRT s && bool_decide (find_depthPassIndex s ≠ None) && validSharedDepth s.

(** [render(deltaTime)].  [throws i] tells whether the render of the pass
    at position [i] raises in this frame. *)
Definition render (throws : nat -> bool) : M St unit :=
  let* s := get in
  match renderer s with
  | None => ret tt
  | Some _ =>
      let* _ := render_loop throws (skipDepthPass s) (find_depthPassIndex s) 0
                  (passes s)
                  (mkLocals (inputBuffer s) (outputBuffer s)
                     (_sharedDepthPass s) (validSharedDepth s)) in
      ret tt
  end.

(** *** What a frame is expected to draw *)

(** The render calls a [render] appended to the log. *)
Definition new_calls (before after : St) : list RenderCall :=
  drop (length (calls before)) (calls after).

(** Does the loop call [render] on the pass [id] at position [i]?  Disabled
    passes, the regular depth pass when the shared one stands in for it,
    and an MRTRenderPass without multi-target support are passed over. *)
Definition renders (s : St) (skip : bool) (depthPassIndex : option nat)
  (i id : nat) : bool :=
  match heap s !! id with
  | Some pass =>
      enabled pass
      && negb (skip && bool_decide (depthPassIndex = Some i))
      && negb (bool_decide (cls pass = MRTRenderPass) && negb (_useMRT s))
  | None => false
  end.

Fixpoint expected_calls (s : St) (skip : bool) (depthPassIndex : option nat)
  (i : nat) (ids : list nat) : list (nat * nat) :=
  match ids with
  | [] => []
  | id :: rest =>
      (if renders s skip depthPassIndex i id then [(i, id)] else [])
      ++ expected_calls s skip depthPassIndex (S i) rest
  end.

(** The positions and passes one frame draws, in order. *)
Definition render_plan (s : St) : list (nat * nat) :=
  match renderer s with
  | None => []
  | Some _ => expected_calls s (skipDepthPass s) (find_depthPassIndex s) 0 (passes s)
  end.

(** Buffers are handed from call to call: each call gets the current pair,
    and the pair is swapped after a pass with [needsSwap]. *)
Fixpoint chained (h : gmap nat Pass) (input output : nat) (cs : list RenderCall)
  : Prop :=
  match cs with
  | [] => True
  | c :: rest =>
      rc_input c = input ∧ rc_output c = output
      ∧ ∃ p, h !! rc_pass c = Some p
             ∧ chained h (if needsSwap p then output else input)
                         (if needsSwap p then input else output) rest
  end.

(** *** The substitute pass, seen from outside *)

(** The probe of [MRTRenderPass.initialize] found a target with a
    [textures] array. *)
Definition probe_ok (a : Alloc) : bool :=
  match a with AllocTarget (Some _) => true | _ => false end.

(** The target of [createRenderTargets] has a colour and a depth texture. *)
Definition target_ok (a : Alloc) : bool :=
  match a with AllocTarget (Some n) => (2 <=? n)%nat | _ => false end.

(** The state in which the substitute pass is initialised: the new object
    is on the heap and [_mrtRenderPass] refers to it. *)
Definition with_substitute (s : St) : nat * St :=
  let id := fresh (dom (heap s)) in
  (id, set_mrtRenderPass (Some id)
         (set_heap (<[id := new_MRTRenderPass]> (heap s)) s)).

(** What [initialize] of the substitute answers when [addPass] is called
    in state [s]. *)
Definition substitute_initialize (plat : Platform) (s : St) : bool :=
  match fst (MRT_initialize plat (fst (with_substitute s)) (snd (with_substitute s))) with
  | Normal success => success
  | Thrown => false
  end.

(** *** The shared depth texture between calls *)

(** Does the object [id] ask for the depth texture, and which texture was
    it handed last? *)
Definition needs (h : gmap nat Pass) (id : nat) : bool :=
  match h !! id with Some p => needsDepthTexture p | None => false end.

Definition holds (h : gmap nat Pass) (id : nat) : option nat :=
  match h !! id with Some p => depthTextureSet p | None => None end.

(** The part of a pass the composer never changes. *)
Definition contract (p : Pass) : PassClass * bool * bool * bool :=
  (cls p, enabled p, needsSwap p, needsDepthTexture p).

(** What holds of the composer between calls. *)
Record Inv (s : St) : Prop := mkInv {
  inv_heap : ∀ id, id ∈ passes s → is_Some (heap s !! id);
  inv_need : depthTexture s ≠ None ↔ ∃ id, id ∈ passes s ∧ needs (heap s) id = true;
  inv_prop : ∀ t id, depthTexture s = Some t → id ∈ passes s → holds (heap s) id = Some t;
  inv_buf : inputBufferDepthTexture s = depthTexture s;
  inv_live : ∀ t, (t < texNext s)%nat → t ∈ disposed s ∨ depthTexture s = Some t;
  inv_cur : ∀ t, depthTexture s = Some t → (t < texNext s)%nat ∧ t ∉ disposed s;
  inv_disp : ∀ t, t ∈ disposed s → (t < texNext s)%nat
}.

(** The states of a composer: a new composer has no passes and no depth
    texture; the caller may construct pass objects and call [addPass] and
    [removePass] with any arguments. *)
Inductive reachable : St → Prop :=
| reach_new s :
    passes s = [] → depthTexture s = None → inputBufferDepthTexture s = None →
    texNext s = 0%nat → disposed s = ∅ → reachable s
| reach_construct s id p :
    reachable s → heap s !! id = None →
    reachable (set_heap (<[id := p]> (heap s)) s)
| reach_addPass s plat pass index :
    reachable s → reachable (snd (addPass plat pass index s))
| reach_removePass s pass :
    reachable s → reachable (snd (removePass pass s)).

(** *** A small composer to run the model on *)

Definition sample_renderer : Renderer := mkRenderer true (Normal true) (800, 600).

(** A pass of class [c] fresh from its constructor, enabled and swapping. *)
Definition sample_pass (c : PassClass) (needsDepth : bool) : Pass :=
  mkPass c true true needsDepth false true None None false false false false None.

(** A context in which every allocation succeeds. *)
Definition sample_platform : Platform :=
  mkPlatform (AllocTarget (Some 2%nat)) false (AllocTarget (Some 2%nat))
    (AllocTarget (Some 2%nat)) false true.

(** The pass objects of the samples: a RenderPass, an EffectPass that reads
    depth, and a plain ShaderPass. *)
Definition sample_heap : gmap nat Pass :=
  {[ 0%nat := sample_pass RenderPass false;
     1%nat := sample_pass EffectPass true;
     2%nat := sample_pass OtherPass false ]}.

(** A new composer over [sample_renderer], with or without multi-target
    support detected. *)
Definition sample_composer (mrt : bool) : St :=
  mkSt (Some sample_renderer) 0 1 None None [] true mrt None None Undefined
    sample_heap 0 ∅ [] 0.

(** *** The rest of the composer *)

(** [removeAllPasses()] *)
Definition removeAllPasses : M St unit :=
  deleteDepthTexture >>
  let* s := get in
  when (0 <? length (passes s))%nat
    (when (autoRenderToScreen s) (set_last_renderToScreen false) >>
     modify (set_passes [])).

(** Is the object [id] a pass that renders to screen? *)
Definition rendersToScreen (h : gmap nat Pass) (id : nat) : bool :=
  match h !! id with Some p => renderToScreen p | None => false end.

(** With [autoRenderToScreen] on, the passes of the list that render to
    screen are exactly the last one. *)
Definition lastRendersToScreen (s : St) : Prop :=
  autoRenderToScreen s = true →
  ∀ id, id ∈ passes s →
        (rendersToScreen (heap s) id = true ↔ last (passes s) = Some id).


(** The composer's own fields other than the stencil flag and the shared
    depth pass; the pass objects and the logs are not among them. *)
Definition composer_of (s : St) :=
  (renderer s, inputBuffer s, outputBuffer s, inputBufferDepthTexture s,
   depthTexture s, passes s, autoRenderToScreen s, _useMRT s, _mrtRenderPass s,
   texNext s, disposed s).

(** The local variables of the pass loop never claim a shared depth pass
    that is not there or has no texture. *)
Definition shared_ok (loc : Locals) : Prop :=
  l_valid loc = true → ∃ sd, l_shared loc = Some sd ∧ sd_texture sd = true.

End Composer.

(** ** OutlineManager, the TypeScript class *)

(** The file holds the class a second time, in TypeScript.  The two differ
    in [update] only: the TypeScript [update] has no dedup token, and it
    puts the scene background back at the very end. *)
Module OutlineManagerTS.

Import OutlineManager.

(** [update(renderer, deltaTime)] *)
Definition update (env : Env) : M St bool :=
  let* s0 := get in
  if negb (needsUpdate (mgr s0)) && negb (hasObjects (mgr s0)) then ret false
  else
    let background0 := background (world s0) in
    let mask := cameraMask (world s0) in
    on_world (set_background None) >>
    setVisibleAll false >>
    depthPass_render env >>
    setVisibleAll true >>
    let* s1 := get in
    let* layerRendered :=
      match currentLayer (mgr s1) with
      | Some layer =>
          match selectionsByLayer (mgr s1) !! layer with
          | Some sel =>
              if bool_decide (sel ≠ ∅) then
                on_world (set_cameraMask (layers_set layer)) >>
                maskPass_render env >>
                ret true
              else ret false
          | None => ret false
          end
      | None => ret false
      end in
    when (negb layerRendered)
      (on_world (set_cameraMask (layers_set (defaultLayer (mgr s1)))) >>
       maskPass_render env) >>
    on_world (set_cameraMask mask) >>
    on_world (set_background background0) >>
    on_mgr (set_needsUpdate false) >>
    ret true.

End OutlineManagerTS.

(** ** PerformanceLogger *)

(** The logger behind [timeLog], [timeEndLog] and [log] of the composer
    (utils/PerformanceLogger.js). *)
Module PerformanceLogger.

(** What reaches the console. *)
Inductive Console : Type :=
| ConsoleTime (label : string)
| ConsoleTimeEnd (label : string)
| ConsoleLog (args : list string)
| ConsoleWarn (args : list string)
| ConsoleError (args : list string).

Section Numbers.

(** JavaScript numbers with the operations the logger applies to them:
    subtraction, the sum and the quotient of [getTimeData], and
    [Math.min(...times)] and [Math.max(...times)], which raise a
    RangeError when the list is longer than the engine takes arguments. *)
Variable num : Type.
Variable sub : num → num → num.
Variable add : num → num → num.
Variable zero : num.
Variable div : num → nat → num.
Variable Math_min : list num → outcome num.
Variable Math_max : list num → outcome num.

(** The two [Map]s of the logger, keyed by the labels, which are strings
    ([@param {String} label]). *)
Record t : Type := mk {
  enabled : bool;
  timers : gmap string num;
  collectTimes : bool;
  timeData : gmap string (list num);
  console : list Console
}.

(** [new PerformanceLogger(enabled)] *)
Definition new_PerformanceLogger (enabled : bool) : t := mk enabled ∅ false ∅ [].

Definition print (c : Console) (l : t) : t :=
  mk (enabled l) (timers l) (collectTimes l) (timeData l) (console l ++ [c]).

Definition enable (l : t) : t :=
  mk true (timers l) (collectTimes l) (timeData l) (console l).

Definition disable (l : t) : t :=
  mk false (timers l) (collectTimes l) (timeData l) (console l).

Definition enableTimeCollection (l : t) : t :=
  mk (enabled l) (timers l) true (timeData l) (console l).

Definition disableTimeCollection (l : t) : t :=
  mk (enabled l) (timers l) false (timeData l) (console l).

(** [clearTimeData()] *)
Definition clearTimeData (l : t) : t :=
  mk (enabled l) (timers l) (collectTimes l) ∅ (console l).

(** One entry of the object [getTimeData()] answers. *)
Record Stats : Type := mkStats {
  count : nat;
  total : num;
  average : num;
  min : num;
  max : num
}.

(** [{ count, total, average, min, max }] for one list of durations *)
Definition stats_of (times : list num) : outcome Stats :=
  let sum := fold_left add times zero in
  match Math_min times with
  | Normal lo =>
      match Math_max times with
      | Normal hi =>
          Normal (mkStats (length times) sum (div sum (length times)) lo hi)
      | Thrown => Thrown
      end
  | Thrown => Thrown
  end.

(** The plain object [getTimeData()] answers: its own properties and its
    prototype, [None] standing for [Object.prototype]. *)
Record TimeData : Type := mkTimeData {
  own : gmap string Stats;
  proto : option Stats
}.

(** [getTimeData()].  The loop visits the entries of the map that have
    durations; it raises if the statistics of one of them raise, and
    otherwise [result[key] = stats] has been done for each of them.  That
    assignment defines an own property of [result], except for the key
    [__proto__], where it makes [stats] the prototype of [result] and
    defines nothing.  Neither outcome depends on the order of the visit. *)
Definition getTimeData (l : t) : outcome TimeData :=
  let entries :=
    omap (fun times : list num =>
            if (0 <? length times)%nat then Some (stats_of times) else None)
         (timeData l) in
  if bool_decide (map_Exists (fun _ o => returned o = false) entries) then Thrown
  else
    let result :=
      omap (fun o : outcome Stats =>
              match o with Normal stats => Some stats | Thrown => None end)
           entries in
    Normal (mkTimeData (delete "__proto__" result) (result !! "__proto__")).

(** [time(label)]; [now] is what [performance.now()] answers. *)
Definition time (label : string) (now : num) (l : t) : t :=
  if negb (enabled l) then l
  else
    let l1 := print (ConsoleTime label) l in
    mk (enabled l1) (<[label := now]> (timers l1)) (collectTimes l1) (timeData l1)
      (console l1).

(** [timeEnd(label)] *)
Definition timeEnd (label : string) (now : num) (l : t) : t :=
  if negb (enabled l) then l
  else
    let l1 := print (ConsoleTimeEnd label) l in
    if collectTimes l1 then
      match timers l1 !! label with
      | Some startTime =>
          let duration := sub now startTime in
          let data :=
            match timeData l1 !! label with
            | Some _ => timeData l1
            | None => <[label := []]> (timeData l1)
            end in
          mk (enabled l1) (delete label (timers l1)) (collectTimes l1)
            (alter (fun times => times ++ [duration]) label data) (console l1)
      | None => l1
      end
    else l1.

(** [log(...args)], [warn(...args)] and [error(...args)] *)
Definition log (args : list string) (l : t) : t :=
  if negb (enabled l) then l else print (ConsoleLog args) l.

Definition warn (args : list string) (l : t) : t :=
  if negb (enabled l) then l else print (ConsoleWarn args) l.

Definition error (args : list string) (l : t) : t := print (ConsoleError args) l.

(** The calls a program makes on the logger, and their effect in order. *)
Inductive Call : Type :=
| CallEnable
| CallDisable
| CallEnableTimeCollection
| CallDisableTimeCollection
| CallClearTimeData
| CallTime (label : string) (now : num)
| CallTimeEnd (label : string) (now : num)
| CallLog (args : list string)
| CallWarn (args : list string)
| CallError (args : list string).

Definition call (c : Call) (l : t) : t :=
  match c with
  | CallEnable => enable l
  | CallDisable => disable l
  | CallEnableTimeCollection => enableTimeCollection l
  | CallDisableTimeCollection => disableTimeCollection l
  | CallClearTimeData => clearTimeData l
  | CallTime label now => time label now l
  | CallTimeEnd label now => timeEnd label now l
  | CallLog args => log args l
  | CallWarn args => warn args l
  | CallError args => error args l
  end.

Definition run (cs : list Call) (l : t) : t := fold_left (fun l c => call c l) cs l.

(** Every list of durations the logger keeps has an entry. *)
Definition recorded (l : t) : Prop :=
  ∀ label times, timeData l !! label = Some times → times ≠ [].

(** The [error] calls among [cs], as they reach the console. *)
Definition errors (cs : list Call) : list Console :=
  omap (fun c => match c with CallError args => Some (ConsoleError args) | _ => None end) cs.

End Numbers.

Arguments mk {num}.
Arguments enabled {num}.
Arguments timers {num}.
Arguments collectTimes {num}.
Arguments timeData {num}.
Arguments console {num}.
Arguments new_PerformanceLogger {num}.
Arguments enable {num}.
Arguments disable {num}.
Arguments enableTimeCollection {num}.
Arguments disableTimeCollection {num}.
Arguments clearTimeData {num}.
Arguments mkStats {num}.
Arguments count {num}.
Arguments total {num}.
Arguments average {num}.
Arguments min {num}.
Arguments max {num}.
Arguments getTimeData {num}.
Arguments stats_of {num}.
Arguments mkTimeData {num}.
Arguments own {num}.
Arguments proto {num}.
Arguments time {num}.
Arguments timeEnd {num}.
Arguments log {num}.
Arguments warn {num}.
Arguments error {num}.
Arguments CallEnable {num}.
Arguments CallDisable {num}.
Arguments CallEnableTimeCollection {num}.
Arguments CallDisableTimeCollection {num}.
Arguments CallClearTimeData {num}.
Arguments CallTime {num}.
Arguments CallTimeEnd {num}.
Arguments CallLog {num}.
Arguments CallWarn {num}.
Arguments CallError {num}.
Arguments call {num}.
Arguments run {num}.
Arguments errors {num}.
Arguments recorded {num}.
Arguments print {num}.

End PerformanceLogger.

(** * Proofs *)

(** ** Tactics for running method bodies *)

Ltac unfold_js :=
  unfold bind, ret, throw, get, modify, when, try_catch in *.

Ltac case_step :=
  match goal with
  | |- context [if ?c then _ else _] => destruct c eqn:?
  | |- context [match ?o with Some _ => _ | None => _ end] => destruct o eqn:?
  end.

Ltac decide_hyps :=
  repeat match goal with
         | H : bool_decide _ = true |- _ => apply bool_decide_eq_true in H
         | H : bool_decide _ = false |- _ => apply bool_decide_eq_false in H
         end.

(** ** The render log *)

Lemma count_app f (a b : list Event) :
  count f (a ++ b) = (count f a + count f b)%nat.
Proof. unfold count. by rewrite filter_app, length_app. Qed.

Lemma new_events_app (w w' : World) evs :
  trace w' = trace w ++ evs → new_events w w' = evs.
Proof. intros H. unfold new_events. rewrite H. by rewrite drop_app_length. Qed.

(** ** OutlineManager *)

Module ManagerFacts.

Import OutlineManager.

(** *** clearUnused *)

Lemma elem_of_clearSelection (active sel : gset Obj) (o : Obj) :
  o ∈ fst (clearSelection active sel) ↔ o ∈ sel ∧ o ∈ active.
Proof.
  unfold clearSelection.
  cut (∀ X : gset Obj,
         (λ (acc : gset Obj * bool) (X : gset Obj),
            ∀ o, o ∈ fst acc ↔ o ∈ sel ∧ (o ∈ X → o ∈ active))
           (set_fold (λ object acc,
                        if decide (object ∈ active) then acc
                        else (fst acc ∖ {[object]}, true)) (sel, false) X) X).
  { intros H. rewrite (H sel o). tauto. }
  apply set_fold_ind_L; simpl.
  - intros o'. set_solver.
  - intros x X r Hx IH o'. destruct (decide (x ∈ active)); simpl.
    + rewrite IH. set_solver.
    + rewrite elem_of_difference, IH. set_solver.
Qed.

Lemma clearSelection_changed (active sel : gset Obj) :
  snd (clearSelection active sel) = true ↔ ∃ o, o ∈ sel ∧ o ∉ active.
Proof.
  unfold clearSelection.
  cut (∀ X : gset Obj,
         (λ (acc : gset Obj * bool) (X : gset Obj),
            snd acc = true ↔ ∃ o, o ∈ X ∧ o ∉ active)
           (set_fold (λ object acc,
                        if decide (object ∈ active) then acc
                        else (fst acc ∖ {[object]}, true)) (sel, false) X) X).
  { intros H. apply H. }
  apply set_fold_ind_L; simpl.
  - split; [done|]. intros (o & Ho & _). set_solver.
  - intros x X r Hx IH. destruct (decide (x ∈ active)); simpl.
    + rewrite IH. split; intros (o & Ho & Hn); exists o; set_solver.
    + split; [|done]. intros _. exists x. set_solver.
Qed.

Lemma clearUnused_lookup active exceptLayer m layer :
  selectionsByLayer (clearUnused active exceptLayer m) !! layer =
  (λ sel, if decide (exceptLayer = Some layer) then sel
          else fst (clearSelection active sel)) <$> selectionsByLayer m !! layer.
Proof.
  unfold clearUnused.
  cut (∀ mp : gmap Z (gset Obj),
    (λ (acc : t) (mp : gmap Z (gset Obj)),
       ∀ layer,
         selectionsByLayer acc !! layer =
         match mp !! layer with
         | Some sel => if decide (exceptLayer = Some layer)
                       then selectionsByLayer m !! layer
                       else Some (fst (clearSelection active sel))
         | None => selectionsByLayer m !! layer
         end)
      (map_fold (λ layer sel acc,
         if decide (exceptLayer = Some layer) then acc
         else set_needsUpdate (needsUpdate acc || snd (clearSelection active sel))
                (set_selectionsByLayer
                   (<[layer := fst (clearSelection active sel)]> (selectionsByLayer acc)) acc))
         m mp) mp).
  { intros H. rewrite (H (selectionsByLayer m) layer).
    destruct (selectionsByLayer m !! layer) eqn:E; simpl; [|done].
    by destruct (decide _). }
  apply map_fold_weak_ind; simpl.
  - intros l. by rewrite lookup_empty.
  - intros i x mp r Hi IH l.
    destruct (decide (exceptLayer = Some i)) as [->|Hne]; simpl.
    + rewrite IH. destruct (decide (i = l)) as [->|Hil].
      * rewrite lookup_insert_eq, Hi. by rewrite decide_True.
      * by rewrite lookup_insert_ne.
    + destruct (decide (i = l)) as [->|Hil].
      * rewrite !lookup_insert_eq. by rewrite decide_False.
      * rewrite !lookup_insert_ne by done. apply IH.
Qed.

(** [clearUnused] asks for an update exactly when one was pending or it
    removed something. *)
Lemma clearUnused_needsUpdate active exceptLayer m :
  needsUpdate (clearUnused active exceptLayer m) = true ↔
  needsUpdate m = true
  ∨ ∃ layer sel o, selectionsByLayer m !! layer = Some sel
                   ∧ exceptLayer ≠ Some layer ∧ o ∈ sel ∧ o ∉ active.
Proof.
  unfold clearUnused.
  cut (∀ mp : gmap Z (gset Obj),
    (λ (acc : t) (mp : gmap Z (gset Obj)),
       needsUpdate acc = true ↔
       needsUpdate m = true
       ∨ ∃ layer sel o, mp !! layer = Some sel
                        ∧ exceptLayer ≠ Some layer ∧ o ∈ sel ∧ o ∉ active)
      (map_fold (λ layer sel acc,
         if decide (exceptLayer = Some layer) then acc
         else set_needsUpdate (needsUpdate acc || snd (clearSelection active sel))
                (set_selectionsByLayer
                   (<[layer := fst (clearSelection active sel)]> (selectionsByLayer acc)) acc))
         m mp) mp).
  { intros H. apply H. }
  apply map_fold_weak_ind; simpl.
  - split; [by left|]. intros [?|(l & sel & o & Hl & _)]; [done|].
    by rewrite lookup_empty in Hl.
  - intros i x mp r Hi IH.
    assert (∀ l sel, <[i:=x]> mp !! l = Some sel ↔
                     (l = i ∧ sel = x) ∨ (l ≠ i ∧ mp !! l = Some sel)) as Hins.
    { intros l sel. destruct (decide (l = i)) as [->|Hl].
      - rewrite lookup_insert_eq. naive_solver.
      - rewrite lookup_insert_ne by done. naive_solver. }
    destruct (decide (exceptLayer = Some i)) as [->|Hne]; simpl.
    + rewrite IH. split; (intros [?|(l & sel & o & Hl & He & Ho)]; [by left|right]).
      * exists l, sel, o. rewrite Hins. split; [|done]. right. split; [congruence|done].
      * apply Hins in Hl as [[-> ->]|[? Hl]]; [done|]. by exists l, sel, o.
    + rewrite orb_true_iff, IH, clearSelection_changed. split.
      * intros [[?|(l & sel & o & Hl & He & Ho)]|(o & Ho)]; [by left|right..].
        -- exists l, sel, o. rewrite Hins. split; [|done]. right.
           split; [|done]. intros ->. by rewrite Hi in Hl.
        -- exists i, x, o. rewrite Hins. split; [by left|done].
      * intros [?|(l & sel & o & Hl & He & Ho)]; [by left; left|].
        apply Hins in Hl as [[-> ->]|[? Hl]]; [right; by exists o|].
        left; right. by exists l, sel, o.
Qed.

(** C7. [clearUnused(activeObjects, exceptLayer)] keeps every layer; in
    each layer it removes no member that is in [activeObjects]; in every
    layer but [exceptLayer] it removes every member that is not in
    [activeObjects]; and it leaves the selection of [exceptLayer] as it
    was.  Nothing is ever added. *)
Theorem clearUnused_reconciles (activeObjects : gset Obj) (exceptLayer : option Z)
  (m : OutlineManager.t) (layer : Z) (sel : gset Obj) :
  selectionsByLayer m !! layer = Some sel →
  ∃ sel',
    selectionsByLayer (clearUnused activeObjects exceptLayer m) !! layer = Some sel'
    ∧ (∀ o, o ∈ sel → o ∈ activeObjects → o ∈ sel')
    ∧ (exceptLayer ≠ Some layer → ∀ o, o ∈ sel → o ∉ activeObjects → o ∉ sel')
    ∧ (exceptLayer = Some layer → sel' = sel)
    ∧ sel' ⊆ sel.
Proof.
  intros Hsel. rewrite clearUnused_lookup, Hsel. simpl.
  eexists; split; [reflexivity|].
  destruct (decide (exceptLayer = Some layer)) as [He|He].
  - repeat split; try done.
  - repeat split; try done.
    + intros o Ho Ha. apply elem_of_clearSelection. done.
    + intros _ o Ho Ha [_ ?]%elem_of_clearSelection. done.
    + intros o [? _]%elem_of_clearSelection. done.
Qed.

(** A manager with objects 1 and 2 on layer 10 and object 5 on layer 11,
    of which only object 1 is still selected by a consumer. *)
Lemma clearUnused_reconciles_witness :
  let m := mk {[ 10 := {[ 1%nat; 2%nat ]} ; 11 := {[ 5%nat ]} ]} 10 None false (Number_of_Z 1) (px 1 1) (px 1 1) in
  selectionsByLayer m !! 10 = Some {[ 1%nat; 2%nat ]}
  ∧ ∃ sel',
      selectionsByLayer (clearUnused {[ 1%nat ]} (Some 11) m) !! 10 = Some sel'
      ∧ (∀ o, o ∈ ({[ 1%nat; 2%nat ]} : gset Obj) → o ∈ ({[ 1%nat ]} : gset Obj) → o ∈ sel')
      ∧ (Some 11 ≠ Some 10 →
         ∀ o, o ∈ ({[ 1%nat; 2%nat ]} : gset Obj) → o ∉ ({[ 1%nat ]} : gset Obj) → o ∉ sel')
      ∧ (Some 11 = Some 10 → sel' = {[ 1%nat; 2%nat ]})
      ∧ sel' ⊆ {[ 1%nat; 2%nat ]}.
Proof.
  intros m. split; [vm_compute; reflexivity|].
  apply (clearUnused_reconciles {[ 1%nat ]} (Some 11) m 10 {[ 1%nat; 2%nat ]}).
  vm_compute. reflexivity.
Defined.

(** *** setSize *)

Lemma Qfloor_lb (x : Q) (z : Z) : (inject_Z z <= x)%Q → z ≤ Qfloor x.
Proof.
  intros H. rewrite <- (Qfloor_Z z). apply Qfloor_resp_le, H.
Qed.

Lemma Qfloor_ub (x : Q) (z : Z) : (x <= inject_Z z)%Q → Qfloor x ≤ z.
Proof.
  intros H. rewrite <- (Qfloor_Z z). apply Qfloor_resp_le, H.
Qed.

Lemma Qfloor_ge_iff (x : Q) (z : Z) : z ≤ Qfloor x ↔ (inject_Z z <= x)%Q.
Proof.
  split; [|apply Qfloor_lb].
  intros H. eapply Qle_trans; [|apply Qfloor_le].
  rewrite <- Zle_Qle. exact H.
Qed.

Lemma floor_spec_round (x : Q) :
  spec_round x - 1 ≤ Qfloor x ≤ spec_round x.
Proof.
  unfold spec_round. split.
  - pose proof (Qlt_floor x) as H. rewrite inject_Z_plus in H.
    pose proof (Qfloor_le (x + (1 # 2))) as H'.
    change (inject_Z 1) with 1%Q in H.
    assert (inject_Z (Qfloor (x + (1 # 2))) < inject_Z (Qfloor x + 1 + 1))%Q as Hlt.
    { rewrite !inject_Z_plus. change (inject_Z 1) with 1%Q. lra. }
    rewrite <- Zlt_Qlt in Hlt. lia.
  - apply Qfloor_resp_le. lra.
Qed.

(** Binary64 numbers: integers below 2^53 in magnitude are numbers, and
    [Math.floor] answers the floor of the value. *)

Lemma digits2_pos_size p : digits2_pos p = Pos.size p.
Proof. induction p; simpl; congruence. Qed.

Lemma digits2_pos_iter p k : digits2_pos (Pos.iter xO p k) = (digits2_pos p + k)%positive.
Proof.
  induction k using Pos.peano_ind.
  - simpl. lia.
  - rewrite Pos.iter_succ. simpl. rewrite IHk. lia.
Qed.

Lemma iter_xO_mul p k : Zpos (Pos.iter xO p k) = Zpos p * 2 ^ Zpos k.
Proof.
  induction k using Pos.peano_ind.
  - simpl. lia.
  - rewrite Pos.iter_succ. rewrite Pos2Z.inj_xO, IHk, Pos2Z.inj_succ, Z.pow_succ_r by lia. lia.
Qed.

Lemma digits_bound p : Zpos p < 2 ^ 53 → Zpos (digits2_pos p) ≤ 53.
Proof.
  intros H. rewrite digits2_pos_size.
  destruct (Z_le_gt_dec (Zpos (Pos.size p)) 53) as [|Hgt]; [done|exfalso].
  pose proof (Pos.size_le p) as Hle.
  assert (2 ^ 54 ≤ 2 ^ Zpos (Pos.size p)) as Hp by (apply Z.pow_le_mono_r; lia).
  assert (Zpos (2 ^ Pos.size p) = 2 ^ Zpos (Pos.size p)) as E by (by rewrite Pos2Z.inj_pow).
  assert (Zpos (2 ^ Pos.size p) ≤ Zpos p~0) as H' by (apply Pos2Z.pos_le_pos, Hle).
  rewrite E in H'. rewrite Pos2Z.inj_xO in H'.
  change (2 ^ 54) with (2 * 2 ^ 53) in Hp. lia.
Qed.

Lemma binary_round_aux_exact s m e :
  Zpos (digits2_pos m) = 53 → -1074 ≤ e ≤ 971 →
  binary_round_aux 53 1024 s (Zpos m) e loc_Exact = S754_finite s m e.
Proof.
  intros Hd He.
  assert (shr_fexp 53 1024 (Zpos m) e loc_Exact
          = (Build_shr_record (Zpos m) false false, e)) as Hshr.
  { unfold shr_fexp, fexp, emin. cbn [Zdigits2 shr_record_of_loc]. rewrite Hd.
    assert (Z.max (53 + e - 53) (3 - 1024 - 53) - e = 0) as -> by lia.
    reflexivity. }
  unfold binary_round_aux. rewrite Hshr.
  cbn [shr_m loc_of_shr_record round_nearest_even]. rewrite Hshr. cbn [shr_m].
  destruct (e <=? 1024 - 53) eqn:E; [done|]. apply Z.leb_gt in E. lia.
Qed.

Lemma binary_round_small s p :
  Zpos p < 2 ^ 53 →
  ∃ m e, binary_round 53 1024 s p 0 = S754_finite s m e
         ∧ -52 ≤ e ≤ 0 ∧ Zpos m = Zpos p * 2 ^ (- e).
Proof.
  intros Hp. pose proof (digits_bound p Hp) as Hd.
  pose proof (Pos2Z.is_pos (digits2_pos p)) as Hd0.
  unfold binary_round, shl_align, fexp, emin.
  rewrite Z.add_0_r.
  assert (Z.max (Zpos (digits2_pos p) - 53) (3 - 1024 - 53) = Zpos (digits2_pos p) - 53) as -> by lia.
  rewrite Z.sub_0_r.
  destruct (Zpos (digits2_pos p) - 53) as [|d|d] eqn:Hdiff; [|lia|].
  - exists p, 0. split; [|split; [lia|change (2 ^ (- 0)) with 1; lia]].
    apply binary_round_aux_exact; lia.
  - exists (Pos.iter xO p d), (Zneg d).
    assert (Zpos (digits2_pos (Pos.iter xO p d)) = 53) as Hd53.
    { rewrite digits2_pos_iter. lia. }
    split; [|split; [lia|]].
    + apply binary_round_aux_exact; lia.
    + rewrite iter_xO_mul. done.
Qed.

Lemma Qpower_2_neg k : 0 ≤ k → (inject_Z (2 ^ k) * Qpower 2 (- k) == 1)%Q.
Proof.
  intros Hk. rewrite Qpower_opp. rewrite <- (Zpower_Qpower 2 k) by done.
  field. intros H.
  assert (2 ^ k = 0) as H0 by (apply inject_Z_injective; exact H).
  pose proof (Z.pow_pos_nonneg 2 k ltac:(lia) Hk). lia.
Qed.

Lemma scaled_back z e :
  e ≤ 0 → (inject_Z (z * 2 ^ (- e)) * Qpower 2 e == inject_Z z)%Q.
Proof.
  intros He. rewrite inject_Z_mult, <- Qmult_assoc.
  replace e with (- (- e)) at 2 by lia.
  rewrite Qpower_2_neg by lia. ring.
Qed.

Lemma Number_of_Z_value z :
  Z.abs z < 2 ^ 53 →
  ∃ v, number_value (Number_of_Z z) = Some v ∧ (v == inject_Z z)%Q.
Proof.
  intros Hz. unfold Number_of_Z, binary_normalize.
  destruct z as [|p|p].
  - exists 0%Q. done.
  - destruct (binary_round_small false p) as (m & e & -> & He & Hm); [lia|].
    eexists. split; [reflexivity|]. simpl cond_Zopp. rewrite Hm.
    apply scaled_back. lia.
  - destruct (binary_round_small true p) as (m & e & -> & He & Hm); [lia|].
    eexists. split; [reflexivity|]. simpl cond_Zopp.
    rewrite Hm. replace (- (Z.pos p * 2 ^ (- e))) with (Z.neg p * 2 ^ (- e)) by lia.
    apply scaled_back. lia.
Qed.

Lemma floor_scaled_spec z e : floor_scaled z e = Qfloor (inject_Z z * Qpower 2 e).
Proof.
  unfold floor_scaled. destruct (0 <=? e) eqn:He.
  - apply Z.leb_le in He.
    rewrite <- (Qfloor_Z (z * 2 ^ e)). apply Qfloor_comp.
    rewrite inject_Z_mult, (Zpower_Qpower 2 e) by done. reflexivity.
  - apply Z.leb_gt in He.
    assert (0 < 2 ^ (- e)) as Hpos by (apply Z.pow_pos_nonneg; lia).
    destruct (2 ^ (- e)) as [|d|d] eqn:Hd; [lia| |lia].
    change (z / Zpos d) with (Qfloor (z # d)). apply Qfloor_comp.
    rewrite (Qmake_Qdiv z d). unfold Qdiv. apply Qmult_comp; [reflexivity|].
    rewrite <- Hd. replace e with (- (- e)) at 2 by lia.
    rewrite Qpower_opp, <- (Zpower_Qpower 2 (- e)) by lia. reflexivity.
Qed.

(** The value of [Math.floor(x)] is the floor of the value of [x]. *)
Lemma Math_floor_value (x : number) (v : Q) :
  number_value x = Some v → Z.abs (Qfloor v) < 2 ^ 53 →
  ∃ v', number_value (Math_floor x) = Some v' ∧ (v' == inject_Z (Qfloor v))%Q.
Proof.
  destruct x as [s|s| |s m e]; simpl; try done.
  - intros [= <-] _. exists 0%Q. done.
  - intros [= <-] Hb. rewrite <- floor_scaled_spec in *.
    destruct (0 <=? e) eqn:He.
    + eexists. split; [reflexivity|].
      unfold floor_scaled. rewrite He. apply Z.leb_le in He.
      rewrite inject_Z_mult, (Zpower_Qpower 2 e) by done. reflexivity.
    + by apply Number_of_Z_value.
Qed.

(** C9, as the code has it.  [setSize] gives the depth pass and the mask
    target the same size: [Math.floor] of the binary64 products
    [width * scale] and [height * scale].  When such a product is finite
    (and its floor below 2^53 in magnitude, as every size in pixels is),
    the dimension is the integer floor of the product as computed: it is
    the rounded product or one less, and it is at least 1 exactly when the
    product is, so that it can be 0. *)
Theorem setSize_floors (width height : number) (m : OutlineManager.t) (pw ph : Q) :
  number_value (Number_mul width (resolutionScale m)) = Some pw →
  number_value (Number_mul height (resolutionScale m)) = Some ph →
  Z.abs (Qfloor pw) < 2 ^ 53 → Z.abs (Qfloor ph) < 2 ^ 53 →
  let m' := setSize width height m in
  depthPassSize m' = maskSize m'
  ∧ (∃ w h, number_value (fst (maskSize m')) = Some w
            ∧ number_value (snd (maskSize m')) = Some h
            ∧ (w == inject_Z (Qfloor pw))%Q ∧ (h == inject_Z (Qfloor ph))%Q)
  ∧ spec_round pw - 1 ≤ Qfloor pw ≤ spec_round pw
  ∧ spec_round ph - 1 ≤ Qfloor ph ≤ spec_round ph
  ∧ (1 ≤ Qfloor pw ↔ (1 <= pw)%Q)
  ∧ (1 ≤ Qfloor ph ↔ (1 <= ph)%Q).
Proof.
  intros Hpw Hph Hbw Hbh m'.
  destruct (Math_floor_value _ _ Hpw Hbw) as (w & Hw & Ew).
  destruct (Math_floor_value _ _ Hph Hbh) as (h & Hh & Eh).
  split; [reflexivity|]. split; [by exists w, h|].
  split; [apply floor_spec_round|]. split; [apply floor_spec_round|].
  split; apply Qfloor_ge_iff.
Qed.

(** A 1440 x 1080 frame at scale 0.7.  The width is 1007, not 1008: the
    product as computed lies just below 1008. *)
Lemma setSize_floors_witness :
  let scale := Number_div (Number_of_Z 7) (Number_of_Z 10) in
  let m := mk ∅ 10 None true scale (px 1 1) (px 1 1) in
  let m' := setSize (Number_of_Z 1440) (Number_of_Z 1080) m in
  maskSize m' = px 1007 756
  ∧ depthPassSize m' = maskSize m'
  ∧ ∃ w h, number_value (fst (maskSize m')) = Some w
           ∧ number_value (snd (maskSize m')) = Some h
           ∧ (w == 1007)%Q ∧ (h == 756)%Q.
Proof.
  intros scale m m'. split; [vm_compute; reflexivity|].
  edestruct (setSize_floors (Number_of_Z 1440) (Number_of_Z 1080) m)
    as (H1 & (w & h & Hw & Hh & Ew & Eh) & _).
  - vm_compute. reflexivity.
  - vm_compute. reflexivity.
  - vm_compute. reflexivity.
  - vm_compute. reflexivity.
  - split; [exact H1|]. exists w, h. split_and!; [exact Hw|exact Hh| |].
    + rewrite Ew. vm_compute. reflexivity.
    + rewrite Eh. vm_compute. reflexivity.
Defined.

(** At scale 0.5 a 3 x 1 base size gives a 1 x 0 target.  The products
    1.5 and 0.5 are computed exactly; the width is not the rounded product
    2, and the height is neither the rounded product 1 nor at least 1. *)
Lemma setSize_is_not_round :
  let half := Number_div (Number_of_Z 1) (Number_of_Z 2) in
  let m := mk ∅ 10 None true half (px 1 1) (px 1 1) in
  let m' := setSize (Number_of_Z 3) (Number_of_Z 1) m in
  Qred <$> number_value (Number_mul (Number_of_Z 3) half) = Some (3 # 2)
  ∧ Qred <$> number_value (Number_mul (Number_of_Z 1) half) = Some (1 # 2)
  ∧ maskSize m' = px 1 0
  ∧ Qred <$> number_value (fst (maskSize m')) = Some 1%Q
  ∧ Qred <$> number_value (snd (maskSize m')) = Some 0%Q
  ∧ (spec_round (3 # 2), spec_round (1 # 2)) = (2, 1).
Proof. vm_compute. split_and!; reflexivity. Qed.

(** *** update *)

Ltac run_update :=
  unfold update, depthPass_render, maskPass_render, setVisibleAll, on_world, on_mgr;
  unfold_js; simpl; repeat (case_step; simpl).

Lemma update_idle env m w :
  idle m = true → update env (mkSt m w) = (Normal false, mkSt m w).
Proof. unfold idle, update. unfold_js. simpl. by intros ->. Qed.

(** What one call that gets past the guard adds to the log, and what it
    leaves in the dedup token. *)
Lemma update_events env m w :
  idle m = false →
  let r := update env (mkSt m w) in
  let due := depthDue (now env) (lastDepthPassTime w) in
  ∃ evs,
    trace (world (snd r)) = trace w ++ evs
    ∧ count is_depth evs = (if due then 1 else 0)%nat
    ∧ count is_mask evs = (if due && depthThrows env then 0 else 1)%nat
    ∧ lastDepthPassTime (world (snd r)) =
        (if due && negb (depthThrows env) then Some (now env) else lastDepthPassTime w).
Proof.
  unfold idle. intros Hidle. run_update; try congruence.
  all: rewrite <- ?app_assoc; eexists; split; [reflexivity|]; done.
Qed.

(** [update] never calls [clearUnused] and leaves the statics of the
    consumers alone. *)
Lemma update_statics env st :
  let r := update env st in
  ∃ evs,
    trace (world (snd r)) = trace (world st) ++ evs
    ∧ count is_clearUnused evs = 0%nat
    ∧ updateCounter (world (snd r)) = updateCounter (world st)
    ∧ activeObjects (world (snd r)) = activeObjects (world st).
Proof.
  destruct st as [m w]. run_update.
  all: rewrite <- ?app_assoc; try (exists []; by rewrite app_nil_r).
  all: eexists; split; [reflexivity|]; done.
Qed.

(** C4, as the code has it.  When [update] returns to its caller, whether
    it did nothing or rendered, the scene background and the camera's layer
    mask are what they were at entry. *)
Theorem update_restores_on_return (env : Env) (st st' : St) (updated : bool) :
  update env st = (Normal updated, st') →
  background (world st') = background (world st)
  ∧ cameraMask (world st') = cameraMask (world st).
Proof.
  destruct st as [m w]. run_update; intros [= <- <-]; done.
Qed.

(** A manager with one object on layer 10, a scene with a background and a
    camera that sees layer 0. *)
Lemma update_restores_on_return_witness :
  let w := mkWorld None None None Undefined (Some 7%nat) 1 [] in
  let m := mk {[ 10 := {[ 1%nat ]} ]} 10 (Some 10) true (Number_of_Z 1) (px 1 1) (px 1 1) in
  let env := mkEnv 1000 false false false false in
  fst (update env (mkSt m w)) = Normal true
  ∧ background (world (snd (update env (mkSt m w)))) = Some 7%nat
  ∧ cameraMask (world (snd (update env (mkSt m w)))) = 1.
Proof.
  intros w m env. split; [vm_compute; reflexivity|].
  apply (update_restores_on_return env (mkSt m w) (snd (update env (mkSt m w))) true).
  vm_compute. reflexivity.
Defined.

(** When the depth render raises, [update] ends with the background still
    nulled; when the mask render raises, it ends with the camera still
    narrowed to the layer. *)
Lemma update_leaks_on_throw :
  let w := mkWorld None None None Undefined (Some 7%nat) 1 [] in
  let m := mk {[ 10 := {[ 1%nat ]} ]} 10 (Some 10) true (Number_of_Z 1) (px 1 1) (px 1 1) in
  (let r := update (mkEnv 1000 true false false false) (mkSt m w) in
   fst r = Thrown
   ∧ background (world (snd r)) = None ∧ background w = Some 7%nat)
  ∧ (let r := update (mkEnv 1000 false true false false) (mkSt m w) in
     fst r = Thrown
     ∧ cameraMask (world (snd r)) = 1024 ∧ cameraMask w = 1).
Proof. vm_compute. done. Qed.

(** What an exception leaves behind.  Only the two renders can end [update]
    early.  After a failed depth render the scene has no background; after a
    failed mask render the camera is still narrowed to the layer that was
    being drawn. *)
Lemma update_on_throw (env : Env) (st st' : St) :
  update env st = (Thrown, st') →
  (depthDue (now env) (lastDepthPassTime (world st)) = true
   ∧ depthThrows env = true
   ∧ background (world st') = None
   ∧ cameraMask (world st') = cameraMask (world st))
  ∨ (maskThrows env = true
     ∧ background (world st') = background (world st)
     ∧ ∃ layer, cameraMask (world st') = layers_set layer).
Proof.
  destruct st as [m w]. run_update; intros [= <-]; simpl.
  all: first [ left; split_and!; done | right; split_and!; [done|done|by eexists] ].
Qed.

(** *** The dedup window *)

Lemma depthDue_fresh now t : t ≠ 0 → now - t ≤ 16 → depthDue now (Some t) = false.
Proof.
  intros Ht Hd. unfold depthDue.
  apply orb_false_iff. split; [by apply Z.eqb_neq | by apply Z.ltb_ge].
Qed.


Lemma frame_call_summary call w :
  let w' := frame_call call w in
  let due := depthDue (now (snd call)) (lastDepthPassTime w) in
  ∃ evs,
    trace w' = trace w ++ evs
    ∧ ((count is_depth evs = 0%nat ∧ lastDepthPassTime w' = lastDepthPassTime w)
       ∨ (count is_depth evs = 1%nat ∧ due = true
          ∧ lastDepthPassTime w' =
              if depthThrows (snd call) then lastDepthPassTime w
              else Some (now (snd call)))).
Proof.
  unfold frame_call. destruct call as [m env]. simpl.
  destruct (idle m) eqn:Hidle.
  - rewrite update_idle by done. simpl.
    exists []. rewrite app_nil_r. auto.
  - destruct (update_events env m w Hidle) as (evs & Htr & Hd & _ & Htok).
    exists evs. split; [done|].
    destruct (depthDue (now env) (lastDepthPassTime w)); simpl in *.
    + right. split_and!; [done|done|]. rewrite Htok. by destruct (depthThrows _).
    + left. done.
Qed.

(** Once the token is stamped, no call inside its window renders depth. *)
Lemma run_frame_quiet calls : ∀ w t,
  lastDepthPassTime w = Some t → t ≠ 0 →
  (∀ c, c ∈ calls → now (snd c) - t ≤ 16) →
  ∃ evs,
    trace (run_frame calls w) = trace w ++ evs
    ∧ count is_depth evs = 0%nat.
Proof.
  induction calls as [|c calls IH]; intros w t Htok Ht Hwin; simpl.
  - exists []. by rewrite app_nil_r.
  - destruct (frame_call_summary c w) as (evs & Htr & Hcase). simpl in Hcase.
    rewrite Htok in Hcase.
    rewrite depthDue_fresh in Hcase by (try done; apply Hwin; left).
    destruct Hcase as [[Hc Htok']|(_ & ? & _)]; [|done].
    destruct (IH (frame_call c w) t) as (evs' & Htr' & Hc'); [done|done| |].
    { intros c' Hc'. apply Hwin. by right. }
    exists (evs ++ evs'). unfold run_frame in *. rewrite Htr', Htr, app_assoc.
    split; [done|]. rewrite count_app. lia.
Qed.

Lemma run_frame_at_most_once calls : ∀ w,
  (∀ c, c ∈ calls → now (snd c) ≠ 0 ∧ depthThrows (snd c) = false) →
  (∀ c c', c ∈ calls → c' ∈ calls → now (snd c') - now (snd c) ≤ 16) →
  ∃ evs,
    trace (run_frame calls w) = trace w ++ evs
    ∧ (count is_depth evs ≤ 1)%nat.
Proof.
  induction calls as [|c calls IH]; intros w Hok Hwin; simpl.
  - exists []. rewrite app_nil_r. split; [done|]. unfold count. simpl. lia.
  - destruct (frame_call_summary c w) as (evs & Htr & Hcase). simpl in Hcase.
    destruct Hcase as [[Hc Htok']|(Hc & _ & Htok')].
    + destruct (IH (frame_call c w)) as (evs' & Htr' & Hc').
      { intros c' Hc'. apply Hok. by right. }
      { intros c1 c2 H1 H2. apply Hwin; by right. }
      exists (evs ++ evs'). unfold run_frame in *. rewrite Htr', Htr, app_assoc.
      split; [done|]. rewrite count_app. lia.
    + destruct (Hok c) as [Hnz Hnt]; [left|]. rewrite Hnt in Htok'.
      destruct (run_frame_quiet calls (frame_call c w) (now (snd c)))
        as (evs' & Htr' & Hc'); [done|done| |].
      { intros c' Hc'. apply Hwin; [left | by right]. }
      exists (evs ++ evs'). unfold run_frame in *. rewrite Htr', Htr, app_assoc.
      split; [done|]. rewrite count_app. lia.
Qed.

(** C1, as the code has it.  Take any calls of [update], on any managers,
    whose clock readings are real timestamps (not 0) at most 16 ms apart
    from one another, and in which the depth render does not raise: the
    depth render is executed at most once among them.  And a call whose
    clock reading is at most 16 ms after a stamped token does not render
    depth, while its mask render still runs whenever the call gets past the
    guard. *)
Theorem depth_render_once_per_window (calls : list (OutlineManager.t * Env))
  (w : World) (env : Env) (m : OutlineManager.t) (w1 : World) (t : Z) :
  (∀ c, c ∈ calls → now (snd c) ≠ 0 ∧ depthThrows (snd c) = false) →
  (∀ c c', c ∈ calls → c' ∈ calls → now (snd c') - now (snd c) ≤ 16) →
  lastDepthPassTime w1 = Some t → t ≠ 0 → now env - t ≤ 16 →
  (count is_depth (new_events w (run_frame calls w)) ≤ 1)%nat
  ∧ count is_depth (new_events w1 (world (snd (update env (mkSt m w1))))) = 0%nat
  ∧ (idle m = false →
     count is_mask (new_events w1 (world (snd (update env (mkSt m w1))))) = 1%nat).
Proof.
  intros Hok Hwin Htok Ht Hnow. split_and!.
  - destruct (run_frame_at_most_once calls w Hok Hwin) as (evs & Htr & Hc).
    by rewrite (new_events_app _ _ _ Htr).
  - destruct (idle m) eqn:Hidle.
    + rewrite update_idle by done. simpl. unfold new_events. by rewrite drop_all.
    + destruct (update_events env m w1 Hidle) as (evs & Htr & Hc & _).
      rewrite (new_events_app _ _ _ Htr), Hc, Htok, depthDue_fresh; done.
  - intros Hidle.
    destruct (update_events env m w1 Hidle) as (evs & Htr & _ & Hc & _).
    rewrite (new_events_app _ _ _ Htr), Hc, Htok, depthDue_fresh; done.
Qed.

(** Two consumers' calls 5 ms apart, and a third call 10 ms after the
    token was stamped. *)
Lemma depth_render_once_per_window_witness :
  let m := mk {[ 10 := {[ 1%nat ]} ; 11 := {[ 2%nat ]} ]} 10 (Some 10) true (Number_of_Z 1) (px 1 1) (px 1 1) in
  let w := mkWorld None None None Undefined (Some 7%nat) 1 [] in
  let calls := [(m, mkEnv 1000 false false false false);
                (set_currentLayer (Some 11) m, mkEnv 1005 false false false false)] in
  let w1 := run_frame calls w in
  let env := mkEnv 1010 false false false false in
  count is_depth (new_events w (run_frame calls w)) = 1%nat
  ∧ (count is_depth (new_events w (run_frame calls w)) ≤ 1)%nat
  ∧ count is_depth (new_events w1 (world (snd (update env (mkSt m w1))))) = 0%nat
  ∧ (idle m = false →
     count is_mask (new_events w1 (world (snd (update env (mkSt m w1))))) = 1%nat).
Proof.
  intros m w calls w1 env. split; [vm_compute; reflexivity|].
  apply (depth_render_once_per_window calls w env m w1 1000).
  - intros c Hc. repeat (apply elem_of_cons in Hc as [->|Hc]); simpl;
      [split; [lia|reflexivity]..|by apply elem_of_nil in Hc].
  - intros c c' Hc Hc'.
    repeat (apply elem_of_cons in Hc as [->|Hc]);
      repeat (apply elem_of_cons in Hc' as [->|Hc']); simpl; try lia;
      by (apply elem_of_nil in Hc || apply elem_of_nil in Hc').
  - vm_compute. reflexivity.
  - lia.
  - simpl. lia.
Defined.




End ManagerFacts.

(** ** SharedOutlineEffect *)

Module EffectFacts.

Import OutlineManager.

(** What one consumer update does about the cleanup, by the value of the
    shared counter after its increment. *)
Lemma effect_update_cleanup env e m w :
  let r := SharedOutlineEffect.update env e (mkSt m w) in
  let counter := Z.succ (default 0 (updateCounter w)) in
  let accumulated := SharedOutlineEffect.selection e ∪ default ∅ (activeObjects w) in
  ∃ evs,
    trace (world (snd r)) = trace w ++ evs
    ∧ (counter ≠ 2 ∨ fst r = Thrown →
         count is_clearUnused evs = 0%nat
         ∧ updateCounter (world (snd r)) = Some counter)
    ∧ (counter = 2 → fst r = Normal tt →
         ∃ pre,
           evs = pre ++ [EvClearUnused accumulated (SharedOutlineEffect._selectionLayer e)]
           ∧ count is_clearUnused pre = 0%nat
           ∧ updateCounter (world (snd r)) = Some 0
           ∧ activeObjects (world (snd r)) = Some ∅).
Proof.
  destruct w as [tok act cnt scl bg cm tr].
  unfold SharedOutlineEffect.update, SharedOutlineEffect.outlinePass_render,
    SharedOutlineEffect.blurPass_render, call_clearUnused, on_world, on_mgr.
  unfold_js.
  destruct cnt as [c|], act as [a|], scl as [| |l]; simpl.
  all: destruct (bool_decide (SharedOutlineEffect.selection e ≠ ∅)) eqn:Hsel; simpl.
  all: try match goal with
       | |- context [update ?ev ?s] =>
           destruct (ManagerFacts.update_statics ev s) as (evu & Htr & Hcl & Hcnt & Hact);
           destruct (update ev s) as [[b|] [m' w']]; simpl in *
       end.
  all: repeat (case_step; simpl).
  all: decide_hyps.
  all: try (apply dec_stable in Hsel; rewrite Hsel; rewrite ?(left_id_L ∅ (∪))).
  all: rewrite ?Htr, ?Hact, ?Hcnt; simpl; rewrite <- ?app_assoc.
  all: first [ exists []; split; [by rewrite app_nil_r|]
             | eexists; split; [reflexivity|] ].
  all: (split; [intros [Hne|Hthrown]; try congruence | intros Htwo Hret; try congruence]).
  all: rewrite ?count_app, ?Hcl; try done.
  all: first [ exists []; split; [reflexivity|done]
             | rewrite !app_assoc; eexists; split; [reflexivity|];
               rewrite ?count_app, ?Hcl; done ].
Qed.

(** C8.  Every consumer update increments the one counter of the class.
    The update in which the counter reaches 2, and only that one, calls
    [clearUnused] - once, as its last step, provided the update gets that
    far - with the active objects accumulated so far and the consumer's own
    layer as the excepted one; it then leaves the counter at 0 and the set
    of active objects empty.  Every other update leaves the incremented
    counter in place. *)
Theorem cleanup_when_counter_is_two (env : Env) (e : SharedOutlineEffect.t)
  (m : OutlineManager.t) (w : World) :
  let r := SharedOutlineEffect.update env e (mkSt m w) in
  let counter := Z.succ (default 0 (updateCounter w)) in
  let accumulated := SharedOutlineEffect.selection e ∪ default ∅ (activeObjects w) in
  let evs := new_events w (world (snd r)) in
  let cleans := bool_decide (counter = 2) && returned (fst r) in
  count is_clearUnused evs = (if cleans then 1 else 0)%nat
  ∧ (if cleans
     then last evs = Some (EvClearUnused accumulated (SharedOutlineEffect._selectionLayer e))
          ∧ updateCounter (world (snd r)) = Some 0
          ∧ activeObjects (world (snd r)) = Some ∅
     else updateCounter (world (snd r)) = Some counter).
Proof.
  intros r counter accumulated evs cleans.
  destruct (effect_update_cleanup env e m w) as (evs' & Htr & Hno & Hyes).
  fold r counter accumulated in Htr, Hno, Hyes.
  assert (evs = evs') as -> by (apply new_events_app, Htr).
  subst cleans. destruct (bool_decide (counter = 2)) eqn:Hc; decide_hyps; simpl.
  - destruct (fst r) as [[]|] eqn:Hr; simpl.
    + destruct (Hyes Hc eq_refl) as (pre & -> & Hpre & Hcnt & Hact).
      rewrite count_app, Hpre, last_snoc. done.
    + destruct Hno as [? ?]; [by right|]. done.
  - destruct Hno as [? ?]; [by left|]. done.
Qed.

(** Two consumers on one manager in one frame, the second called 20 ms
    after the first: both calls render depth. *)
Lemma depth_render_twice_in_one_frame :
  let w := mkWorld None None None Undefined (Some 7%nat) 1 [] in
  let m := mk {[ 10 := ∅ ]} 10 None true (Number_of_Z 1) (px 1 1) (px 1 1) in
  let a := SharedOutlineEffect.mk {[ 1%nat ]} 10 false in
  let b := SharedOutlineEffect.mk {[ 2%nat ]} 11 false in
  let s1 := snd (SharedOutlineEffect.update (mkEnv 1000 false false false false) a (mkSt m w)) in
  let s2 := snd (SharedOutlineEffect.update (mkEnv 1020 false false false false) b s1) in
  count is_depth (new_events w (world s2)) = 2%nat.
Proof. vm_compute. reflexivity. Qed.

(** The update in which the counter reaches 2, with the blur render
    raising: [clearUnused] is not called, and the counter stays at 2. *)
Lemma no_cleanup_when_a_render_raises :
  let w := mkWorld None (Some {[ 1%nat ]}) (Some 1) Undefined (Some 7%nat) 1 [] in
  let m := mk {[ 10 := {[ 1%nat ]} ]} 10 None false (Number_of_Z 1) (px 1 1) (px 1 1) in
  let e := SharedOutlineEffect.mk {[ 2%nat ]} 11 true in
  let r := SharedOutlineEffect.update (mkEnv 1000 false false false true) e (mkSt m w) in
  Z.succ (default 0 (updateCounter w)) = 2
  ∧ fst r = Thrown
  ∧ count is_clearUnused (new_events w (world (snd r))) = 0%nat
  ∧ updateCounter (world (snd r)) = Some 2.
Proof. vm_compute. split_and!; reflexivity. Qed.

End EffectFacts.

(** ** EffectComposer *)

Module ComposerFacts.

Import Composer.

(** *** render *)


Lemma render_step_spec throws skip dpi i id loc s pass :
  heap s !! id = Some pass →
  ∃ loc' s' cs,
    render_step throws skip dpi i id loc s = (Normal loc', s')
    ∧ heap s' = heap s ∧ _useMRT s' = _useMRT s
    ∧ calls s' = calls s ++ cs
    ∧ ((renders s skip dpi i id = false ∧ cs = []
        ∧ l_input loc' = l_input loc ∧ l_output loc' = l_output loc)
       ∨ (renders s skip dpi i id = true
          ∧ (∃ c, cs = [c] ∧ rc_index c = i ∧ rc_pass c = id
                  ∧ rc_input c = l_input loc ∧ rc_output c = l_output loc)
          ∧ l_input loc' = (if needsSwap pass then l_output loc else l_input loc)
          ∧ l_output loc' = (if needsSwap pass then l_input loc else l_output loc))).
Proof.
  intros Hp. unfold render_step, renders, the_pass, pass_render, _updateSharedDepthPass, the_pass.
  unfold_js. rewrite Hp. simpl.
  destruct (enabled pass); simpl; [|by exists loc, s, []; rewrite app_nil_r; auto 10].
  destruct (skip && bool_decide (dpi = Some i)); simpl;
    [by exists loc, s, []; rewrite app_nil_r; auto 10|].
  destruct (bool_decide (cls pass = MRTRenderPass)) eqn:Hmrt; simpl.
  - destruct (_useMRT s) eqn:Hu; simpl;
      [|by exists loc, s, []; rewrite app_nil_r; auto 10].
    repeat (case_step; simpl).
    all: do 3 eexists; split; [reflexivity|]; simpl.
    all: split_and!; try done; right; split_and!; try done.
    all: eexists; split_and!; done.
  - repeat (case_step; simpl).
    all: do 3 eexists; split; [reflexivity|]; simpl.
    all: split_and!; try done; right; split_and!; try done.
    all: eexists; split_and!; done.
Qed.

Lemma chained_heap_eq h h' a b cs : h = h' → chained h a b cs → chained h' a b cs.
Proof. by intros ->. Qed.

Lemma render_loop_spec throws skip dpi ids : ∀ i loc s,
  (∀ id, id ∈ ids → is_Some (heap s !! id)) →
  ∃ loc' s' cs,
    render_loop throws skip dpi i ids loc s = (Normal loc', s')
    ∧ heap s' = heap s ∧ _useMRT s' = _useMRT s
    ∧ calls s' = calls s ++ cs
    ∧ map (λ c, (rc_index c, rc_pass c)) cs = expected_calls s skip dpi i ids
    ∧ chained (heap s) (l_input loc) (l_output loc) cs.
Proof.
  induction ids as [|id rest IH]; intros i loc s Hheap; simpl.
  - exists loc, s, []. unfold ret. rewrite app_nil_r. done.
  - destruct (Hheap id) as [pass Hp]; [left|].
    destruct (render_step_spec throws skip dpi i id loc s pass Hp)
      as (loc1 & s1 & cs1 & Hstep & Hh1 & Hu1 & Hc1 & Hcase).
    destruct (IH (S i) loc1 s1) as (loc2 & s2 & cs2 & Hloop & Hh2 & Hu2 & Hc2 & Hexp & Hch).
    { intros id' Hid'. rewrite Hh1. apply Hheap. by right. }
    exists loc2, s2, (cs1 ++ cs2).
    unfold bind. rewrite Hstep, Hloop.
    split_and!; [done|congruence|congruence|by rewrite Hc2, Hc1, app_assoc| |].
    + rewrite map_app, Hexp.
      assert (expected_calls s1 skip dpi (S i) rest = expected_calls s skip dpi (S i) rest) as ->.
      { clear -Hh1 Hu1. generalize (S i). induction rest as [|x rest IHr]; intros k; simpl; [done|].
        rewrite IHr. unfold renders. by rewrite Hh1, Hu1. }
      f_equal.
      destruct Hcase as [(-> & -> & _)|(-> & (c & -> & <- & <- & _) & _)]; done.
    + rewrite Hh1 in Hch.
      destruct Hcase as [(_ & -> & Hi & Ho)|(_ & (c & -> & _ & Hid & Hi & Ho) & Hi' & Ho')]; simpl.
      * by rewrite <- Hi, <- Ho.
      * split_and!; [done|done|]. exists pass. rewrite Hid. split; [done|].
        by rewrite <- Hi', <- Ho'.
Qed.


Lemma chained_adjacent h cs : ∀ a b k c1 c2 p1,
  chained h a b cs → cs !! k = Some c1 → cs !! S k = Some c2 →
  h !! rc_pass c1 = Some p1 →
  if needsSwap p1
  then rc_input c2 = rc_output c1 ∧ rc_output c2 = rc_input c1
  else rc_input c2 = rc_input c1 ∧ rc_output c2 = rc_output c1.
Proof.
  induction cs as [|c cs IH]; intros a b k c1 c2 p1 Hch H1 H2 Hp; [done|].
  destruct Hch as (Hi & Ho & p & Hp' & Hrest).
  destruct k as [|k]; simpl in *.
  - injection H1 as ->. rewrite Hp in Hp'. injection Hp' as <-.
    destruct cs as [|c' cs']; [done|]. injection H2 as ->.
    destruct Hrest as (Hi' & Ho' & _). rewrite Hi', Ho', Hi, Ho.
    by destruct (needsSwap p1).
  - eapply IH; eauto.
Qed.

Lemma render_spec throws s :
  (∀ id, id ∈ passes s → is_Some (heap s !! id)) →
  fst (render throws s) = Normal tt
  ∧ map (λ c, (rc_index c, rc_pass c)) (new_calls s (snd (render throws s)))
    = render_plan s
  ∧ chained (heap s) (inputBuffer s) (outputBuffer s)
      (new_calls s (snd (render throws s))).
Proof.
  intros Hheap. unfold render, render_plan, new_calls. unfold_js.
  destruct (renderer s) eqn:Hr; simpl.
  - destruct (render_loop_spec throws (skipDepthPass s) (find_depthPassIndex s)
                (passes s) 0
                (mkLocals (inputBuffer s) (outputBuffer s) (_sharedDepthPass s)
                   (validSharedDepth s)) s Hheap)
      as (loc' & s' & cs & Hloop & _ & _ & Hc & Hexp & Hch).
    rewrite Hloop. simpl. rewrite Hc, drop_app_length. done.
  - rewrite drop_all. done.
Qed.

(** C3.  Whatever passes raise during [render], [render] itself returns
    normally, and the passes that were drawn are the planned ones - every
    enabled pass that is not passed over - in list order: a failing pass
    does not keep the later ones from being rendered. *)
Theorem render_catches_pass_failures (throws : nat → bool) (s : St) :
  (∀ id, id ∈ passes s → is_Some (heap s !! id)) →
  fst (render throws s) = Normal tt
  ∧ map (λ c, (rc_index c, rc_pass c)) (new_calls s (snd (render throws s)))
    = render_plan s.
Proof. intros H. destruct (render_spec throws s H) as (? & ? & _). done. Qed.

(** Three passes, of which the first raises. *)
Lemma render_catches_pass_failures_witness :
  let s := set_passes [0; 1; 2]%nat (sample_composer false) in
  let throws := λ i, Nat.eqb i 0 in
  (∀ id, id ∈ passes s → is_Some (heap s !! id))
  ∧ fst (render throws s) = Normal tt
  ∧ map (λ c, (rc_index c, rc_pass c)) (new_calls s (snd (render throws s)))
    = [(0, 0); (1, 1); (2, 2)]%nat.
Proof.
  intros s throws.
  assert (∀ id, id ∈ passes s → is_Some (heap s !! id)) as Hheap.
  { intros id Hid. change (passes s) with [0; 1; 2]%nat in Hid.
    repeat (apply elem_of_cons in Hid as [->|Hid]);
      [vm_compute; eexists; reflexivity..|by apply elem_of_nil in Hid]. }
  split; [exact Hheap|].
  destruct (render_catches_pass_failures throws s Hheap) as [H1 H2].
  split; [exact H1|]. rewrite H2. vm_compute. reflexivity.
Defined.

(** C2.  Of two consecutive render calls of one frame, the later is handed
    the earlier one's output buffer as its input (and its input buffer as
    its output) when the earlier pass has [needsSwap], and the very same
    pair when it has not.  In a list where every pass has [needsSwap] the
    input of each drawn pass is therefore the output of the one before. *)
Theorem render_ping_pong (throws : nat → bool) (s : St) (k : nat)
  (c1 c2 : RenderCall) (p1 : Pass) :
  (∀ id, id ∈ passes s → is_Some (heap s !! id)) →
  new_calls s (snd (render throws s)) !! k = Some c1 →
  new_calls s (snd (render throws s)) !! S k = Some c2 →
  heap s !! rc_pass c1 = Some p1 →
  if needsSwap p1
  then rc_input c2 = rc_output c1 ∧ rc_output c2 = rc_input c1
  else rc_input c2 = rc_input c1 ∧ rc_output c2 = rc_output c1.
Proof.
  intros H H1 H2 Hp. destruct (render_spec throws s H) as (_ & _ & Hch).
  eapply chained_adjacent; eauto.
Qed.

(** The first two of three swapping passes. *)
Lemma render_ping_pong_witness :
  let s := set_passes [0; 1; 2]%nat (sample_composer false) in
  let throws := λ _ : nat, false in
  let c1 := mkCall 0 0 0 1 Undefined None in
  let c2 := mkCall 1 1 1 0 Undefined None in
  new_calls s (snd (render throws s)) !! 0%nat = Some c1
  ∧ new_calls s (snd (render throws s)) !! 1%nat = Some c2
  ∧ rc_input c2 = rc_output c1 ∧ rc_output c2 = rc_input c1.
Proof.
  intros s throws c1 c2.
  split; [vm_compute; reflexivity|]. split; [vm_compute; reflexivity|].
  apply (render_ping_pong throws s 0 c1 c2 (sample_pass RenderPass false)).
  - intros id Hid. change (passes s) with [0; 1; 2]%nat in Hid.
    repeat (apply elem_of_cons in Hid as [->|Hid]);
      [vm_compute; eexists; reflexivity..|by apply elem_of_nil in Hid].
  - vm_compute. reflexivity.
  - vm_compute. reflexivity.
  - vm_compute. reflexivity.
Defined.

(** *** addPass, removePass and the shared depth texture *)


Lemma needs_alter f i h j :
  (∀ p, needsDepthTexture (f p) = needsDepthTexture p) →
  needs (alter f i h) j = needs h j.
Proof.
  intros Hf. unfold needs. rewrite lookup_alter. case_decide; [subst|done].
  destruct (h !! j); simpl; [apply Hf|done].
Qed.

Lemma holds_alter f i h j :
  (∀ p, depthTextureSet (f p) = depthTextureSet p) →
  holds (alter f i h) j = holds h j.
Proof.
  intros Hf. unfold holds. rewrite lookup_alter. case_decide; [subst|done].
  destruct (h !! j); simpl; [apply Hf|done].
Qed.

Lemma is_Some_alter f i (h : gmap nat Pass) j :
  is_Some (alter f i h !! j) ↔ is_Some (h !! j).
Proof.
  rewrite lookup_alter. case_decide; [subst|done]. by rewrite fmap_is_Some.
Qed.

Lemma contract_alter f i (h : gmap nat Pass) j :
  (∀ p, contract (f p) = contract p) →
  contract <$> alter f i h !! j = contract <$> h !! j.
Proof.
  intros Hf. rewrite lookup_alter. case_decide; [subst|done].
  destruct (h !! j); simpl; [by rewrite Hf|done].
Qed.

Lemma contract_setDepthTextureOn t ids h j :
  contract <$> setDepthTextureOn t ids h !! j = contract <$> h !! j.
Proof.
  induction ids as [|i ids IH]; simpl; [done|]. by rewrite contract_alter.
Qed.

Lemma holds_setDepthTexture t i h j :
  holds (alter (setDepthTexture t) i h) j =
  if decide (i = j) then (if h !! j is Some _ then t else None) else holds h j.
Proof.
  unfold holds. rewrite lookup_alter. case_decide; [subst|done].
  by destruct (h !! j).
Qed.


Lemma needs_setDepthTextureOn t ids h j : needs (setDepthTextureOn t ids h) j = needs h j.
Proof.
  induction ids as [|i ids IH]; simpl; [done|].
  by rewrite needs_alter.
Qed.

Lemma is_Some_setDepthTextureOn t ids h j : is_Some (setDepthTextureOn t ids h !! j) ↔ is_Some (h !! j).
Proof.
  induction ids as [|i ids IH]; simpl; [done|]. by rewrite is_Some_alter.
Qed.

Lemma holds_setDepthTextureOn t ids h j :
  j ∈ ids → is_Some (h !! j) → holds (setDepthTextureOn t ids h) j = t.
Proof.
  intros Hj Hs. induction ids as [|i ids IH]; [by apply elem_of_nil in Hj|].
  simpl. rewrite holds_setDepthTexture. case_decide.
  - subst. apply (is_Some_setDepthTextureOn t ids) in Hs. destruct Hs as [? ->]. done.
  - apply IH. apply elem_of_cons in Hj as [?|?]; [congruence|done].
Qed.

Lemma depthTextureRequired_spec s :
  depthTextureRequired s = true ↔ ∃ id, id ∈ passes s ∧ needs (heap s) id = true.
Proof.
  unfold depthTextureRequired.
  assert (∀ l a, fold_left (λ a b, a || match heap s !! b with
                    | Some p => needsDepthTexture p | None => false end) l a = true
                 ↔ a = true ∨ ∃ id, id ∈ l ∧ needs (heap s) id = true) as H.
  { induction l as [|x l IH]; intros a; simpl.
    - split; [auto|]. intros [?|(? & []%elem_of_nil & _)]; done.
    - rewrite IH. unfold needs at 2. rewrite orb_true_iff.
      split.
      + intros [[?|?]|(id & ? & ?)]; eauto.
        * right. exists x. split; [left|]. done.
        * right. exists id. split; [by right|done].
      + intros [?|(id & [->|?]%elem_of_cons & ?)]; eauto. }
  rewrite H. split; [intros [?|?]; done | auto].
Qed.


Ltac heap_simpl :=
  repeat first
    [ rewrite needs_alter by done
    | rewrite holds_alter by done
    | rewrite is_Some_alter
    | rewrite contract_alter by done
    | rewrite contract_setDepthTextureOn
    | rewrite needs_setDepthTextureOn
    | rewrite is_Some_setDepthTextureOn ].


(** The invariant survives a call that takes passes off the list, keeps
    the texture and changes nothing the invariant looks at in the passes of
    the list, as long as a pass that needs the texture stays. *)
Lemma Inv_reframe s s' :
  Inv s →
  (∀ id, id ∈ passes s' → id ∈ passes s) →
  depthTexture s' = depthTexture s →
  inputBufferDepthTexture s' = inputBufferDepthTexture s →
  texNext s' = texNext s →
  disposed s' = disposed s →
  (∀ id, id ∈ passes s → needs (heap s') id = needs (heap s) id) →
  (∀ id, id ∈ passes s → holds (heap s') id = holds (heap s) id) →
  (∀ id, id ∈ passes s → is_Some (heap s' !! id)) →
  (depthTexture s ≠ None → ∃ id, id ∈ passes s' ∧ needs (heap s) id = true) →
  Inv s'.
Proof.
  intros [Hheap Hneed Hprop Hbuf Hlive Hcur Hdisp] Hsub Ht Hb Hn Hd Hnd Hh Hs Hstill.
  split; rewrite ?Ht, ?Hb, ?Hn, ?Hd; try done.
  - intros id Hid. apply Hs, Hsub, Hid.
  - split.
    + intros H. destruct (Hstill H) as (id & ? & ?). exists id. rewrite Hnd; auto.
    + intros (id & Hid & Hneeds). apply Hneed. exists id. rewrite <- Hnd; auto.
  - intros t id Htx Hid. rewrite Hh by auto. apply Hprop; auto.
Qed.

Lemma removePass_inv pass s : Inv s → Inv (snd (removePass pass s)).
Proof.
  intros HI. pose proof HI as [Hheap Hneed Hprop Hbuf Hlive Hcur Hdisp].
  unfold removePass, deleteDepthTexture, setDepthTextureAll, set_last_renderToScreen, the_pass, on_pass.
  unfold_js.
  destruct (list_find (λ x, x = pass) (passes s)) as [[index x]|] eqn:Hfind; simpl; [|done].
  apply list_find_Some in Hfind as (Hidx & -> & _).
  assert (∀ id, id ∈ delete index (passes s) → id ∈ passes s) as Hsub
    by (intros id; apply list_elem_of_delete_inv).
  destruct (depthTexture s) as [t|] eqn:Ht; simpl.
  - destruct (depthTextureRequired (set_passes (delete index (passes s)) s)) eqn:Hreq; simpl.
    + (* another pass still needs the texture *)
      apply depthTextureRequired_spec in Hreq. simpl in Hreq.
      repeat (case_step; simpl).
      all: apply (Inv_reframe s); simpl; try done; intros; heap_simpl; auto.
    + (* the texture is released *)
      assert (¬ ∃ id, id ∈ delete index (passes s) ∧ needs (heap s) id = true) as Hnone.
      { intros H. apply (depthTextureRequired_spec (set_passes _ s)) in H. congruence. }
      destruct (heap s !! pass) as [p|] eqn:Hp; simpl.
      2:{ destruct (Hheap pass) as [? ?]; [|congruence].
          apply list_elem_of_lookup. eauto. }
      destruct (Hcur t eq_refl) as [Hlt Hnd].
      repeat (case_step; simpl).
      all: simplify_eq.
      all: split; simpl; try done.
      all: try solve [intros id Hid; heap_simpl; auto].
      all: try solve [split; [intros H; by destruct H|intros (id & ? & Hn) _; apply Hnone; exists id;
                          revert Hn; heap_simpl; intros Hn; split; assumption]].
      all: try solve [intros t' Ht'; destruct (Hlive t' Ht') as [?|[= ->]]; left; set_solver].
      all: try solve [intros t' [->%elem_of_singleton|?]%elem_of_union; eauto].



  - repeat (case_step; simpl).
    all: apply (Inv_reframe s); simpl; try done; try (intros; heap_simpl; auto; done).
    all: rewrite Ht; done.
Qed.

Lemma alter_lookup_insert (f : Pass → Pass) i (h : gmap nat Pass) p :
  h !! i = Some p → alter f i h = <[i := f p]> h.
Proof.
  intros Hp. apply map_eq. intros j. rewrite lookup_alter, lookup_insert.
  case_decide; subst; by rewrite ?Hp.
Qed.

Ltac heap_norm Hp :=
  rewrite ?(alter_lookup_insert _ _ _ _ Hp), ?alter_insert_eq, ?insert_insert_eq,
    ?lookup_insert_eq; simpl.

Lemma MRT_initialize_spec plat id s r p :
  renderer s = Some r → heap s !! id = Some p → renderTargetMRT p = None →
  ∃ p',
    MRT_initialize plat id s
    = (Normal (isWebGL2 r && probe_ok (initAlloc plat) && target_ok (targetAlloc plat)),
       set_heap (<[id := p']> (heap s)) s)
    ∧ cls p' = cls p ∧ needsDepthTexture p' = needsDepthTexture p
    ∧ depthTextureSet p' = depthTextureSet p
    ∧ mrt_depthTexture p' =
        isWebGL2 r && probe_ok (initAlloc plat) && target_ok (targetAlloc plat).
Proof.
  intros Hr Hp Hrt.
  unfold MRT_initialize, createRenderTargets, the_pass, on_pass, probe_ok, target_ok,
    mrt_depthTexture.
  unfold_js. rewrite Hr. simpl.
  destruct (isWebGL2 r) eqn:Hgl; simpl.
  2:{ heap_norm Hp. eexists. split; [reflexivity|]. simpl. by rewrite Hrt. }
  destruct (initAlloc plat) as [|[n|]] eqn:Hia; simpl; heap_norm Hp.
  1,3: eexists; (split; [reflexivity|]); simpl; by rewrite Hrt.
  rewrite Hrt. simpl.
  destruct (targetAlloc plat) as [|[k|]] eqn:Hta; simpl; heap_norm Hp.
  1,3: eexists; (split; [reflexivity|]); simpl; done.
  destruct k as [|[|k]]; simpl; heap_norm Hp.
  all: eexists; (split; [reflexivity|]); simpl; done.
Qed.

Lemma setMRTRenderPass_spec plat s :
  let id := fst (with_substitute s) in
  let ok := _useMRT s && negb (ctorThrows plat)
            && bool_decide (renderer s ≠ None)
            && substitute_initialize plat s
            && negb (sharedDepthThrows plat) in
  ∃ s',
    setMRTRenderPass plat s = (Normal (if ok then Some id else None), s')
    ∧ passes s' = passes s ∧ depthTexture s' = depthTexture s
    ∧ inputBufferDepthTexture s' = inputBufferDepthTexture s
    ∧ texNext s' = texNext s ∧ disposed s' = disposed s
    ∧ renderer s' = renderer s ∧ autoRenderToScreen s' = autoRenderToScreen s
    ∧ _useMRT s' = _useMRT s
    ∧ (∀ j, j ≠ id → heap s' !! j = heap s !! j)
    ∧ (ok = true → ∃ q, heap s' !! id = Some q ∧ cls q = MRTRenderPass
                        ∧ needsDepthTexture q = false).
Proof.
  unfold setMRTRenderPass, substitute_initialize, with_substitute.
  unfold_js. cbv zeta. simpl.
  generalize (fresh (dom (heap s))). intros id.
  destruct (_useMRT s) eqn:Hu; simpl; [|by eexists].
  destruct (ctorThrows plat) eqn:Hc; simpl; [by eexists|].
  destruct (renderer s) as [r|] eqn:Hr; simpl; [|].
  2:{ eexists. split; [reflexivity|]. simpl. split_and!; try done.
      intros j Hj. by rewrite lookup_insert_ne. }
  destruct (MRT_initialize_spec plat id
              (set_mrtRenderPass (Some id)
                 (set_heap (<[id:=new_MRTRenderPass]> (heap s)) s)) r new_MRTRenderPass)
    as (p' & Hinit & Hcls & Hnd & _ & Hmrt); [exact Hr|simpl; apply lookup_insert_eq|reflexivity|].
  simpl in Hinit. rewrite Hinit. simpl. rewrite insert_insert_eq.
  destruct (isWebGL2 r && probe_ok (initAlloc plat) && target_ok (targetAlloc plat)) eqn:Hb;
    simpl.
  2:{ eexists. split; [reflexivity|]. simpl. split_and!; try done.
      intros j Hj. by rewrite lookup_insert_ne. }
  unfold the_pass. unfold_js. simpl. rewrite lookup_insert_eq. simpl.
  rewrite Hmrt. simpl.
  destruct (sharedDepthThrows plat) eqn:Hsd; simpl.
  { eexists. split; [reflexivity|]. simpl. split_and!; try done.
    intros j Hj. by rewrite lookup_insert_ne. }
  destruct (sharedDepthTexture plat); simpl.
  all: eexists; (split; [reflexivity|]); simpl; split_and!; try done.
  all: try (intros j Hj; by rewrite lookup_insert_ne).
  all: intros _; exists p'; rewrite lookup_insert_eq; done.
Qed.

Lemma elem_of_insert_pass index pass l x :
  x ∈ insert_pass index pass l ↔ x = pass ∨ x ∈ l.
Proof.
  unfold insert_pass. destruct index as [i|].
  - rewrite elem_of_app, elem_of_cons.
    rewrite <- (take_drop (splice_pos (length l) i) l) at 5.
    rewrite elem_of_app. tauto.
  - rewrite elem_of_app, list_elem_of_singleton. tauto.
Qed.

Lemma insert_pass_nonempty index pass l : last (insert_pass index pass l) ≠ None.
Proof.
  unfold insert_pass. destruct index as [i|].
  - rewrite last_app. simpl. by destruct (last (pass :: drop _ l)) eqn:E;
      [|apply last_None in E].
  - by rewrite last_snoc.
Qed.

Lemma insertPass_no_renderer pass index s :
  renderer s = None → insertPass pass index s = (Thrown, s).
Proof. intros H. unfold insertPass. unfold_js. by rewrite H. Qed.

Lemma needs_lookup h id p : h !! id = Some p → needs h id = needsDepthTexture p.
Proof. unfold needs. by intros ->. Qed.


(** Three ways the list grows by one pass. *)
Lemma Inv_insert_plain s s' pass index :
  Inv s → depthTexture s = None → needs (heap s) pass = false →
  is_Some (heap s !! pass) →
  passes s' = insert_pass index pass (passes s) →
  depthTexture s' = depthTexture s →
  inputBufferDepthTexture s' = inputBufferDepthTexture s →
  texNext s' = texNext s → disposed s' = disposed s →
  (∀ id, needs (heap s') id = needs (heap s) id) →
  (∀ id, is_Some (heap s' !! id) ↔ is_Some (heap s !! id)) →
  Inv s'.
Proof.
  intros [Hheap Hneed Hprop Hbuf Hlive Hcur Hdisp] Ht Hnp Hp Hl Ht' Hb Hn Hd Hnd Hs.
  split; rewrite ?Ht', ?Hb, ?Hn, ?Hd, ?Hl; try done.
  - intros id [->|?]%elem_of_insert_pass; apply Hs; auto.
  - rewrite Ht. split; [done|].
    intros (id & [->|Hid]%elem_of_insert_pass & Hx); rewrite Hnd in Hx; [congruence|].
    intros _. rewrite Ht in Hneed. apply Hneed; eauto.
  - intros t id. rewrite Ht. done.
Qed.

Lemma Inv_insert_reuse s s' pass index t :
  Inv s → depthTexture s = Some t →
  passes s' = insert_pass index pass (passes s) →
  depthTexture s' = depthTexture s →
  inputBufferDepthTexture s' = inputBufferDepthTexture s →
  texNext s' = texNext s → disposed s' = disposed s →
  (∀ id, needs (heap s') id = needs (heap s) id) →
  (∀ id, is_Some (heap s' !! id) ↔ is_Some (heap s !! id)) →
  is_Some (heap s !! pass) →
  (∀ id, id ≠ pass → holds (heap s') id = holds (heap s) id) →
  holds (heap s') pass = Some t →
  Inv s'.
Proof.
  intros [Hheap Hneed Hprop Hbuf Hlive Hcur Hdisp] Ht Hl Ht' Hb Hn Hd Hnd Hs Hp Hh Hhp.
  split; rewrite ?Ht', ?Hb, ?Hn, ?Hd, ?Hl; try done.
  - intros id [->|?]%elem_of_insert_pass; apply Hs; auto.
  - rewrite Ht. split; [|done]. intros _.
    destruct Hneed as [Hneed _]. destruct Hneed as (id & ? & ?); [by rewrite Ht|].
    exists id. rewrite Hnd, elem_of_insert_pass. auto.
  - intros t' id Htt [->|Hid]%elem_of_insert_pass.
    + rewrite Hhp. congruence.
    + destruct (decide (id = pass)) as [->|Hne]; [rewrite Hhp; congruence|].
      rewrite Hh by done. auto.
Qed.

Lemma Inv_insert_create s s' pass index :
  Inv s → depthTexture s = None → needs (heap s) pass = true →
  is_Some (heap s !! pass) →
  passes s' = insert_pass index pass (passes s) →
  depthTexture s' = Some (texNext s) →
  inputBufferDepthTexture s' = Some (texNext s) →
  texNext s' = S (texNext s) → disposed s' = disposed s →
  (∀ id, needs (heap s') id = needs (heap s) id) →
  (∀ id, is_Some (heap s' !! id) ↔ is_Some (heap s !! id)) →
  (∀ id, id ∈ passes s' → holds (heap s') id = Some (texNext s)) →
  Inv s'.
Proof.
  intros [Hheap Hneed Hprop Hbuf Hlive Hcur Hdisp] Ht Hnp Hp Hl Ht' Hb Hn Hd Hnd Hs Hh.
  split; rewrite ?Ht', ?Hb, ?Hn, ?Hd; try done.
  - rewrite Hl. intros id [->|?]%elem_of_insert_pass; apply Hs; auto.
  - split; [|done]. intros _. exists pass. rewrite Hnd, Hl, elem_of_insert_pass. auto.
  - intros t id [= <-] Hid. auto.
  - intros t Hlt. destruct (decide (t = texNext s)) as [->|Hne]; [by right|].
    destruct (Hlive t) as [?|?]; [lia|by left|congruence].
  - intros t [= <-]. split; [lia|]. intros Hin%Hdisp. lia.
  - intros t Hin%Hdisp. lia.
Qed.

Lemma insertPass_spec pass index s r :
  renderer s = Some r → is_Some (heap s !! pass) →
  ∃ s',
    insertPass pass index s = (Normal tt, s')
    ∧ passes s' = insert_pass index pass (passes s)
    ∧ (∀ id, contract <$> heap s' !! id = contract <$> heap s !! id)
    ∧ (Inv s → Inv s').
Proof.
  intros Hr Hp.
  unfold insertPass, createDepthTexture, setDepthTextureAll, set_last_renderToScreen,
    the_pass, on_pass.
  unfold_js. rewrite Hr. simpl.
  pose proof (insert_pass_nonempty index pass (passes s)) as Hlast.
  repeat (case_step; simpl); decide_hyps; simplify_eq.
  all: repeat match goal with
       | H : @lookup _ _ (gmap nat Pass) _ _ _ = None |- _ =>
           exfalso; apply eq_None_not_Some in H; apply H; heap_simpl; exact Hp
       | H : @lookup _ _ (gmap nat Pass) _ _ _ = Some _ |- _ =>
           apply needs_lookup in H; revert H; heap_simpl; intros H
       end.
  all: try match goal with
       | H : last ?l = None, H' : (0 <? length ?l)%nat = true |- _ =>
           exfalso; apply last_None in H; rewrite H in H'; done
       end.
  all: repeat match goal with
       | H : _ || _ = false |- _ => apply orb_false_iff in H as [? ?]
       | H : _ || _ = true |- _ => apply orb_true_iff in H as [H|H]
       end; decide_hyps; try done.
  all: eexists; (split; [reflexivity|]); simpl.
  all: split; [reflexivity|].
  all: split; [intros id; heap_simpl; reflexivity|].
  all: intros HI.
  all: first
    [ (* the texture exists and is handed to the new pass *)
      eapply (Inv_insert_reuse s _ pass index); simpl;
      [exact HI|eassumption|reflexivity..
      |intros id; heap_simpl; reflexivity
      |intros id; heap_simpl; reflexivity
      |exact Hp
      |intros id Hne; rewrite holds_setDepthTexture, decide_False by done;
       heap_simpl; reflexivity
      |rewrite holds_setDepthTexture, decide_True by done;
       match goal with |- context [@lookup _ _ (gmap nat Pass) _ ?k ?h] =>
         let E := fresh in
         assert (is_Some (h !! k)) as [? E] by (heap_simpl; exact Hp);
         rewrite E end; reflexivity]
    | (* the texture is created and handed to every pass *)
      eapply (Inv_insert_create s _ pass index); simpl;
      [exact HI|eassumption|congruence|exact Hp|reflexivity..
      |intros id; heap_simpl; reflexivity
      |intros id; heap_simpl; reflexivity
      |intros id Hid; apply holds_setDepthTextureOn; [exact Hid|];
       heap_simpl; apply elem_of_insert_pass in Hid as [->|?];
       [exact Hp|by apply (inv_heap _ HI)]]
    | (* no texture is involved *)
      eapply (Inv_insert_plain s _ pass index); simpl;
      [exact HI|first [eassumption|by apply dec_stable]|congruence|exact Hp|reflexivity..
      |intros id; heap_simpl; reflexivity
      |intros id; heap_simpl; reflexivity] ].
Qed.

Lemma substitutePass_spec plat p s :
  let mid := fst (with_substitute s) in
  let ok := _useMRT s && (length (passes s) =? 0)%nat && bool_decide (cls p = RenderPass)
            && negb (ctorThrows plat) && bool_decide (renderer s ≠ None)
            && substitute_initialize plat s && negb (sharedDepthThrows plat) in
  ∃ s',
    substitutePass plat p s = (Normal ok, s')
    ∧ passes s' = (if ok then passes s ++ [mid] else passes s)
    ∧ depthTexture s' = depthTexture s
    ∧ inputBufferDepthTexture s' = inputBufferDepthTexture s
    ∧ texNext s' = texNext s ∧ disposed s' = disposed s
    ∧ renderer s' = renderer s
    ∧ (∀ j, j ≠ mid → heap s' !! j = heap s !! j)
    ∧ (ok = true → ∃ q, heap s' !! mid = Some q ∧ cls q = MRTRenderPass
                        ∧ needsDepthTexture q = false).
Proof.
  intros mid ok. subst ok. unfold substitutePass. unfold_js.
  destruct (setMRTRenderPass_spec plat s)
    as (s1 & Hset & Hp1 & Ht1 & Hb1 & Hn1 & Hd1 & Hr1 & _ & _ & Hh1 & Hq1).
  fold mid in Hset, Hh1, Hq1.
  destruct (_useMRT s) eqn:Hu; simpl; [|by exists s].
  destruct (length (passes s) =? 0)%nat eqn:Hlen; simpl; [|by exists s].
  destruct (bool_decide (cls p = RenderPass)) eqn:Hcls; simpl; [|by exists s].
  rewrite Hset. simpl in *.
  destruct (ctorThrows plat); simpl in *; [by exists s1|].
  destruct (renderer s) as [r|] eqn:Hr; simpl in *; [|by exists s1].
  destruct (substitute_initialize plat s); simpl in *; [|by exists s1].
  destruct (sharedDepthThrows plat); simpl in *; [by exists s1|].
  destruct Hq1 as (q & Hq & Hqc & Hqn); [done|].
  unfold on_pass. unfold_js. eexists. split; [reflexivity|]. simpl.
  rewrite Hp1. split_and!; try done.
  - intros j Hj. by rewrite lookup_alter_ne, Hh1.
  - intros _. exists (set_size (Some (drawingBufferSize r)) q).
    rewrite lookup_alter_eq, Hq. done.
Qed.

Lemma needs_of_lookup h h' id : h' !! id = h !! id → needs h' id = needs h id.
Proof. unfold needs. by intros ->. Qed.

Lemma needs_of_contract h h' id :
  contract <$> h' !! id = contract <$> h !! id → needs h' id = needs h id.
Proof.
  unfold needs. destruct (h' !! id), (h !! id); simpl; try done.
  unfold contract. by intros [= _ _ _ ->].
Qed.

Lemma Inv_no_passes s :
  passes s = [] → depthTexture s = None → inputBufferDepthTexture s = None →
  (∀ t, (t < texNext s)%nat → t ∈ disposed s) →
  (∀ t, t ∈ disposed s → (t < texNext s)%nat) →
  Inv s.
Proof.
  intros Hp Ht Hb Hl Hd. split; rewrite ?Hp, ?Ht, ?Hb; try done.
  - intros id []%elem_of_nil.
  - split; [done|]. intros (id & []%elem_of_nil & _).
  - auto.
Qed.

Lemma Inv_empty_list s : Inv s → passes s = [] → depthTexture s = None.
Proof.
  intros HI Hp. destruct (depthTexture s) eqn:Ht; [|done].
  destruct (inv_need _ HI) as [H _]. rewrite Ht in H.
  destruct H as (id & Hid & _); [done|]. rewrite Hp in Hid. by apply elem_of_nil in Hid.
Qed.

Lemma fresh_not_allocated (s : St) id :
  is_Some (heap s !! id) → id ≠ fst (with_substitute s).
Proof.
  intros Hs ->. simpl in Hs. apply elem_of_dom in Hs. by apply is_fresh in Hs.
Qed.

Lemma addPass_inv plat pass index s : Inv s → Inv (snd (addPass plat pass index s)).
Proof.
  intros HI. unfold addPass, the_pass. unfold_js.
  destruct (heap s !! pass) as [p|] eqn:Hp; simpl; [|done].
  destruct (substitutePass_spec plat p s)
    as (s1 & Hsub & Hp1 & Ht1 & Hb1 & Hn1 & Hd1 & Hr1 & Hh1 & Hq1).
  rewrite Hsub. simpl in *.
  set (mid := fresh (dom (heap s))) in *.
  assert (pass ≠ mid) as Hne by (apply (fresh_not_allocated s); by rewrite Hp).
  match type of Hsub with _ = (Normal ?b, _) => destruct b eqn:Hok end; simpl.
  - (* the substitute is the only pass *)
    destruct Hq1 as (q & Hq & _ & Hqn); [done|].
    assert (passes s = []) as Hnil.
    { rewrite !andb_true_iff in Hok. destruct Hok as [[[[[[_ Hl] _] _] _] _] _].
      apply Nat.eqb_eq in Hl. by destruct (passes s). }
    pose proof (Inv_empty_list s HI Hnil) as Ht.
    pose proof HI as [Hheap Hneed Hprop Hbuf Hlive Hcur Hdisp].
    rewrite Hnil in Hp1. simpl in Hp1.
    split; rewrite ?Hp1, ?Ht1, ?Hb1, ?Hn1, ?Hd1, ?Ht; try done.
    + intros id ->%list_elem_of_singleton. by rewrite Hq.
    + split; [done|]. intros (id & ->%list_elem_of_singleton & Hx) _.
      unfold needs in Hx. rewrite Hq in Hx. congruence.
    + by rewrite <- Ht.
    + by rewrite Ht in Hlive.
  - (* the pass itself is inserted *)
    assert (∀ id, id ∈ passes s → heap s1 !! id = heap s !! id) as Hsame.
    { intros id Hid. apply Hh1, (fresh_not_allocated s), (inv_heap _ HI), Hid. }
    assert (Inv s1) as HI1.
    { apply (Inv_reframe s); try done.
      - intros id. by rewrite Hp1.
      - intros id Hid. apply needs_of_lookup; auto.
      - intros id Hid. unfold holds. by rewrite Hsame.
      - intros id Hid. rewrite Hsame by done. by apply (inv_heap _ HI).
      - rewrite Hp1. by apply (inv_need _ HI). }
    destruct (renderer s1) as [r|] eqn:Hr.
    + destruct (insertPass_spec pass index s1 r) as (s2 & -> & _ & _ & HI2);
        [done|by rewrite Hh1, Hp|]. simpl. auto.
    + by rewrite insertPass_no_renderer.
Qed.

Lemma holds_setDepthTextureOn_None ids h j :
  j ∈ ids → holds (setDepthTextureOn None ids h) j = None.
Proof.
  intros Hj. destruct (h !! j) eqn:E.
  - apply holds_setDepthTextureOn; [done|by rewrite E].
  - unfold holds.
    destruct (setDepthTextureOn None ids h !! j) eqn:E'; [|done].
    assert (is_Some (h !! j)) as [? ?]; [|congruence].
    apply (is_Some_setDepthTextureOn None ids). by rewrite E'.
Qed.

Lemma removePass_releases pass s :
  Inv s → pass ∈ passes s → needs (heap s) pass = true →
  (∀ id, id ∈ passes (snd (removePass pass s)) → needs (heap s) id = false) →
  ∃ t, depthTexture s = Some t
       ∧ depthTexture (snd (removePass pass s)) = None
       ∧ inputBufferDepthTexture (snd (removePass pass s)) = None
       ∧ t ∈ disposed (snd (removePass pass s))
       ∧ ∀ id, id ∈ passes (snd (removePass pass s)) →
               holds (heap (snd (removePass pass s))) id = None.
Proof.
  intros HI Hin Hneeds.
  destruct (depthTexture s) as [t|] eqn:Ht.
  2:{ destruct (inv_need _ HI) as [_ H]. exfalso. rewrite Ht in H. apply H; eauto. }
  intros Hrest. exists t. split; [done|]. revert Hrest.
  unfold removePass, deleteDepthTexture, setDepthTextureAll, set_last_renderToScreen,
    the_pass, on_pass.
  unfold_js.
  destruct (list_find (λ x, x = pass) (passes s)) as [[index x]|] eqn:Hfind; simpl.
  2:{ apply list_find_None in Hfind. rewrite Forall_forall in Hfind.
      by specialize (Hfind pass Hin). }
  apply list_find_Some in Hfind as (Hidx & -> & _).
  rewrite Ht. simpl.
  destruct (depthTextureRequired (set_passes (delete index (passes s)) s)) eqn:Hreq; simpl.
  { apply depthTextureRequired_spec in Hreq as (id & Hid & Hn). simpl in *.
    repeat (case_step; simpl); intros Hrest; rewrite (Hrest id) in Hn; done. }
  destruct (inv_heap _ HI pass Hin) as [p Hp]. rewrite Hp. simpl.
  repeat (case_step; simpl); simplify_eq; intros Hrest.
  all: split_and!; try done; try set_solver.
  all: intros id Hid; heap_simpl; by apply holds_setDepthTextureOn_None.
Qed.

Lemma reachable_Inv s : reachable s → Inv s.
Proof.
  induction 1 as [s Hp Ht Hb Hn Hd|s id p _ IH Hid|s plat pass index _ IH|s pass _ IH].
  - apply Inv_no_passes; try done.
    + rewrite Hn. lia.
    + rewrite Hd. set_solver.
  - assert (∀ j, j ∈ passes s → <[id:=p]> (heap s) !! j = heap s !! j) as Hsame.
    { intros j Hj. apply lookup_insert_ne. intros ->.
      destruct (inv_heap _ IH j Hj). congruence. }
    apply (Inv_reframe s); simpl; try done.
    + intros j Hj. by apply needs_of_lookup, Hsame.
    + intros j Hj. unfold holds. by rewrite Hsame.
    + intros j Hj. rewrite Hsame by done. by apply (inv_heap _ IH).
    + by apply (inv_need _ IH).
  - by apply addPass_inv.
  - by apply removePass_inv.
Qed.

(** C5.  In every state a composer can reach by constructing passes and
    calling [addPass] and [removePass]: if a pass on the list needs the
    depth texture, the composer holds a depth texture, that texture is the
    only one created and not yet disposed, and every pass on the list was
    handed it through [setDepthTexture].  And when [removePass] takes the
    only pass that needs the texture off the list, the texture is disposed,
    the composer holds none, and every pass that stays was handed [null]. *)
Theorem shared_depth_texture_lifecycle (s : St) (pass : nat) :
  reachable s →
  ((∃ id, id ∈ passes s ∧ needs (heap s) id = true) →
     ∃ t, depthTexture s = Some t
          ∧ (∀ t', (t' < texNext s)%nat ∧ t' ∉ disposed s ↔ t' = t)
          ∧ ∀ id, id ∈ passes s → holds (heap s) id = Some t)
  ∧ (pass ∈ passes s → needs (heap s) pass = true →
     (∀ id, id ∈ passes (snd (removePass pass s)) → needs (heap s) id = false) →
     ∃ t, depthTexture s = Some t
          ∧ depthTexture (snd (removePass pass s)) = None
          ∧ t ∈ disposed (snd (removePass pass s))
          ∧ ∀ id, id ∈ passes (snd (removePass pass s)) →
                  holds (heap (snd (removePass pass s))) id = None).
Proof.
  intros HI%reachable_Inv. split.
  - intros Hex. destruct (depthTexture s) as [t|] eqn:Ht.
    2:{ exfalso. destruct (inv_need _ HI) as [_ H]. rewrite Ht in H. by apply H. }
    exists t. split_and!; [done| |].
    + intros t'. split.
      * intros [Hlt Hnd]. destruct (inv_live _ HI t' Hlt) as [?|Heq]; [done|].
        rewrite Ht in Heq. congruence.
      * intros ->. by apply (inv_cur _ HI).
    + intros id Hid. by apply (inv_prop _ HI).
  - intros Hin Hn Hrest.
    destruct (removePass_releases pass s HI Hin Hn Hrest) as (t & ? & ? & ? & ? & ?).
    exists t. done.
Qed.

(** The capability probe of the composer: it always returns, and it enables
    multi-target rendering exactly when the renderer is a WebGL2 renderer
    and the test target came back with two textures. *)
Lemma checkMRTSupport_spec plat s :
  fst (_checkMRTSupport plat s) = Normal tt
  ∧ (_useMRT (snd (_checkMRTSupport plat s)) = true ↔
     ∃ r, renderer s = Some r ∧ isWebGL2 r = true
          ∧ probeAlloc plat = AllocTarget (Some 2%nat)).
Proof.
  unfold _checkMRTSupport, _cleanupMRTResources, on_pass. unfold_js.
  destruct (renderer s) as [r|] eqn:Hr; simpl.
  2: { split; [done|]. split; [done|]. by intros (? & ? & _). }
  assert (∀ b : bool,
            (b = true → isWebGL2 r = true ∧ probeAlloc plat = AllocTarget (Some 2%nat)) →
            (isWebGL2 r = true → probeAlloc plat = AllocTarget (Some 2%nat) → b = true) →
            b = true ↔ ∃ r0, Some r = Some r0 ∧ isWebGL2 r0 = true
                             ∧ probeAlloc plat = AllocTarget (Some 2%nat)) as Hiff.
  { intros b H1 H2. split.
    - intros [? ?]%H1. by exists r.
    - intros (r0 & [= <-] & ? & ?). by apply H2. }
  destruct (isWebGL2 r) eqn:Hw; simpl.
  - destruct (probeAlloc plat) as [|[[|[|[|n]]]|]] eqn:Hp; simpl;
      repeat (case_step; simpl); (split; [done|]); apply Hiff; try done;
      by intros _ [=].
  - destruct (drawBuffersExtension r) as [[]|]; simpl;
      repeat (case_step; simpl); (split; [done|]); by apply Hiff.
Qed.

Lemma substitute_initialize_spec plat s r :
  renderer s = Some r →
  substitute_initialize plat s
  = isWebGL2 r && probe_ok (initAlloc plat) && target_ok (targetAlloc plat).
Proof.
  intros Hr. unfold substitute_initialize.
  destruct (MRT_initialize_spec plat (fst (with_substitute s)) (snd (with_substitute s))
              r new_MRTRenderPass) as (p' & -> & _); [done| |done|done].
  simpl. apply lookup_insert_eq.
Qed.

(** A RenderPass and a depth-reading EffectPass were added; the EffectPass
    is then removed. *)
Lemma shared_depth_texture_lifecycle_witness :
  let s := snd (addPass sample_platform 1 None
                  (snd (addPass sample_platform 0 None (sample_composer false)))) in
  reachable s
  ∧ (∃ t, depthTexture s = Some t
          ∧ (∀ id, id ∈ passes s → holds (heap s) id = Some t))
  ∧ (∃ t, depthTexture s = Some t
          ∧ depthTexture (snd (removePass 1 s)) = None
          ∧ t ∈ disposed (snd (removePass 1 s))
          ∧ holds (heap (snd (removePass 1 s))) 0 = None).
Proof.
  intros s.
  assert (reachable s) as Hreach.
  { apply reach_addPass, reach_addPass, reach_new; reflexivity. }
  split; [exact Hreach|].
  destruct (shared_depth_texture_lifecycle s 1 Hreach) as [H1 H2].
  split.
  - destruct H1 as (t & Ht & _ & Hall).
    { exists 1%nat. split; [|vm_compute; reflexivity].
      change (passes s) with [0; 1]%nat. set_solver. }
    exists t. split; [exact Ht|exact Hall].
  - destruct H2 as (t & Ht & Hnone & Hdisp & Hrest).
    { change (passes s) with [0; 1]%nat. set_solver. }
    { vm_compute. reflexivity. }
    { intros id Hid. change (passes (snd (removePass 1 s))) with [0%nat] in Hid.
      apply list_elem_of_singleton in Hid as ->. vm_compute. reflexivity. }
    exists t. split_and!; [exact Ht|exact Hnone|exact Hdisp|].
    apply Hrest. change (passes (snd (removePass 1 s))) with [0%nat]. set_solver.
Defined.

(** C6.  When the first pass added to a composer with a renderer is a
    RenderPass, [addPass] returns normally with exactly one pass on the
    list: the new MRTRenderPass when multi-target support was detected,
    the substitute could be constructed, its [initialize] answered success
    and the shared depth pass could be set up; the RenderPass itself, with
    its class and flags as they were, in every other case.  [initialize]
    succeeds exactly when the renderer is WebGL 2, the probe target has a
    [textures] array and the real target has its two textures. *)
Theorem substitution_is_best_effort (plat : Platform) (pass : nat)
  (index : option Z) (s : St) (r : Renderer) (p : Pass) :
  renderer s = Some r → passes s = [] →
  heap s !! pass = Some p → cls p = RenderPass →
  let mid := fst (with_substitute s) in
  let substituted :=
    _useMRT s && negb (ctorThrows plat) && substitute_initialize plat s
    && negb (sharedDepthThrows plat) in
  fst (addPass plat pass index s) = Normal tt
  ∧ passes (snd (addPass plat pass index s)) = [if substituted then mid else pass]
  ∧ mid ≠ pass
  ∧ (substituted = true →
       cls <$> heap (snd (addPass plat pass index s)) !! mid = Some MRTRenderPass)
  ∧ contract <$> heap (snd (addPass plat pass index s)) !! pass = Some (contract p)
  ∧ substitute_initialize plat s
    = isWebGL2 r && probe_ok (initAlloc plat) && target_ok (targetAlloc plat).
Proof.
  intros Hr Hnil Hp Hcls mid substituted.
  assert (pass ≠ mid) as Hne by (apply (fresh_not_allocated s); by rewrite Hp).
  unfold addPass, the_pass. unfold_js. rewrite Hp. simpl.
  destruct (substitutePass_spec plat p s)
    as (s1 & Hsub & Hp1 & _ & _ & _ & _ & Hr1 & Hh1 & Hq1).
  rewrite Hsub. clear Hsub. fold mid in Hp1, Hh1, Hq1.
  rewrite Hnil, Hr, Hcls in *. simpl in *.
  rewrite ?andb_true_r in *. fold substituted in Hp1, Hq1. fold substituted.
  destruct substituted eqn:Hs; simpl.
  - split_and!; try done.
    + intros _. destruct Hq1 as (q & Hq & Hqc & _); [done|].
      rewrite Hq. simpl. by rewrite Hqc.
    + rewrite Hh1, Hp by done. done.
    + by apply substitute_initialize_spec.
  - destruct (insertPass_spec pass index s1 r) as (s2 & -> & Hp2 & Hc2 & _);
      [done|by rewrite Hh1, Hp|].
    simpl. rewrite Hp2, Hp1. split_and!; try done.
    + unfold insert_pass. destruct index; [|done].
      by rewrite take_nil, drop_nil.
    + rewrite Hc2, Hh1, Hp by done. done.
    + by apply substitute_initialize_spec.
Qed.

(** Multi-target support was detected and every allocation succeeds: the
    substitute, a new object, takes the place of the RenderPass. *)
Lemma substitution_is_best_effort_witness :
  let s := sample_composer true in
  let res := addPass sample_platform 0 None s in
  fst res = Normal tt
  ∧ passes (snd res) = [3%nat]
  ∧ cls <$> heap (snd res) !! 3%nat = Some MRTRenderPass
  ∧ contract <$> heap (snd res) !! 0%nat = Some (contract (sample_pass RenderPass false)).
Proof.
  intros s res.
  destruct (substitution_is_best_effort sample_platform 0 None s sample_renderer
              (sample_pass RenderPass false))
    as (H1 & H2 & _ & H3 & H4 & _).
  - reflexivity.
  - reflexivity.
  - vm_compute. reflexivity.
  - reflexivity.
  - split_and!; [exact H1|exact H2|apply H3; vm_compute; reflexivity|exact H4].
Defined.

(** A composer constructed without a renderer, for which no multi-target
    support was detected: [addPass] of a RenderPass as its first pass
    raises, and the pass is not added. *)
Lemma first_pass_without_renderer_is_not_added :
  let s := mkSt None 0 1 None None [] true false None None Undefined sample_heap 0 ∅ [] 0 in
  cls <$> heap s !! 0%nat = Some RenderPass
  ∧ _useMRT s = false
  ∧ fst (addPass sample_platform 0 None s) = Thrown
  ∧ passes (snd (addPass sample_platform 0 None s)) = [].
Proof. vm_compute. split_and!; reflexivity. Qed.

End ComposerFacts.

(** ** OutlineManager: selections, the first update, the render trace *)

Module ManagerMore.

Import OutlineManager.
Import ManagerFacts.

Lemma lookup_getSelectionForLayer layer m l :
  selectionsByLayer (snd (getSelectionForLayer layer m)) !! l =
  if decide (l = layer) then Some (default ∅ (selectionsByLayer m !! layer))
  else selectionsByLayer m !! l.
Proof.
  unfold getSelectionForLayer.
  destruct (selectionsByLayer m !! layer) as [sel|] eqn:E; simpl.
  - destruct (decide (l = layer)) as [->|]; [done|done].
  - destruct (decide (l = layer)) as [->|].
    + by rewrite lookup_insert_eq.
    + by rewrite lookup_insert_ne.
Qed.

Lemma fst_getSelectionForLayer layer m :
  fst (getSelectionForLayer layer m) = default ∅ (selectionsByLayer m !! layer).
Proof.
  unfold getSelectionForLayer. by destruct (selectionsByLayer m !! layer).
Qed.

Lemma hasObjects_true m layer sel o :
  selectionsByLayer m !! layer = Some sel → o ∈ sel → hasObjects m = true.
Proof.
  intros Hl Ho. unfold hasObjects. apply bool_decide_eq_true.
  exists layer, sel. split; [done|]. set_solver.
Qed.

Lemma hasObjects_false m :
  hasObjects m = false ↔ ∀ layer sel, selectionsByLayer m !! layer = Some sel → sel = ∅.
Proof.
  unfold hasObjects. rewrite bool_decide_eq_false. split.
  - intros H layer sel Hl. destruct (decide (sel = ∅)) as [|Hne]; [done|].
    exfalso. apply H. by exists layer, sel.
  - intros H (layer & sel & Hl & Hne). apply Hne. by eapply H.
Qed.

(** X1.  [addToLayer(object, layer)] selects the object on that layer,
    registering the layer if it was unknown, and leaves every other layer
    as it was; the manager then asks for an update, so the next [update]
    is not skipped. *)
Theorem addToLayer_selects (object : Obj) (layer : Z) (m : OutlineManager.t) (l : Z) :
  selectionsByLayer (addToLayer object layer m) !! l
  = (if decide (l = layer)
     then Some ({[object]} ∪ default ∅ (selectionsByLayer m !! layer))
     else selectionsByLayer m !! l)
  ∧ needsUpdate (addToLayer object layer m) = true
  ∧ hasObjects (addToLayer object layer m) = true
  ∧ idle (addToLayer object layer m) = false.
Proof.
  assert (selectionsByLayer (addToLayer object layer m) !! l
          = (if decide (l = layer)
             then Some ({[object]} ∪ default ∅ (selectionsByLayer m !! layer))
             else selectionsByLayer m !! l)) as Hlook.
  { unfold addToLayer. simpl. rewrite fst_getSelectionForLayer.
    destruct (decide (l = layer)) as [->|Hne].
    - by rewrite lookup_insert_eq.
    - rewrite lookup_insert_ne by done. rewrite lookup_getSelectionForLayer.
      by rewrite decide_False. }
  assert (hasObjects (addToLayer object layer m) = true) as Hhas.
  { apply (hasObjects_true _ layer ({[object]} ∪ default ∅ (selectionsByLayer m !! layer)) object).
    - unfold addToLayer. simpl. rewrite fst_getSelectionForLayer.
      by rewrite lookup_insert_eq.
    - set_solver. }
  split_and!; [done|done|done|].
  unfold idle. by rewrite Hhas, andb_false_r.
Qed.

(** X2.  [removeFromLayer(object, layer)] answers [true] exactly when the
    object was selected on that layer.  In that case the object is gone
    from the layer and the manager asks for an update; otherwise - the
    object was not selected there, or the layer is unknown - the manager is
    left exactly as it was, and an unknown layer is not registered. *)
Theorem removeFromLayer_reports (object : Obj) (layer : Z) (m : OutlineManager.t) :
  let r := removeFromLayer object layer m in
  (fst r = true ↔ ∃ sel, selectionsByLayer m !! layer = Some sel ∧ object ∈ sel)
  ∧ (fst r = true →
       needsUpdate (snd r) = true
       ∧ ∀ l, selectionsByLayer (snd r) !! l
              = (if decide (l = layer)
                 then (λ sel, sel ∖ {[object]}) <$> selectionsByLayer m !! layer
                 else selectionsByLayer m !! l))
  ∧ (fst r = false → snd r = m).
Proof.
  unfold removeFromLayer.
  destruct (selectionsByLayer m !! layer) as [sel|] eqn:E; simpl.
  - destruct (bool_decide (object ∈ sel)) eqn:Hin; simpl.
    + apply bool_decide_eq_true in Hin. split_and!.
      * split; [|done]. intros _. by exists sel.
      * intros _. split; [done|]. intros l.
        destruct (decide (l = layer)) as [->|Hne].
        -- by rewrite lookup_insert_eq.
        -- by rewrite lookup_insert_ne.
      * done.
    + apply bool_decide_eq_false in Hin. split_and!.
      * split; [done|]. intros (sel' & [= <-] & ?). done.
      * done.
      * intros _. assert (sel ∖ {[object]} = sel) as -> by set_solver.
        rewrite insert_id by done. by destruct m.
  - split_and!; try done. split; [done|]. by intros (? & ? & _).
Qed.

(** X3.  Removing an object right after adding it to a layer reports
    [true]; the layer is then registered with its earlier selection minus
    the object (exactly its earlier selection if the object was not in it),
    and the other layers are untouched. *)
Theorem removeFromLayer_addToLayer (object : Obj) (layer : Z)
  (m : OutlineManager.t) (l : Z) :
  let r := removeFromLayer object layer (addToLayer object layer m) in
  fst r = true
  ∧ selectionsByLayer (snd r) !! l
    = (if decide (l = layer)
       then Some (default ∅ (selectionsByLayer m !! layer) ∖ {[object]})
       else selectionsByLayer m !! l)
  ∧ (object ∉ default ∅ (selectionsByLayer m !! layer) →
     selectionsByLayer (snd r) !! layer
     = Some (default ∅ (selectionsByLayer m !! layer))).
Proof.
  assert (∀ l, selectionsByLayer (addToLayer object layer m) !! l
          = (if decide (l = layer)
             then Some ({[object]} ∪ default ∅ (selectionsByLayer m !! layer))
             else selectionsByLayer m !! l)) as Hadd.
  { intros l'. unfold addToLayer. simpl. rewrite fst_getSelectionForLayer.
    destruct (decide (l' = layer)) as [->|Hne].
    - by rewrite lookup_insert_eq.
    - rewrite lookup_insert_ne by done. rewrite lookup_getSelectionForLayer.
      by rewrite decide_False. }
  set (old := default ∅ (selectionsByLayer m !! layer)) in *.
  assert (({[object]} ∪ old) ∖ {[object]} = old ∖ {[object]}) as Hset by set_solver.
  assert (∀ l, selectionsByLayer
                 (snd (removeFromLayer object layer (addToLayer object layer m))) !! l
          = (if decide (l = layer) then Some (old ∖ {[object]})
             else selectionsByLayer m !! l)) as Hrem.
  { intros l'. unfold removeFromLayer.
    pose proof (Hadd layer) as Hl. rewrite decide_True in Hl by done. rewrite Hl.
    rewrite bool_decide_eq_true_2 by set_solver. simpl.
    destruct (decide (l' = layer)) as [->|Hne].
    - by rewrite lookup_insert_eq, Hset.
    - rewrite lookup_insert_ne by done. rewrite Hadd. by rewrite decide_False. }
  split_and!.
  - unfold removeFromLayer.
    pose proof (Hadd layer) as Hl. rewrite decide_True in Hl by done. rewrite Hl.
    simpl. apply bool_decide_eq_true. set_solver.
  - apply Hrem.
  - intros Hnot. rewrite Hrem, decide_True by done. f_equal. set_solver.
Qed.

End ManagerMore.

(** ** OutlineManager.update, seen from outside *)

Module UpdateMore.

Import OutlineManager.
Import ManagerFacts.

Lemma maskLayer_frame m m' :
  currentLayer m' = currentLayer m → selectionsByLayer m' = selectionsByLayer m →
  defaultLayer m' = defaultLayer m → maskLayer m' = maskLayer m.
Proof. unfold maskLayer. by intros -> -> ->. Qed.

(** X4.  What one [update] asks of its collaborators, in order.  A call
    that gets past the guard first renders depth if the dedup token says
    so - with every selection hidden and then shown again, and with the
    scene background nulled - and then renders one mask, with the camera
    narrowed to the current layer if that layer has a selection that is
    not empty, and to the default layer otherwise.  When the depth render
    raises, nothing follows it: the selections stay hidden and no mask is
    rendered. *)
Theorem update_trace (env : Env) (m : OutlineManager.t) (w : World) :
  idle m = false →
  let w' := world (snd (update env (mkSt m w))) in
  let sels := selectionsByLayer m in
  new_events w w'
  = (if depthDue (now env) (lastDepthPassTime w)
     then [EvSetVisible sels false; EvDepthRender None]
          ++ (if depthThrows env then []
              else [EvSetVisible sels true; EvMaskRender (layers_set (maskLayer m))])
     else [EvMaskRender (layers_set (maskLayer m))]).
Proof.
  intros Hidle w' sels. subst w' sels. unfold idle in Hidle.
  unfold maskLayer.
  run_update; try congruence.
  all: simpl; rewrite <- ?app_assoc; simpl.
  all: try (erewrite new_events_app; [reflexivity|]; simpl; rewrite <- ?app_assoc; reflexivity).
Qed.

(** A manager with object 1 on layer 10 and object 2 on layer 11, and a
    consumer of layer 11 calling. *)
Lemma update_trace_witness :
  let m := mk {[ 10 := {[ 1%nat ]} ; 11 := {[ 2%nat ]} ]} 10 (Some 11) false (Number_of_Z 1) (px 1 1) (px 1 1) in
  let w := mkWorld None None None Undefined (Some 7%nat) 1 [] in
  let env := mkEnv 1000 false false false false in
  new_events w (world (snd (update env (mkSt m w))))
  = [EvSetVisible (selectionsByLayer m) false; EvDepthRender None;
     EvSetVisible (selectionsByLayer m) true; EvMaskRender 2048].
Proof.
  intros m w env.
  rewrite (update_trace env m w); [|vm_compute; reflexivity].
  vm_compute. reflexivity.
Defined.

(** X5.  [update] answers [false] exactly when the guard holds - no update
    is pending and every selection is empty - and then it changes nothing
    at all.  Any other call answers [true] or ends with an exception of one
    of its renders.  [update] never changes the selections, the current
    layer or the sizes; when it answers [true] no update is pending any
    more, so that the next call is skipped unless something is selected. *)
Theorem update_guard (env : Env) (st : St) :
  let r := update env st in
  (fst r = Normal false ↔ idle (mgr st) = true)
  ∧ (idle (mgr st) = true → snd r = st)
  ∧ (idle (mgr st) = false →
       fst r = (if (depthDue (now env) (lastDepthPassTime (world st)) && depthThrows env)
                   || maskThrows env
                then Thrown else Normal true))
  ∧ selectionsByLayer (mgr (snd r)) = selectionsByLayer (mgr st)
  ∧ currentLayer (mgr (snd r)) = currentLayer (mgr st)
  ∧ maskSize (mgr (snd r)) = maskSize (mgr st)
  ∧ depthPassSize (mgr (snd r)) = depthPassSize (mgr st)
  ∧ (fst r = Normal true →
       needsUpdate (mgr (snd r)) = false
       ∧ idle (mgr (snd r)) = negb (hasObjects (mgr st))).
Proof.
  destruct st as [m w]. unfold idle.
  run_update; simpl; split_and!; try done; try (intros [_ ?]; done).
  all: try (intros _; split; [done|]).
  all: try (unfold hasObjects in *; simpl; congruence).
  all: try (unfold hasObjects in *; simpl in *;
            match goal with H : negb _ && negb _ = false |- _ => revert H end;
            repeat match goal with |- context [needsUpdate ?m] => destruct (needsUpdate m) end;
            repeat match goal with |- context [bool_decide ?P] => destruct (bool_decide P) end;
            simpl; congruence).
Qed.

Lemma hasObjects_new layer scale size :
  hasObjects (new_OutlineManager layer scale size) = false.
Proof.
  apply ManagerMore.hasObjects_false. unfold new_OutlineManager. simpl.
  intros l sel [_ <-]%lookup_singleton_Some. done.
Qed.

Lemma update_not_skipped env st :
  idle (mgr st) = false → fst (update env st) ≠ Normal false.
Proof.
  destruct st as [m w]. unfold idle. simpl. intros Hidle.
  unfold update. unfold_js. simpl. rewrite Hidle.
  run_update; simpl; congruence.
Qed.

(** X6.  A new manager has an update pending although nothing is selected:
    its first [update] is not skipped.  It renders depth if the dedup token
    allows and then the mask of the default layer.  If no render raises it
    answers [true], and the [update] after that, with still nothing
    selected, is skipped and changes nothing.  If a render raises, the
    exception leaves [update] with the update still pending, and the next
    [update] is not skipped either. *)
Theorem first_update_of_new_manager (env env' : Env) (layer : Z) (scale : number)
  (size : number * number) (w : World) :
  let m := new_OutlineManager layer scale size in
  let r := update env (mkSt m w) in
  let due := depthDue (now env) (lastDepthPassTime w) in
  let raises := (due && depthThrows env) || maskThrows env in
  fst r = (if raises then Thrown else Normal true)
  ∧ new_events w (world (snd r))
    = (if due
       then [EvSetVisible {[ layer := ∅ ]} false; EvDepthRender None]
            ++ (if depthThrows env then []
                else [EvSetVisible {[ layer := ∅ ]} true; EvMaskRender (layers_set layer)])
       else [EvMaskRender (layers_set layer)])
  ∧ (raises = false → update env' (snd r) = (Normal false, snd r))
  ∧ (raises = true →
     needsUpdate (mgr (snd r)) = true ∧ fst (update env' (snd r)) ≠ Normal false).
Proof.
  intros m r due raises.
  assert (fst r = (if raises then Thrown else Normal true)
          ∧ mgr (snd r) = (if raises then m else set_needsUpdate false m)
          ∧ trace (world (snd r))
            = trace w ++
              (if due
               then [EvSetVisible {[ layer := ∅ ]} false; EvDepthRender None]
                    ++ (if depthThrows env then []
                        else [EvSetVisible {[ layer := ∅ ]} true;
                              EvMaskRender (layers_set layer)])
               else [EvMaskRender (layers_set layer)])) as (Hr & Hmgr & Htr).
  { subst r m raises due. unfold new_OutlineManager. run_update; try congruence.
    all: simpl; rewrite <- ?app_assoc; done. }
  split_and!; [done|by apply new_events_app| |].
  - intros Hno. rewrite Hno in Hmgr.
    destruct (snd r) as [m' w'] eqn:Hs. simpl in Hmgr. subst m'.
    apply update_idle. unfold idle. simpl.
    pose proof (hasObjects_new layer scale size) as H.
    unfold hasObjects in *. simpl in *. by rewrite H.
  - intros Hyes. rewrite Hyes in Hmgr.
    assert (needsUpdate (mgr (snd r)) = true) as Hn by (by rewrite Hmgr).
    split; [done|]. apply update_not_skipped. unfold idle. by rewrite Hn.
Qed.

(** A manager for layer 10 at full resolution, first called at time 1000;
    and the same with the mask render raising. *)
Lemma first_update_of_new_manager_witness :
  let w := mkWorld None None None Undefined (Some 7%nat) 1 [] in
  let env := mkEnv 1000 false false false false in
  let bad := mkEnv 1000 false true false false in
  let later := mkEnv 1001 false false false false in
  let r := update env (mkSt (new_OutlineManager 10 (Number_of_Z 1) (px 1 1)) w) in
  let r' := update bad (mkSt (new_OutlineManager 10 (Number_of_Z 1) (px 1 1)) w) in
  fst r = Normal true
  ∧ new_events w (world (snd r))
    = [EvSetVisible {[ 10 := ∅ ]} false; EvDepthRender None;
       EvSetVisible {[ 10 := ∅ ]} true; EvMaskRender 1024]
  ∧ update later (snd r) = (Normal false, snd r)
  ∧ fst r' = Thrown
  ∧ fst (update later (snd r')) ≠ Normal false.
Proof.
  intros w env bad later r r'.
  destruct (first_update_of_new_manager env later 10 (Number_of_Z 1) (px 1 1) w)
    as (H1 & H2 & H3 & _).
  destruct (first_update_of_new_manager bad later 10 (Number_of_Z 1) (px 1 1) w)
    as (H4 & _ & _ & H5).
  split_and!; [exact H1| |apply H3; reflexivity|exact H4|apply H5; reflexivity].
  etransitivity; [exact H2|]. vm_compute. reflexivity.
Defined.

End UpdateMore.

(** ** SharedOutlineEffect: what the consumers leave in the manager *)

Module EffectMore.

Import OutlineManager.

Lemma clearSelection_eq (active sel : gset Obj) :
  fst (clearSelection active sel) = sel ∩ active.
Proof.
  apply set_eq. intros o. rewrite ManagerFacts.elem_of_clearSelection. set_solver.
Qed.

Lemma selectionOf_clearUnused active exceptLayer m l :
  selectionOf (clearUnused active exceptLayer m) l
  = if decide (exceptLayer = Some l) then selectionOf m l
    else selectionOf m l ∩ active.
Proof.
  unfold selectionOf. rewrite ManagerFacts.clearUnused_lookup.
  destruct (selectionsByLayer m !! l) as [sel|]; simpl.
  - destruct (decide _); [done|]. apply clearSelection_eq.
  - destruct (decide _); [done|]. set_solver.
Qed.

Lemma registerSelection_spec sel layer m :
  (∀ l, selectionOf (SharedOutlineEffect.registerSelection sel layer m) l
        = if decide (l = layer) then sel ∪ selectionOf m layer else selectionOf m l)
  ∧ currentLayer (SharedOutlineEffect.registerSelection sel layer m) = currentLayer m
  ∧ defaultLayer (SharedOutlineEffect.registerSelection sel layer m) = defaultLayer m.
Proof.
  unfold SharedOutlineEffect.registerSelection.
  cut (∀ X : gset Obj,
    (λ (acc : OutlineManager.t) (X : gset Obj),
       (∀ l, selectionOf acc l
             = if decide (l = layer) then X ∪ selectionOf m layer else selectionOf m l)
       ∧ currentLayer acc = currentLayer m
       ∧ defaultLayer acc = defaultLayer m)
      (set_fold (λ object acc,
         let layerSelection := default ∅ (selectionsByLayer acc !! layer) in
         if decide (object ∈ layerSelection) then acc
         else setNeedsUpdate
                (set_selectionsByLayer
                   (<[layer := {[object]} ∪ layerSelection]> (selectionsByLayer acc)) acc))
         m X) X).
  { intros H. apply H. }
  apply set_fold_ind_L; simpl.
  - split_and!; [|done|done]. intros l. destruct (decide (l = layer)) as [->|]; [|done].
    set_solver.
  - intros x X r Hx (IH & Hc & Hd).
    pose proof (IH layer) as IHl. rewrite decide_True in IHl by done.
    change (default ∅ (selectionsByLayer r !! layer)) with (selectionOf r layer).
    rewrite IHl.
    destruct (decide (x ∈ X ∪ selectionOf m layer)) as [Hin|Hnot].
    + split_and!; [|done|done]. intros l. rewrite IH.
      destruct (decide (l = layer)); [|done]. set_solver.
    + simpl. split_and!; [|done|done]. intros l. unfold selectionOf at 1. simpl.
      destruct (decide (l = layer)) as [->|Hne].
      * rewrite lookup_insert_eq. simpl. set_solver.
      * rewrite lookup_insert_ne by done.
        pose proof (IH l) as IHl'. rewrite decide_False in IHl' by done. exact IHl'.
Qed.

Lemma selectionOf_getSelectionForLayer layer m l :
  selectionOf (snd (getSelectionForLayer layer m)) l = selectionOf m l.
Proof.
  unfold selectionOf. rewrite ManagerMore.lookup_getSelectionForLayer.
  destruct (decide (l = layer)) as [->|]; [|done].
  by destruct (selectionsByLayer m !! layer).
Qed.

Lemma currentLayer_getSelectionForLayer layer m :
  currentLayer (snd (getSelectionForLayer layer m)) = currentLayer m.
Proof.
  unfold getSelectionForLayer. by destruct (selectionsByLayer m !! layer).
Qed.

Lemma currentLayer_registered sel layer m :
  currentLayer (SharedOutlineEffect.registerSelection sel layer
                  (snd (getSelectionForLayer layer m)))
  = currentLayer m.
Proof.
  rewrite (proj1 (proj2 (registerSelection_spec sel layer _))).
  apply currentLayer_getSelectionForLayer.
Qed.

Lemma clearUnused_currentLayer active exceptLayer m :
  currentLayer (clearUnused active exceptLayer m) = currentLayer m.
Proof.
  unfold clearUnused.
  cut (∀ mp : gmap Z (gset Obj),
    (λ (acc : OutlineManager.t) (_ : gmap Z (gset Obj)),
       currentLayer acc = currentLayer m)
      (map_fold (λ layer sel acc,
         if decide (exceptLayer = Some layer) then acc
         else set_needsUpdate (needsUpdate acc || snd (clearSelection active sel))
                (set_selectionsByLayer
                   (<[layer := fst (clearSelection active sel)]> (selectionsByLayer acc)) acc))
         m mp) mp).
  { intros H. apply H. }
  apply map_fold_weak_ind; simpl; [done|].
  intros i x mp r _ IH. by destruct (decide _).
Qed.

(** [OutlineManager.update] leaves the selections and the statics of the
    consumers alone, and raises only if one of its renders does. *)
Lemma update_frame env st :
  let r := OutlineManager.update env st in
  selectionsByLayer (mgr (snd r)) = selectionsByLayer (mgr st)
  ∧ updateCounter (world (snd r)) = updateCounter (world st)
  ∧ activeObjects (world (snd r)) = activeObjects (world st)
  ∧ currentLayer (mgr (snd r)) = currentLayer (mgr st)
  ∧ (depthThrows env = false → maskThrows env = false → ∃ b, fst r = Normal b).
Proof.
  destruct st as [m w]. ManagerFacts.run_update; split_and!; try done.
  all: intros; first [congruence | by eexists].
Qed.

Lemma selectionOf_ext m m' l :
  selectionsByLayer m' = selectionsByLayer m → selectionOf m' l = selectionOf m l.
Proof. unfold selectionOf. by intros ->. Qed.

(** One consumer update, as the manager and the statics see it. *)
Lemma effect_update_summary env e m w :
  let r := SharedOutlineEffect.update env e (mkSt m w) in
  let L := SharedOutlineEffect._selectionLayer e in
  let sel := SharedOutlineEffect.selection e in
  let counter := Z.succ (default 0 (updateCounter w)) in
  let active := sel ∪ default ∅ (activeObjects w) in
  let cleans := bool_decide (counter = 2) && returned (fst r) in
  (∀ l, selectionOf (mgr (snd r)) l
        = if cleans && bool_decide (l ≠ L) then selectionOf m l ∩ active
          else if decide (l = L) then sel ∪ selectionOf m L else selectionOf m l)
  ∧ activeObjects (world (snd r)) = Some (if cleans then ∅ else active)
  ∧ updateCounter (world (snd r)) = Some (if cleans then 0 else counter)
  ∧ currentLayer (mgr (snd r)) = Some L
  ∧ (depthThrows env = false → maskThrows env = false →
     outlineThrows env = false → blurThrows env = false → fst r = Normal tt).
Proof.
  destruct w as [tok act cnt scl bg cm tr].
  unfold SharedOutlineEffect.update, SharedOutlineEffect.outlinePass_render,
    SharedOutlineEffect.blurPass_render, call_clearUnused, on_world, on_mgr.
  unfold_js.
  destruct cnt as [c|], act as [a|], scl as [| |l0]; simpl.
  all: destruct (bool_decide (SharedOutlineEffect.selection e ≠ ∅)) eqn:Hsel; simpl.
  all: try match goal with
       | |- context [update ?ev ?s] =>
           destruct (update_frame ev s) as (Hsels & Hcnt & Hact & Hcur & Hret);
           destruct (update ev s) as [[b|] [m' w']]; simpl in *
       end.
  all: repeat (case_step; simpl).
  all: decide_hyps.
  all: try (apply dec_stable in Hsel; rewrite Hsel; rewrite ?(left_id_L ∅ (∪))).
  all: rewrite ?Hact, ?Hcnt, ?Hcur; simpl.
  all: rewrite ?clearUnused_currentLayer, ?Hcur, ?currentLayer_registered; simpl.
  all: repeat match goal with
         | H : _ && _ = true |- _ => apply andb_true_iff in H as [? ?]
         | H : _ && _ = false |- _ => apply andb_false_iff in H as [?|?]
         end.
  all: decide_hyps; simplify_eq.
  all: split_and!; try done.
  all: try (intros; congruence).
  all: try (intros Hd Hm; destruct (Hret Hd Hm); congruence).
  all: intros l.
  all: rewrite ?selectionOf_clearUnused, ?(selectionOf_ext _ _ _ Hsels); simpl.
  all: repeat match goal with
         | |- context [selectionOf (SharedOutlineEffect.registerSelection ?s ?la ?mm) ?x] =>
             rewrite (proj1 (registerSelection_spec s la mm) x)
         end.
  all: rewrite ?selectionOf_getSelectionForLayer.
  all: repeat (case_decide; simplify_eq; simpl); try done; try set_solver.
Qed.

Lemma quiet_spec env :
  SharedOutlineEffect.quiet env = true →
  depthThrows env = false ∧ maskThrows env = false
  ∧ outlineThrows env = false ∧ blurThrows env = false.
Proof.
  unfold SharedOutlineEffect.quiet.
  destruct (depthThrows env), (maskThrows env), (outlineThrows env), (blurThrows env); done.
Qed.

(** X7.  Whatever the outcome of a consumer's [update] - also when one of
    the renders raised - the manager then has the consumer's layer as its
    current layer, and the manager's selection of that layer is what it was
    before together with every object the consumer selects.  A consumer's
    own update never takes an object off its own layer. *)
Theorem update_registers_selection (env : Env) (e : SharedOutlineEffect.t)
  (st : OutlineManager.St) :
  let st' := snd (SharedOutlineEffect.update env e st) in
  let layer := SharedOutlineEffect._selectionLayer e in
  selectionOf (mgr st') layer
  = SharedOutlineEffect.selection e ∪ selectionOf (mgr st) layer
  ∧ currentLayer (mgr st') = Some layer.
Proof.
  destruct st as [m w]. intros st' layer.
  destruct (effect_update_summary env e m w) as (Hsel & _ & _ & Hcur & _).
  split; [|exact Hcur].
  subst st' layer. rewrite Hsel.
  rewrite (bool_decide_eq_false_2 (_ ≠ SharedOutlineEffect._selectionLayer e))
    by (intros H; by apply H).
  rewrite andb_false_r. by rewrite decide_True.
Qed.

(** X8.  One cycle of two consumers on different layers [la] and [lb],
    starting with the counter and the set of active objects fresh and with
    no render raising.  Afterwards the second consumer's layer holds its
    earlier members and the second consumer's objects - nothing was
    removed from it; the first consumer's layer holds, of its earlier
    members and the first consumer's objects, those that one of the two
    consumers selects; every other layer holds those of its members that
    one of the two selects.  The counter is back at 0 and the set of
    active objects is empty. *)
Theorem two_consumer_cycle (env1 env2 : Env) (a b : SharedOutlineEffect.t)
  (m : OutlineManager.t) (w : World) (l : Z) :
  SharedOutlineEffect.quiet env1 = true → SharedOutlineEffect.quiet env2 = true →
  default 0 (updateCounter w) = 0 → default ∅ (activeObjects w) = ∅ →
  SharedOutlineEffect._selectionLayer a ≠ SharedOutlineEffect._selectionLayer b →
  let la := SharedOutlineEffect._selectionLayer a in
  let lb := SharedOutlineEffect._selectionLayer b in
  let sa := SharedOutlineEffect.selection a in
  let sb := SharedOutlineEffect.selection b in
  let st' := SharedOutlineEffect.run_effects [(env1, a); (env2, b)] (mkSt m w) in
  selectionOf (mgr st') l
  = (if decide (l = lb) then sb ∪ selectionOf m lb
     else if decide (l = la) then (sa ∪ selectionOf m la) ∩ (sa ∪ sb)
     else selectionOf m l ∩ (sa ∪ sb))
  ∧ updateCounter (world st') = Some 0
  ∧ activeObjects (world st') = Some ∅.
Proof.
  intros (? & ? & ? & ?)%quiet_spec (? & ? & ? & ?)%quiet_spec Hc Ha Hne la lb sa sb st'.
  subst st'. unfold SharedOutlineEffect.run_effects, SharedOutlineEffect.effect_call.
  simpl.
  destruct (effect_update_summary env1 a m w) as (Hsel1 & Hact1 & Hcnt1 & _ & Hret1).
  specialize (Hret1 ltac:(done) ltac:(done) ltac:(done) ltac:(done)).
  rewrite Hret1, Hc, Ha in *.
  rewrite (bool_decide_eq_false_2 (Z.succ 0 = 2)) in * by done.
  simpl in Hsel1, Hact1, Hcnt1.
  destruct (SharedOutlineEffect.update env1 a (mkSt m w)) as [o1 [m1 w1]].
  simpl in Hsel1, Hact1, Hcnt1.
  destruct (effect_update_summary env2 b m1 w1) as (Hsel2 & Hact2 & Hcnt2 & _ & Hret2).
  specialize (Hret2 ltac:(done) ltac:(done) ltac:(done) ltac:(done)).
  rewrite Hret2, Hcnt1, Hact1 in *. simpl in Hsel2, Hact2, Hcnt2.
  try (rewrite (bool_decide_eq_true_2 (_ = 2)) in * by done).
  simpl in Hsel2, Hact2, Hcnt2.
  split_and!; [|done|done].
  rewrite Hsel2, !Hsel1. fold la lb sa sb.
  destruct (decide (l = lb)) as [->|Hlb].
  - rewrite (bool_decide_eq_false_2 (lb ≠ lb)) by (intros H'; by apply H').
    repeat case_decide; simplify_eq; try done.
  - rewrite (bool_decide_eq_true_2 (l ≠ lb)) by done.
    repeat case_decide; simplify_eq; set_solver.
Qed.

(** Consumers of layers 10 and 11; the manager still has object 3 on
    layer 10 and object 9 on layer 11, which nobody selects any more.
    Object 3 goes, object 9 stays. *)
Lemma two_consumer_cycle_witness :
  let m := mk {[ 10 := {[ 1%nat; 3%nat ]} ; 11 := {[ 9%nat ]} ]} 10 None false (Number_of_Z 1) (px 1 1) (px 1 1) in
  let w := mkWorld None None None Undefined None 1 [] in
  let a := SharedOutlineEffect.mk {[ 1%nat ]} 10 false in
  let b := SharedOutlineEffect.mk {[ 2%nat ]} 11 false in
  let env1 := mkEnv 1000 false false false false in
  let env2 := mkEnv 1001 false false false false in
  let st' := SharedOutlineEffect.run_effects [(env1, a); (env2, b)] (mkSt m w) in
  selectionOf (mgr st') 10 = ({[ 1%nat ]} ∪ {[ 1%nat; 3%nat ]}) ∩ ({[ 1%nat ]} ∪ {[ 2%nat ]})
  ∧ selectionOf (mgr st') 11 = {[ 2%nat ]} ∪ {[ 9%nat ]}.
Proof.
  intros m w a b env1 env2 st'.
  destruct (two_consumer_cycle env1 env2 a b m w 10) as (H10 & _);
    [reflexivity|reflexivity|reflexivity|reflexivity|by intros [=]|].
  destruct (two_consumer_cycle env1 env2 a b m w 11) as (H11 & _);
    [reflexivity|reflexivity|reflexivity|reflexivity|by intros [=]|].
  split; [exact H10|exact H11].
Defined.

Lemma run_effects_drift calls : ∀ st c,
  updateCounter (world st) = Some c → 2 ≤ c →
  ∃ evs,
    trace (world (SharedOutlineEffect.run_effects calls st)) = trace (world st) ++ evs
    ∧ count is_clearUnused evs = 0%nat
    ∧ updateCounter (world (SharedOutlineEffect.run_effects calls st))
      = Some (c + Z.of_nat (length calls))
    ∧ ∀ l, selectionOf (mgr st) l
           ⊆ selectionOf (mgr (SharedOutlineEffect.run_effects calls st)) l.
Proof.
  induction calls as [|[env e] calls IH]; intros [m w] c Hc Hge.
  - exists []. simpl in *. rewrite app_nil_r, Z.add_0_r. done.
  - change (SharedOutlineEffect.run_effects ((env, e) :: calls) (mkSt m w))
      with (SharedOutlineEffect.run_effects calls
              (snd (SharedOutlineEffect.update env e (mkSt m w)))).
    destruct (EffectFacts.effect_update_cleanup env e m w) as (evs1 & Htr1 & Hno & _).
    destruct (effect_update_summary env e m w) as (Hsel1 & _ & _ & _ & _).
    simpl in Hc. rewrite Hc in Hno, Hsel1. simpl in Hno, Hsel1.
    destruct Hno as [Hcount Hcnt]; [left; lia|].
    rewrite (bool_decide_eq_false_2 (Z.succ c = 2)) in Hsel1 by lia. simpl in Hsel1.
    destruct (SharedOutlineEffect.update env e (mkSt m w)) as [o1 [m1 w1]].
    simpl in Htr1, Hcount, Hcnt, Hsel1. simpl snd.
    destruct (IH (mkSt m1 w1) (Z.succ c)) as (evs2 & Htr2 & Hcount2 & Hcnt2 & Hsub2);
      [done|lia|].
    exists (evs1 ++ evs2). split_and!.
    + rewrite Htr2. simpl. by rewrite Htr1, app_assoc.
    + by rewrite count_app, Hcount, Hcount2.
    + rewrite Hcnt2. f_equal. simpl length. lia.
    + intros l. etransitivity; [|apply Hsub2]. simpl. rewrite Hsel1.
      case_decide; set_solver.
Qed.

(** X9.  Once the shared counter has passed the value 2 without being
    reset - it stays at 2 when a render raises in the update that was to
    clean up - no later consumer update ever calls [clearUnused]: the
    counter only grows, and no object is removed from any layer of the
    manager again. *)
Theorem cleanup_never_resumes (calls : list (Env * SharedOutlineEffect.t))
  (st : OutlineManager.St) (c : Z) :
  updateCounter (world st) = Some c → 2 ≤ c →
  let st' := SharedOutlineEffect.run_effects calls st in
  count is_clearUnused (new_events (world st) (world st')) = 0%nat
  ∧ updateCounter (world st') = Some (c + Z.of_nat (length calls))
  ∧ ∀ l, selectionOf (mgr st) l ⊆ selectionOf (mgr st') l.
Proof.
  intros Hc Hge st'.
  destruct (run_effects_drift calls st c Hc Hge) as (evs & Htr & Hcount & Hcnt & Hsub).
  subst st'. split_and!; [|done|done].
  by rewrite (new_events_app _ _ _ Htr).
Qed.

(** The outline render raises in the update that counts 2; the two
    updates after it count 3 and 4 and clean nothing. *)
Lemma cleanup_never_resumes_witness :
  let m := mk {[ 10 := {[ 1%nat; 3%nat ]} ]} 10 None false (Number_of_Z 1) (px 1 1) (px 1 1) in
  let w := mkWorld None None (Some 1) Undefined None 1 [] in
  let a := SharedOutlineEffect.mk {[ 1%nat ]} 10 false in
  let b := SharedOutlineEffect.mk {[ 2%nat ]} 11 false in
  let st := snd (SharedOutlineEffect.update (mkEnv 1000 false false true false) b (mkSt m w)) in
  let st' := SharedOutlineEffect.run_effects
               [(mkEnv 1016 false false false false, a);
                (mkEnv 1017 false false false false, b)] st in
  updateCounter (world st) = Some 2
  ∧ count is_clearUnused (new_events (world st) (world st')) = 0%nat
  ∧ updateCounter (world st') = Some 4.
Proof.
  intros m w a b st st'.
  assert (updateCounter (world st) = Some 2) as Hc by (vm_compute; reflexivity).
  split; [exact Hc|].
  destruct (cleanup_never_resumes
              [(mkEnv 1016 false false false false, a);
               (mkEnv 1017 false false false false, b)] st 2 Hc) as (H1 & H2 & _); [lia|].
  split; [exact H1|exact H2].
Defined.

(** X10.  Setting [selectionLayer] keeps the consumer's objects, moves the
    consumer to the new layer and asks the manager for an update, without
    touching the manager's selections.  After the consumer's next
    [update] its objects are registered on the new layer, and those that
    were registered on another layer are still registered there: changing
    the layer does not take the objects off the old one. *)
Theorem set_selectionLayer_keeps_registration (value : Z) (env : Env)
  (e : SharedOutlineEffect.t) (st : OutlineManager.St) (l : Z) (o : Obj) :
  l ≠ value →
  o ∈ SharedOutlineEffect.selection e → o ∈ selectionOf (mgr st) l →
  ∃ e' st1,
    SharedOutlineEffect.set_selectionLayer value e st = (Normal e', st1)
    ∧ SharedOutlineEffect.selection e' = SharedOutlineEffect.selection e
    ∧ SharedOutlineEffect._selectionLayer e' = value
    ∧ needsUpdate (mgr st1) = true
    ∧ selectionsByLayer (mgr st1) = selectionsByLayer (mgr st)
    ∧ o ∈ selectionOf (mgr (snd (SharedOutlineEffect.update env e' st1))) value
    ∧ o ∈ selectionOf (mgr (snd (SharedOutlineEffect.update env e' st1))) l.
Proof.
  intros Hne Ho Hl. destruct st as [m w].
  eexists _, _. split; [reflexivity|]. simpl.
  split_and!; try done.
  - match goal with |- context [SharedOutlineEffect.update ?ev ?x ?s] =>
      destruct (effect_update_summary ev x (mgr s) (world s)) as (Hsel & _)
    end.
    simpl in Hsel. rewrite Hsel.
    rewrite (bool_decide_eq_false_2 (value ≠ value)) by (intros H; by apply H).
    rewrite andb_false_r, decide_True by done. set_solver.
  - match goal with |- context [SharedOutlineEffect.update ?ev ?x ?s] =>
      destruct (effect_update_summary ev x (mgr s) (world s)) as (Hsel & _)
    end.
    simpl in Hsel. rewrite Hsel.
    rewrite decide_False by done.
    change (selectionOf (setNeedsUpdate m) l) with (selectionOf m l).
    simpl in Hl. case_match; set_solver.
Qed.

(** A consumer with object 1 moves from layer 10 to layer 12. *)
Lemma set_selectionLayer_keeps_registration_witness :
  let m := mk {[ 10 := {[ 1%nat ]} ]} 10 None false (Number_of_Z 1) (px 1 1) (px 1 1) in
  let w := mkWorld None None None Undefined None 1 [] in
  let e := SharedOutlineEffect.mk {[ 1%nat ]} 10 false in
  let env := mkEnv 1000 false false false false in
  ∃ e' st1,
    SharedOutlineEffect.set_selectionLayer 12 e (mkSt m w) = (Normal e', st1)
    ∧ 1%nat ∈ selectionOf (mgr (snd (SharedOutlineEffect.update env e' st1))) 12
    ∧ 1%nat ∈ selectionOf (mgr (snd (SharedOutlineEffect.update env e' st1))) 10.
Proof.
  intros m w e env.
  destruct (set_selectionLayer_keeps_registration 12 env e (mkSt m w) 10 1%nat)
    as (e' & st1 & H & _ & _ & _ & _ & H12 & H10).
  - done.
  - simpl. set_solver.
  - unfold selectionOf. simpl. rewrite lookup_singleton_eq. simpl. set_solver.
  - exists e', st1. done.
Defined.

(** X11.  A consumer whose selection is empty draws nothing and does not
    call the manager's [update]; its [update] cannot raise.  It still
    makes its layer the current one and takes part in the counting: when
    its call is the one that counts 2, it runs the cleanup with the active
    objects collected so far. *)
Theorem update_with_empty_selection (env : Env) (e : SharedOutlineEffect.t)
  (m : OutlineManager.t) (w : World) :
  SharedOutlineEffect.selection e = ∅ →
  let r := SharedOutlineEffect.update env e (mkSt m w) in
  let counter := Z.succ (default 0 (updateCounter w)) in
  let layer := SharedOutlineEffect._selectionLayer e in
  fst r = Normal tt
  ∧ new_events w (world (snd r))
    = (if bool_decide (counter = 2)
       then [EvClearUnused (default ∅ (activeObjects w)) layer]
       else [])
  ∧ currentLayer (mgr (snd r)) = Some layer
  ∧ updateCounter (world (snd r)) = Some (if bool_decide (counter = 2) then 0 else counter).
Proof.
  intros Hsel r counter layer. subst r counter layer.
  destruct w as [tok act cnt scl bg cm tr].
  unfold SharedOutlineEffect.update, call_clearUnused, on_world, on_mgr.
  unfold_js. rewrite Hsel.
  rewrite (bool_decide_eq_false_2 (∅ ≠ ∅)) by (intros H; by apply H).
  destruct cnt as [c|], act as [a|], scl as [| |l0]; simpl.
  all: repeat (case_step; simpl); decide_hyps; simplify_eq.
  all: try (exfalso; congruence).
  all: rewrite ?clearUnused_currentLayer; simpl.
  all: split_and!; try done.
  all: try (unfold new_events; simpl; by rewrite ?drop_all, ?drop_app_length).
Qed.

(** The second consumer of a cycle has nothing selected. *)
Lemma update_with_empty_selection_witness :
  let m := mk {[ 10 := {[ 1%nat ]} ]} 10 None false (Number_of_Z 1) (px 1 1) (px 1 1) in
  let w := mkWorld None (Some {[ 1%nat ]}) (Some 1) Undefined None 1 [] in
  let e := SharedOutlineEffect.mk ∅ 11 true in
  let r := SharedOutlineEffect.update (mkEnv 1000 true true true true) e (mkSt m w) in
  fst r = Normal tt
  ∧ new_events w (world (snd r)) = [EvClearUnused {[ 1%nat ]} 11].
Proof.
  intros m w e r.
  destruct (update_with_empty_selection (mkEnv 1000 true true true true) e m w)
    as (H1 & H2 & _); [reflexivity|].
  split; [exact H1|exact H2].
Defined.

End EffectMore.

(** ** EffectComposer: emptying the list, rendering to screen, round trips *)

Module ComposerMore.

Import Composer.
Import ComposerFacts.

Lemma rendersToScreen_alter f i h j :
  (∀ p, renderToScreen (f p) = renderToScreen p) →
  rendersToScreen (alter f i h) j = rendersToScreen h j.
Proof.
  intros Hf. unfold rendersToScreen. rewrite lookup_alter. case_decide; [subst|done].
  destruct (h !! j); simpl; [apply Hf|done].
Qed.

Lemma rendersToScreen_set v i h j :
  rendersToScreen (alter (set_renderToScreen v) i h) j
  = if decide (i = j) then (if h !! j is Some _ then v else false)
    else rendersToScreen h j.
Proof.
  unfold rendersToScreen. rewrite lookup_alter. case_decide; [subst|done].
  by destruct (h !! j).
Qed.

Lemma rendersToScreen_setDepthTextureOn t ids h j :
  rendersToScreen (setDepthTextureOn t ids h) j = rendersToScreen h j.
Proof.
  induction ids as [|i ids IH]; simpl; [done|].
  by rewrite rendersToScreen_alter.
Qed.

(** X12.  [removeAllPasses()] on a composer in any state it can reach:
    the call returns, the list is empty and the composer holds no depth
    texture.  If it held one, that texture is disposed and every pass
    that was on the list was handed [null].  With [autoRenderToScreen] on,
    the pass that was last no longer renders to screen.  The class and the
    flags [enabled], [needsSwap] and [needsDepthTexture] of every pass
    are as before, and the composer is as good as new: what holds between
    calls holds again. *)
Theorem removeAllPasses_releases (s : St) :
  reachable s →
  let s' := snd (removeAllPasses s) in
  fst (removeAllPasses s) = Normal tt
  ∧ passes s' = [] ∧ depthTexture s' = None
  ∧ (∀ t, depthTexture s = Some t →
          t ∈ disposed s' ∧ ∀ id, id ∈ passes s → holds (heap s') id = None)
  ∧ (autoRenderToScreen s = true →
     ∀ id, last (passes s) = Some id → rendersToScreen (heap s') id = false)
  ∧ (∀ id, contract <$> heap s' !! id = contract <$> heap s !! id)
  ∧ Inv s'.
Proof.
  intros HI%reachable_Inv s'. subst s'.
  pose proof (Inv_empty_list s HI) as Hempty.
  destruct HI as [Hheap Hneed Hprop Hbuf Hlive Hcur Hdisp].
  assert (passes s ≠ [] →
          (0 <? length (passes s))%nat = true ∧ ∃ y, last (passes s) = Some y) as Hlast.
  { intros Hne. destruct (passes s) as [|x l] eqn:Hp; [done|]. split; [done|].
    destruct (last (x :: l)) eqn:E; [by eexists|]. by apply last_None in E. }
  unfold removeAllPasses, deleteDepthTexture, setDepthTextureAll,
    set_last_renderToScreen, on_pass.
  unfold_js.
  destruct (depthTexture s) as [t|] eqn:Ht; simpl.
  - destruct Hlast as (Hlen & y & Hy); [intros Hp; by specialize (Hempty Hp)|].
    rewrite Hlen, Hy.
    assert (Inv_after : ∀ h a,
      Inv (mkSt (renderer s) (inputBuffer s) (outputBuffer s) None None [] a
             (_useMRT s) (_mrtRenderPass s) (_sharedDepthPass s) (stencilTest s)
             h (texNext s) ({[t]} ∪ disposed s) (calls s) (depthClears s))).
    { intros h a. apply Inv_no_passes; simpl; [done|done|done| |].
      - intros t' Hlt. destruct (Hlive t' Hlt) as [?|[= ->]]; set_solver.
      - intros t' [->%elem_of_singleton|Hd]%elem_of_union;
          [by destruct (Hcur t eq_refl)|by apply Hdisp]. }
    simpl. rewrite ?Hlen. simpl.
    destruct (autoRenderToScreen s) eqn:Ha; simpl; rewrite ?Hy; simpl.
    + split_and!.
      * done.
      * done.
      * done.
      * intros t' [= <-]. split; [set_solver|]. intros id Hid.
        rewrite holds_alter by done.
        by apply holds_setDepthTextureOn_None.
      * intros _ id [= <-]. rewrite rendersToScreen_set, decide_True by done.
        by case_match.
      * intros id. rewrite contract_alter by done. apply contract_setDepthTextureOn.
      * apply Inv_after.
    + split_and!.
      * done.
      * done.
      * done.
      * intros t' [= <-]. split; [set_solver|]. intros id Hid.
        by apply holds_setDepthTextureOn_None.
      * done.
      * intros id. apply contract_setDepthTextureOn.
      * apply Inv_after.
  - assert (Inv_after : ∀ h a,
      Inv (mkSt (renderer s) (inputBuffer s) (outputBuffer s)
             (inputBufferDepthTexture s) (depthTexture s) [] a
             (_useMRT s) (_mrtRenderPass s) (_sharedDepthPass s) (stencilTest s)
             h (texNext s) (disposed s) (calls s) (depthClears s))).
    { intros h a. apply Inv_no_passes; simpl; [done|done|by rewrite Hbuf| |done].
      intros t' Hlt. by destruct (Hlive t' Hlt). }
    destruct (decide (passes s = [])) as [Hp|Hp].
    + rewrite Hp. simpl. split_and!; [done|done|done|done|done|done|].
      destruct s; simpl in *. subst. apply Inv_after.
    + destruct (Hlast Hp) as (Hlen & y & Hy).
      simpl. rewrite ?Hlen. simpl.
      destruct (autoRenderToScreen s) eqn:Ha; simpl; rewrite ?Hy; simpl.
      * split_and!; [done|done|done|done| | |].
        -- intros _ id [= <-]. rewrite rendersToScreen_set, decide_True by done.
           by case_match.
        -- intros id. by rewrite contract_alter.
        -- destruct s; simpl in *. subst. apply Inv_after.
      * split_and!; [done|done|done|done|done|done|].
        destruct s; simpl in *. subst. apply Inv_after.
Qed.

(** A RenderPass and a depth-reading EffectPass were added. *)
Lemma removeAllPasses_releases_witness :
  let s := snd (addPass sample_platform 1 None
                  (snd (addPass sample_platform 0 None (sample_composer false)))) in
  reachable s
  ∧ passes s = [0%nat; 1%nat] ∧ depthTexture s = Some 0%nat
  ∧ fst (removeAllPasses s) = Normal tt
  ∧ passes (snd (removeAllPasses s)) = []
  ∧ depthTexture (snd (removeAllPasses s)) = None.
Proof.
  intros s.
  assert (reachable s) as Hreach.
  { apply reach_addPass, reach_addPass, reach_new; reflexivity. }
  destruct (removeAllPasses_releases s Hreach) as (H1 & H2 & H3 & _).
  split_and!; [exact Hreach|vm_compute; reflexivity|vm_compute; reflexivity
              |exact H1|exact H2|exact H3].
Defined.

Lemma rendersToScreen_lookup h id p :
  h !! id = Some p → rendersToScreen h id = renderToScreen p.
Proof. unfold rendersToScreen. by intros ->. Qed.

Lemma last_insert_pass index pass l y :
  last (insert_pass index pass l) = Some y → y = pass ∨ y ∈ l.
Proof.
  intros Hy. apply last_Some_elem_of in Hy.
  apply elem_of_insert_pass in Hy. tauto.
Qed.

Ltac screen_norm :=
  repeat first
    [ rewrite rendersToScreen_setDepthTextureOn
    | rewrite rendersToScreen_set
    | rewrite rendersToScreen_alter by done ].

(** Which passes render to screen once [addPass] has put [pass] on the
    list, in terms of what was the case before. *)
Lemma insertPass_screen pass index s r p :
  renderer s = Some r → heap s !! pass = Some p →
  (∀ id, id ∈ passes s → is_Some (heap s !! id)) →
  let was := λ id, if autoRenderToScreen s && bool_decide (last (passes s) = Some id)
                   then false else rendersToScreen (heap s) id in
  ∃ s',
    insertPass pass index s = (Normal tt, s')
    ∧ passes s' = insert_pass index pass (passes s)
    ∧ _useMRT s' = _useMRT s
    ∧ autoRenderToScreen s' = autoRenderToScreen s && negb (was pass)
    ∧ ∀ id, rendersToScreen (heap s') id
            = if autoRenderToScreen s' && bool_decide (last (passes s') = Some id)
              then true else was id.
Proof.
  intros Hr Hp Hheap was. subst was.
  assert (∀ y, last (insert_pass index pass (passes s)) = Some y →
               is_Some (heap s !! y)) as Hnew.
  { intros y [->|Hy]%last_insert_pass; [by rewrite Hp|by apply Hheap]. }
  assert (∀ y, last (passes s) = Some y → is_Some (heap s !! y)) as Hold.
  { intros y Hy. by apply Hheap, last_Some_elem_of. }
  pose proof (rendersToScreen_lookup _ _ _ Hp) as Hrp.
  assert (is_Some (heap s !! pass)) as Hobj by (by rewrite Hp).
  unfold insertPass, createDepthTexture, setDepthTextureAll, set_last_renderToScreen,
    the_pass, on_pass.
  unfold_js. rewrite Hr. simpl.
  pose proof (insert_pass_nonempty index pass (passes s)) as Hlast.
  repeat (case_step; simpl); decide_hyps; simplify_eq.
  all: repeat match goal with
       | H : @lookup _ _ (gmap nat Pass) _ _ _ = None |- _ =>
           exfalso; apply eq_None_not_Some in H; apply H; heap_simpl; by rewrite Hp
       | H : last ?l = None, H' : (0 <? length ?l)%nat = true |- _ =>
           exfalso; apply last_None in H; rewrite H in H'; done
       | H : last (insert_pass _ _ _) = None |- _ => exfalso; by apply Hlast
       end.
  all: repeat match goal with
       | H : @lookup _ _ (gmap nat Pass) _ _ _ = Some _ |- _ =>
           apply rendersToScreen_lookup in H; revert H; screen_norm; intros H
       end.
  all: repeat match goal with
       | H1 : renderToScreen ?q = _, H2 : _ = renderToScreen ?q |- _ => rewrite H1 in H2
       end.
  all: eexists; (split; [reflexivity|]); simpl.
  all: repeat match goal with
         | H : autoRenderToScreen _ = _ |- _ => rewrite !H
         | H : last _ = _ |- _ => rewrite !H
         | H : (0 <? _)%nat = false |- _ =>
             apply Nat.ltb_ge in H; apply Nat.le_0_r, length_zero_iff_nil in H;
             rewrite ?H in *
         end; simpl.
  all: split_and!; [done|done| |intros id; screen_norm].
  all: repeat (first [case_decide | case_bool_decide | case_match]; simplify_eq; simpl in * );
    try done; try congruence.
  all: try (exfalso;
    match goal with
    | H : @lookup _ _ (gmap nat Pass) _ _ _ = None |- _ =>
        apply eq_None_not_Some in H; apply H; heap_simpl;
        first [ exact Hobj | by apply Hold | by apply Hnew ]
    end).
  all: repeat match goal with
         | H : rendersToScreen _ _ = true |- _ => rewrite H
         | H : rendersToScreen _ _ = false |- _ => rewrite H
         end; try done.
Qed.

Lemma removePass_screen pass s :
  (∀ id, id ∈ passes s → is_Some (heap s !! id)) →
  ∃ s',
    removePass pass s = (Normal tt, s')
    ∧ _useMRT s' = _useMRT s
    ∧ autoRenderToScreen s' = autoRenderToScreen s
    ∧ match list_find (λ x, x = pass) (passes s) with
      | None => s' = s
      | Some (i, _) =>
          passes s' = delete i (passes s)
          ∧ ∀ id, rendersToScreen (heap s') id
                  = if autoRenderToScreen s && (i =? length (passes s'))%nat
                    then (if bool_decide (last (passes s') = Some id) then true
                          else if bool_decide (id = pass) then false
                          else rendersToScreen (heap s) id)
                    else rendersToScreen (heap s) id
      end.
Proof.
  intros Hheap.
  unfold removePass, deleteDepthTexture, setDepthTextureAll, set_last_renderToScreen,
    the_pass, on_pass.
  unfold_js.
  destruct (list_find (λ x, x = pass) (passes s)) as [[i x]|] eqn:Hfind; simpl;
    [|by eexists].
  apply list_find_Some in Hfind as (Hi & -> & Hfirst).
  assert (is_Some (heap s !! pass)) as Hobj.
  { apply Hheap. by eapply list_elem_of_lookup_2. }
  assert (∀ y, last (delete i (passes s)) = Some y → is_Some (heap s !! y)) as Hnew.
  { intros y Hy%last_Some_elem_of. by eapply Hheap, list_elem_of_delete_inv. }
  repeat (case_step; simpl); decide_hyps; simplify_eq.
  all: repeat match goal with
       | H : @lookup _ _ (gmap nat Pass) _ _ _ = None |- _ =>
           exfalso; apply eq_None_not_Some in H; apply H; heap_simpl; exact Hobj
       | H : last ?l = None, H' : (0 <? length ?l)%nat = true |- _ =>
           exfalso; apply last_None in H; rewrite H in H'; done
       end.
  all: eexists; (split; [reflexivity|]); simpl.
  all: repeat match goal with
         | H : autoRenderToScreen _ = _ |- _ => rewrite !H
         | H : last _ = _ |- _ => rewrite !H
         | H : (_ =? _)%nat = _ |- _ => rewrite !H
         end; simpl.
  all: split_and!; [done|done|done|intros id; screen_norm].
  all: repeat (first [case_decide | case_bool_decide | case_match]; simplify_eq; simpl in * );
    try done; try congruence.
  all: try (exfalso;
    match goal with
    | H : @lookup _ _ (gmap nat Pass) _ _ _ = None |- _ =>
        apply eq_None_not_Some in H; apply H; heap_simpl;
        first [ exact Hobj | by apply Hnew ]
    | H : last ?l = Some _, H' : (0 <? length ?l)%nat = false |- _ =>
        apply Nat.ltb_ge in H'; apply Nat.le_0_r, length_zero_iff_nil in H';
        rewrite H' in H; discriminate
    end).
Qed.

Lemma insertPass_useMRT pass index s :
  _useMRT (snd (insertPass pass index s)) = _useMRT s.
Proof.
  unfold insertPass, createDepthTexture, setDepthTextureAll, set_last_renderToScreen,
    the_pass, on_pass.
  unfold_js. repeat (case_step; simpl); done.
Qed.

Lemma substitutePass_unsupported plat p s :
  _useMRT s = false → substitutePass plat p s = (Normal false, s).
Proof. intros Hu. unfold substitutePass. unfold_js. by rewrite Hu. Qed.

Lemma addPass_useMRT plat pass index s :
  _useMRT (snd (addPass plat pass index s)) = _useMRT s.
Proof.
  unfold addPass, the_pass, substitutePass. unfold_js.
  destruct (heap s !! pass) as [p|]; simpl; [|done].
  destruct (setMRTRenderPass_spec plat s)
    as (s1 & Hset & _ & _ & _ & _ & _ & _ & _ & Hu & _).
  destruct (_useMRT s && (length (passes s) =? 0)%nat && bool_decide (cls p = RenderPass));
    simpl; [|apply insertPass_useMRT].
  rewrite Hset.
  destruct (_useMRT s && negb (ctorThrows plat) && bool_decide (renderer s ≠ None)
            && substitute_initialize plat s && negb (sharedDepthThrows plat)); simpl.
  - destruct (renderer s); simpl; done.
  - by rewrite insertPass_useMRT.
Qed.

Lemma last_delete_last {A} (l : list A) i x :
  l !! i = Some x → i = length (delete i l) → last l = Some x.
Proof.
  intros Hi Hlen. pose proof (lookup_lt_Some _ _ _ Hi) as Hlt.
  rewrite length_delete in Hlen by (by eexists).
  rewrite last_lookup. replace (pred (length l)) with i by lia. done.
Qed.

Lemma last_delete_inner {A} (l : list A) i :
  (i < length l)%nat → i ≠ length (delete i l) → last (delete i l) = last l.
Proof.
  intros Hlt Hne. pose proof (lookup_lt_is_Some_2 _ _ Hlt) as Hs.
  rewrite length_delete in Hne by done.
  rewrite !last_lookup, length_delete by done.
  rewrite list_lookup_delete_ge by lia. f_equal. lia.
Qed.

Lemma addPass_lastRendersToScreen plat pass index s :
  (∀ id, id ∈ passes s → is_Some (heap s !! id)) →
  _useMRT s = false → lastRendersToScreen s →
  lastRendersToScreen (snd (addPass plat pass index s)).
Proof.
  intros Hheap Hu HI. unfold addPass, the_pass. unfold_js.
  destruct (heap s !! pass) as [p|] eqn:Hp; simpl; [|done].
  rewrite substitutePass_unsupported by done.
  destruct (renderer s) as [r|] eqn:Hr.
  2:{ unfold insertPass. unfold_js. by rewrite Hr. }
  destruct (insertPass_screen pass index s r p Hr Hp Hheap)
    as (s' & -> & Hpasses & _ & Hauto & Hrts).
  simpl. intros Ha id Hid.
  rewrite Ha in Hauto. symmetry in Hauto.
  apply andb_true_iff in Hauto as [Has Hwas]. apply negb_true_iff in Hwas.
  rewrite Has in Hwas. rewrite Hrts, Ha, Has. simpl in *.
  destruct (bool_decide_reflect (last (passes s') = Some id)) as [Hl|Hl]; [by split|].
  split; [|done]. intros Htrue. exfalso.
  rewrite Hpasses in Hid. apply elem_of_insert_pass in Hid as [->|Hid].
  - congruence.
  - destruct (bool_decide_reflect (last (passes s) = Some id)) as [Hl'|Hl']; [done|].
    apply Hl'. by apply HI.
Qed.

Lemma removePass_lastRendersToScreen pass s :
  (∀ id, id ∈ passes s → is_Some (heap s !! id)) →
  lastRendersToScreen s → lastRendersToScreen (snd (removePass pass s)).
Proof.
  intros Hheap HI.
  destruct (removePass_screen pass s Hheap) as (s' & -> & _ & Hauto & Hcase). simpl.
  destruct (list_find (λ x, x = pass) (passes s)) as [[i x]|] eqn:Hfind;
    [|by subst].
  apply list_find_Some in Hfind as (Hi & -> & _).
  destruct Hcase as [Hpasses Hrts].
  intros Ha id Hid. rewrite Hauto in Ha.
  rewrite Hrts, Ha, Hpasses in *. simpl.
  assert (id ∈ passes s) as Hin by (by eapply list_elem_of_delete_inv).
  destruct (i =? length (delete i (passes s)))%nat eqn:Hlen.
  - apply Nat.eqb_eq in Hlen.
    pose proof (last_delete_last _ _ _ Hi Hlen) as Hl.
    destruct (bool_decide_reflect (last (delete i (passes s)) = Some id)); [by split|].
    split; [|done]. intros Htrue. exfalso.
    destruct (bool_decide_reflect (id = pass)); [done|].
    apply (HI Ha id Hin) in Htrue. congruence.
  - apply Nat.eqb_neq in Hlen.
    rewrite last_delete_inner; [by apply HI|by eapply lookup_lt_Some|done].
Qed.

(** X13.  As long as no multi-target support was detected, a composer
    with [autoRenderToScreen] on has, in every state it can reach through
    [addPass] and [removePass], exactly one pass on its list that renders
    to screen: the last one. *)
Theorem last_pass_renders_to_screen (s : St) (id : nat) :
  reachable s → _useMRT s = false → autoRenderToScreen s = true →
  id ∈ passes s →
  (rendersToScreen (heap s) id = true ↔ last (passes s) = Some id).
Proof.
  intros Hreach Hu Ha Hid.
  cut (_useMRT s = false → lastRendersToScreen s); [intros H; by apply H|].
  clear Hu Ha Hid id.
  induction Hreach as [s Hp|s id0 p Hreach IH Hfresh|s plat pass index Hreach IH
                      |s pass Hreach IH].
  - intros _ _ id. rewrite Hp. by intros []%elem_of_nil.
  - intros Hu Ha id Hid. simpl in *.
    pose proof (inv_heap _ (reachable_Inv _ Hreach) id Hid) as [q Hq].
    unfold rendersToScreen. rewrite lookup_insert_ne by congruence.
    by apply IH.
  - intros Hu. rewrite addPass_useMRT in Hu.
    apply addPass_lastRendersToScreen; [apply (reachable_Inv _ Hreach)|done|by apply IH].
  - intros Hu.
    pose proof (inv_heap _ (reachable_Inv _ Hreach)) as Hheap.
    destruct (removePass_screen pass s Hheap) as (s' & Heq & Hu' & _).
    rewrite Heq in Hu. simpl in Hu. rewrite Hu' in Hu.
    apply removePass_lastRendersToScreen; [done|by apply IH].
Qed.

(** Three passes were added and the last one removed again: the second
    pass renders to screen, the first does not. *)
Lemma last_pass_renders_to_screen_witness :
  let s := snd (removePass 2
             (snd (addPass sample_platform 2 None
                (snd (addPass sample_platform 1 None
                   (snd (addPass sample_platform 0 None (sample_composer false)))))))) in
  passes s = [0%nat; 1%nat]
  ∧ (rendersToScreen (heap s) 1 = true ↔ last (passes s) = Some 1%nat)
  ∧ (rendersToScreen (heap s) 0 = true ↔ last (passes s) = Some 0%nat).
Proof.
  intros s.
  assert (reachable s) as Hreach.
  { apply reach_removePass, reach_addPass, reach_addPass, reach_addPass, reach_new;
      reflexivity. }
  assert (passes s = [0%nat; 1%nat]) as Hp by (vm_compute; reflexivity).
  split_and!; [exact Hp| |].
  - apply (last_pass_renders_to_screen s 1 Hreach);
      [vm_compute; reflexivity|vm_compute; reflexivity|].
    rewrite Hp. apply list_elem_of_further, list_elem_of_here.
  - apply (last_pass_renders_to_screen s 0 Hreach);
      [vm_compute; reflexivity|vm_compute; reflexivity|].
    rewrite Hp. apply list_elem_of_here.
Defined.

Lemma insertPass_keeps_texture pass index s t :
  depthTexture s = Some t → depthTexture (snd (insertPass pass index s)) = Some t.
Proof.
  intros Ht.
  unfold insertPass, createDepthTexture, setDepthTextureAll, set_last_renderToScreen,
    the_pass, on_pass.
  unfold_js. repeat (case_step; simpl); simpl in *; congruence.
Qed.

Lemma removePass_texture pass s :
  depthTexture (snd (removePass pass s)) = depthTexture s
  ∨ depthTexture (snd (removePass pass s)) = None.
Proof.
  unfold removePass, deleteDepthTexture, setDepthTextureAll, set_last_renderToScreen,
    the_pass, on_pass.
  unfold_js.
  destruct (list_find (λ x, x = pass) (passes s)) as [[index x]|]; simpl; [|by left].
  repeat (case_step; simpl); simpl in *; auto.
Qed.

Lemma list_find_insert_pass index pass l i x :
  pass ∉ l →
  list_find (λ y, y = pass) (insert_pass index pass l) = Some (i, x) →
  delete i (insert_pass index pass l) = l.
Proof.
  intros Hnin Hfind.
  assert (∃ n, (n ≤ length l)%nat ∧ insert_pass index pass l = take n l ++ pass :: drop n l)
    as (n & Hn & Heq).
  { unfold insert_pass. destruct index as [k|].
    - exists (splice_pos (length l) k). split; [|done].
      unfold splice_pos. case_match; lia.
    - exists (length l). split; [done|]. by rewrite firstn_all, drop_all. }
  rewrite Heq in *. clear Heq.
  apply list_find_Some in Hfind as (Hi & -> & Hbefore).
  assert (length (take n l) = n) as Hlen by (rewrite length_take; lia).
  assert (i = n) as ->.
  { destruct (lt_eq_lt_dec i n) as [[Hlt| ->]|Hgt]; [|done|].
    - exfalso. rewrite lookup_app_l in Hi by lia.
      apply Hnin. apply list_elem_of_lookup_2 in Hi.
      revert Hi. rewrite <- (take_drop n l) at 2. set_solver.
    - exfalso. apply (Hbefore n pass); [|done|done].
      rewrite lookup_app_r by lia. by rewrite Hlen, Nat.sub_diag. }
  rewrite <- Hlen at 1. rewrite delete_middle. apply take_drop.
Qed.

(** X14.  Adding a pass that is not yet on the list and removing it again
    gives back the list as it was, wherever the pass was inserted, and the
    composer ends up with the depth texture it had: the same undisposed
    texture if it held one, none if it held none (a texture created for
    the pass alone is disposed with its removal).  The class and the flags
    of every pass are untouched.  This is the case whenever no substitute
    can take the place of the pass. *)
Theorem addPass_removePass_round_trip (plat : Platform) (pass : nat)
  (index : option Z) (s : St) (r : Renderer) :
  reachable s → _useMRT s = false → renderer s = Some r →
  is_Some (heap s !! pass) → pass ∉ passes s →
  let s' := snd (removePass pass (snd (addPass plat pass index s))) in
  fst (addPass plat pass index s) = Normal tt
  ∧ passes s' = passes s
  ∧ (∀ t, depthTexture s = Some t → depthTexture s' = Some t ∧ t ∉ disposed s')
  ∧ (depthTexture s = None → depthTexture s' = None)
  ∧ (∀ id, contract <$> heap s' !! id = contract <$> heap s !! id).
Proof.
  intros Hreach Hu Hr Hobj Hnin s'. subst s'.
  pose proof (reachable_Inv _ Hreach) as HI.
  destruct Hobj as [p Hp].
  destruct (insertPass_spec pass index s r Hr) as (s1 & Hins & Hp1 & Hc1 & HI1);
    [by rewrite Hp|].
  specialize (HI1 HI).
  assert (addPass plat pass index s = (Normal tt, s1)) as ->.
  { unfold addPass, the_pass. unfold_js. rewrite Hp. simpl.
    by rewrite substitutePass_unsupported. }
  pose proof (insertPass_keeps_texture pass index s) as Hkeep.
  rewrite Hins in Hkeep. simpl in *.
  destruct (removePass_screen pass s1 (inv_heap _ HI1)) as (s2 & Hrem & _ & _ & Hcase).
  pose proof (removePass_inv pass s1 HI1) as HI2.
  pose proof (removePass_texture pass s1) as Htex.
  assert (∀ id, contract <$> heap (snd (removePass pass s1)) !! id
                = contract <$> heap s1 !! id) as Hc2.
  { intros id.
    unfold removePass, deleteDepthTexture, setDepthTextureAll, set_last_renderToScreen,
      the_pass, on_pass.
    unfold_js.
    destruct (list_find (λ x, x = pass) (passes s1)) as [[k x]|]; simpl; [|done].
    repeat (case_step; simpl); heap_simpl; done. }
  rewrite Hrem in *. simpl in *.
  destruct (list_find (λ x, x = pass) (passes s1)) as [[i x]|] eqn:Hfind.
  2:{ exfalso. apply list_find_None in Hfind. rewrite Forall_forall in Hfind.
      apply (Hfind pass); [|done]. rewrite Hp1. apply elem_of_insert_pass. by left. }
  destruct Hcase as [Hp2 _]. rewrite Hp1 in Hfind, Hp2.
  rewrite (list_find_insert_pass _ _ _ _ _ Hnin Hfind) in Hp2.
  assert (∀ id, needs (heap s2) id = needs (heap s) id) as Hneeds.
  { intros id. apply needs_of_contract. by rewrite Hc2, Hc1. }
  assert (depthTexture s2 ≠ None ↔ depthTexture s ≠ None) as Hiff.
  { rewrite (inv_need _ HI2), (inv_need _ HI), Hp2.
    by setoid_rewrite Hneeds. }
  split_and!; [done|done| | |].
  - intros t Ht. specialize (Hkeep t Ht).
    assert (depthTexture s2 = Some t) as Ht2.
    { destruct Htex as [Htex|Htex]; [congruence|].
      exfalso. apply Hiff; [congruence|done]. }
    split; [done|]. by apply (inv_cur _ HI2).
  - intros Hnone. destruct (depthTexture s2) eqn:E; [|done].
    exfalso. destruct Hiff as [H1 _]. by apply H1.
  - intros id. by rewrite Hc2, Hc1.
Qed.

(** A depth-reading EffectPass is inserted in front of the RenderPass and
    removed again: the texture created for it is gone with it. *)
Lemma addPass_removePass_round_trip_witness :
  let s := snd (addPass sample_platform 0 None (sample_composer false)) in
  let s' := snd (removePass 1 (snd (addPass sample_platform 1 (Some 0) s))) in
  passes s = [0%nat] ∧ depthTexture s = None
  ∧ passes (snd (addPass sample_platform 1 (Some 0) s)) = [1%nat; 0%nat]
  ∧ passes s' = [0%nat] ∧ depthTexture s' = None.
Proof.
  intros s s'.
  assert (passes s = [0%nat]) as Hp by (vm_compute; reflexivity).
  assert (depthTexture s = None) as Ht by (vm_compute; reflexivity).
  destruct (addPass_removePass_round_trip sample_platform 1 (Some 0) s sample_renderer)
    as (_ & H1 & _ & H2 & _).
  - apply reach_addPass, reach_new; reflexivity.
  - vm_compute. reflexivity.
  - vm_compute. reflexivity.
  - vm_compute. eexists. reflexivity.
  - rewrite Hp. intros Hin%list_elem_of_singleton. discriminate Hin.
  - split_and!; [exact Hp|exact Ht|vm_compute; reflexivity
                |by rewrite <- Hp|by apply H2].
Defined.

(** What [initialize] leaves of the pass object: on success the support
    flags are set and the target has its depth texture, on failure there
    is no target; [renderToScreen] and the size are not touched. *)
Lemma MRT_initialize_fields plat id s r p :
  renderer s = Some r → heap s !! id = Some p → renderTargetMRT p = None →
  let ok := isWebGL2 r && probe_ok (initAlloc plat) && target_ok (targetAlloc plat) in
  ∃ p',
    MRT_initialize plat id s = (Normal ok, set_heap (<[id := p']> (heap s)) s)
    ∧ renderToScreen p' = renderToScreen p ∧ size p' = size p
    ∧ (ok = true → isWebGL2Supported p' = true ∧ isMRTSupported p' = true
                   ∧ mrt_depthTexture p' = true)
    ∧ (ok = false → renderTargetMRT p' = None).
Proof.
  intros Hr Hp Hrt.
  unfold MRT_initialize, createRenderTargets, the_pass, on_pass, probe_ok, target_ok,
    mrt_depthTexture.
  unfold_js. rewrite Hr. simpl.
  destruct (isWebGL2 r) eqn:Hgl; simpl.
  2:{ heap_norm Hp. eexists. split; [reflexivity|]. simpl. by rewrite Hrt. }
  destruct (initAlloc plat) as [|[n|]] eqn:Hia; simpl; heap_norm Hp.
  1,3: eexists; (split; [reflexivity|]); simpl; by rewrite Hrt.
  rewrite Hrt. simpl.
  destruct (targetAlloc plat) as [|[k|]] eqn:Hta; simpl; heap_norm Hp.
  1,3: eexists; (split; [reflexivity|]); simpl; done.
  destruct k as [|[|k]]; simpl; heap_norm Hp.
  all: eexists; (split; [reflexivity|]); simpl; done.
Qed.

(** What a successful [setMRTRenderPass] leaves behind. *)
Lemma setMRTRenderPass_fields plat s r :
  renderer s = Some r →
  _useMRT s && negb (ctorThrows plat) && substitute_initialize plat s
    && negb (sharedDepthThrows plat) = true →
  let mid := fst (with_substitute s) in
  ∃ q, heap (snd (setMRTRenderPass plat s)) !! mid = Some q
       ∧ renderToScreen q = renderToScreen new_MRTRenderPass
       ∧ size q = None
       ∧ mrt_depthTexture q = true
       ∧ _mrtRenderPass (snd (setMRTRenderPass plat s)) = Some mid
       ∧ _sharedDepthPass (snd (setMRTRenderPass plat s))
         = (if sharedDepthTexture plat then Some (mkSharedDepth true) else None).
Proof.
  intros Hr Hsub.
  apply andb_true_iff in Hsub as [[[Hu Hc%negb_true_iff]%andb_true_iff Hi]%andb_true_iff
                                  Hsd%negb_true_iff].
  revert Hi.
  unfold setMRTRenderPass, substitute_initialize, with_substitute.
  unfold_js. cbv zeta. simpl.
  generalize (fresh (dom (heap s))). intros id.
  rewrite Hu, Hc, Hr. simpl.
  destruct (MRT_initialize_fields plat id
              (set_mrtRenderPass (Some id)
                 (set_heap (<[id:=new_MRTRenderPass]> (heap s)) s)) r new_MRTRenderPass)
    as (p' & Hinit & Hrts & Hsize & Hok & _);
    [exact Hr|simpl; apply lookup_insert_eq|reflexivity|].
  simpl in Hinit. rewrite Hinit. simpl. rewrite insert_insert_eq.
  intros Hi. rewrite Hi in *. simpl.
  destruct Hok as (_ & _ & Hmrt); [done|].
  unfold the_pass. unfold_js. simpl. rewrite lookup_insert_eq. simpl.
  rewrite Hmrt, Hsd. simpl.
  destruct (sharedDepthTexture plat); simpl.
  all: exists p'; rewrite lookup_insert_eq; done.
Qed.

(** X15.  When the substitute takes the place of the RenderPass,
    [addPass] returns before it reaches the pass itself: the RenderPass
    object is exactly as it was (neither sized nor initialised), the
    substitute is sized to the drawing buffer, and nobody assigns its
    [renderToScreen]: it keeps the value its constructor gave it although
    it is the last pass of the list, and [autoRenderToScreen] is as
    before. *)
Theorem substitution_bypasses_the_pass (plat : Platform) (pass : nat)
  (index : option Z) (s : St) (r : Renderer) (p : Pass) :
  renderer s = Some r → passes s = [] →
  heap s !! pass = Some p → cls p = RenderPass →
  _useMRT s && negb (ctorThrows plat) && substitute_initialize plat s
    && negb (sharedDepthThrows plat) = true →
  let mid := fst (with_substitute s) in
  let s' := snd (addPass plat pass index s) in
  last (passes s') = Some mid
  ∧ heap s' !! pass = Some p
  ∧ size <$> heap s' !! mid = Some (Some (drawingBufferSize r))
  ∧ renderToScreen <$> heap s' !! mid = Some (renderToScreen new_MRTRenderPass)
  ∧ autoRenderToScreen s' = autoRenderToScreen s
  ∧ _mrtRenderPass s' = Some mid.
Proof.
  intros Hr Hnil Hp Hcls Hsub mid s'. subst s'.
  assert (pass ≠ mid) as Hne by (apply (fresh_not_allocated s); by rewrite Hp).
  destruct (setMRTRenderPass_fields plat s r Hr Hsub) as (q & Hq & Hrts & Hsz & _ & Hm & _).
  destruct (setMRTRenderPass_spec plat s)
    as (s1 & Hset & Hp1 & _ & _ & _ & _ & Hr1 & Ha1 & _ & Hh1 & _).
  fold mid in Hset, Hh1, Hq, Hm.
  rewrite Hset in Hq, Hm. simpl in Hq, Hm.
  unfold addPass, the_pass, substitutePass, on_pass. unfold_js.
  rewrite Hp. simpl. rewrite Hnil, Hcls, Hr. simpl.
  apply andb_true_iff in Hsub as [[[Hu Hc]%andb_true_iff Hi]%andb_true_iff Hsd].
  rewrite Hu, Hc, Hi, Hsd, Hr in *. simpl in *. rewrite Hset. simpl.
  rewrite Hp1, Hnil. simpl.
  rewrite lookup_alter_ne, Hh1 by done.
  rewrite lookup_alter_eq, Hq. simpl.
  rewrite Hrts. done.
Qed.

(** Multi-target support was detected and every allocation succeeds. *)
Lemma substitution_bypasses_the_pass_witness :
  let s := sample_composer true in
  let s' := snd (addPass sample_platform 0 None s) in
  last (passes s') = Some 3%nat
  ∧ heap s' !! 0%nat = Some (sample_pass RenderPass false)
  ∧ autoRenderToScreen s' = true
  ∧ renderToScreen <$> heap s' !! 3%nat = Some false.
Proof.
  intros s s'.
  destruct (substitution_bypasses_the_pass sample_platform 0 None s sample_renderer
              (sample_pass RenderPass false))
    as (H1 & H2 & _ & H3 & H4 & _).
  - reflexivity.
  - reflexivity.
  - vm_compute. reflexivity.
  - reflexivity.
  - vm_compute. reflexivity.
  - split_and!; [exact H1|exact H2|exact H4|exact H3].
Defined.

(** X16.  [initialize] of an MRTRenderPass that has no target yet never
    raises, and it is all or nothing: when it answers [true] the pass has
    both support flags set and a target with a depth texture; when it
    answers [false] the pass has no target - one that was allocated but
    came without its two textures is dropped again.  It answers [true]
    exactly when the renderer is a WebGL 2 renderer, the probe target has
    a [textures] array and the real target has two textures.  No other
    object is touched. *)
Theorem initialize_all_or_nothing (plat : Platform) (id : nat) (s : St)
  (r : Renderer) (p : Pass) :
  renderer s = Some r → heap s !! id = Some p → renderTargetMRT p = None →
  ∃ b p',
    fst (MRT_initialize plat id s) = Normal b
    ∧ heap (snd (MRT_initialize plat id s)) !! id = Some p'
    ∧ (b = true ↔ isWebGL2 r = true ∧ probe_ok (initAlloc plat) = true
                  ∧ target_ok (targetAlloc plat) = true)
    ∧ (b = true → isWebGL2Supported p' = true ∧ isMRTSupported p' = true
                  ∧ mrt_depthTexture p' = true)
    ∧ (b = false → renderTargetMRT p' = None)
    ∧ ∀ j, j ≠ id → heap (snd (MRT_initialize plat id s)) !! j = heap s !! j.
Proof.
  intros Hr Hp Hrt.
  destruct (MRT_initialize_fields plat id s r p Hr Hp Hrt)
    as (p' & -> & _ & _ & Hok & Hfail).
  eexists _, p'. simpl. split_and!; [done|apply lookup_insert_eq| |done|done|].
  - rewrite !andb_true_iff. tauto.
  - intros j Hj. by apply lookup_insert_ne.
Qed.

(** A new MRTRenderPass is initialised where the real target comes back
    with a single texture: the answer is [false] and the target is gone. *)
Lemma initialize_all_or_nothing_witness :
  let plat := mkPlatform (AllocTarget (Some 2%nat)) false (AllocTarget (Some 2%nat))
                (AllocTarget (Some 1%nat)) false true in
  let s := snd (with_substitute (sample_composer true)) in
  ∃ p', fst (MRT_initialize plat 3 s) = Normal false
        ∧ heap (snd (MRT_initialize plat 3 s)) !! 3%nat = Some p'
        ∧ renderTargetMRT p' = None.
Proof.
  intros plat s.
  destruct (initialize_all_or_nothing plat 3 s sample_renderer new_MRTRenderPass)
    as (b & p' & H1 & H2 & H3 & _ & H4 & _).
  - reflexivity.
  - vm_compute. reflexivity.
  - reflexivity.
  - destruct b.
    + destruct H3 as [H3 _]. destruct (H3 eq_refl) as (_ & _ & H5).
      vm_compute in H5. discriminate H5.
    + exists p'. split_and!; [exact H1|exact H2|exact (H4 eq_refl)].
Defined.

(** X17.  [addPass] on a composer that has no renderer raises (reading
    the drawing buffer size of [null]) before the list is touched: the
    list, the depth texture and every existing pass object are exactly as
    before, whatever the pass and the index. *)
Theorem addPass_without_renderer (plat : Platform) (pass : nat)
  (index : option Z) (s : St) :
  renderer s = None → is_Some (heap s !! pass) →
  let s' := snd (addPass plat pass index s) in
  fst (addPass plat pass index s) = Thrown
  ∧ passes s' = passes s ∧ depthTexture s' = depthTexture s
  ∧ autoRenderToScreen s' = autoRenderToScreen s
  ∧ ∀ j, is_Some (heap s !! j) → heap s' !! j = heap s !! j.
Proof.
  intros Hr [p Hp] s'. subst s'.
  unfold addPass, the_pass, substitutePass. unfold_js. rewrite Hp. simpl.
  destruct (_useMRT s && (length (passes s) =? 0)%nat && bool_decide (cls p = RenderPass));
    simpl.
  2:{ by rewrite insertPass_no_renderer. }
  destruct (setMRTRenderPass_spec plat s)
    as (s1 & Hset & Hp1 & Ht1 & _ & _ & _ & Hr1 & Ha1 & _ & Hh1 & _).
  rewrite Hset, Hr. rewrite bool_decide_eq_false_2 by (by intros H; apply H).
  rewrite !andb_false_r. simpl.
  rewrite insertPass_no_renderer by congruence. simpl.
  split_and!; try done.
  intros j Hj. apply Hh1. by apply fresh_not_allocated.
Qed.

(** A composer constructed without renderer. *)
Lemma addPass_without_renderer_witness :
  let s := mkSt None 0 1 None None [] true false None None Undefined sample_heap 0 ∅ [] 0 in
  fst (addPass sample_platform 1 None s) = Thrown
  ∧ passes (snd (addPass sample_platform 1 None s)) = [].
Proof.
  intros s.
  destruct (addPass_without_renderer sample_platform 1 None s) as (H1 & H2 & _).
  - reflexivity.
  - vm_compute. eexists. reflexivity.
  - split; [exact H1|exact H2].
Defined.

End ComposerMore.

(** ** EffectComposer: what a frame hands to the passes *)

Module RenderMore.

Import Composer.
Import ComposerFacts.

Lemma shared_ok_swap loc : shared_ok loc → shared_ok (swap loc).
Proof. by destruct loc. Qed.

Lemma render_step_shared throws skip dpi i id loc s pass :
  heap s !! id = Some pass → shared_ok loc →
  ∃ loc' s' cs,
    render_step throws skip dpi i id loc s = (Normal loc', s')
    ∧ composer_of s' = composer_of s ∧ heap s' = heap s
    ∧ calls s' = calls s ++ cs
    ∧ shared_ok loc'
    ∧ ∀ c sd, c ∈ cs → rc_shared c = Some sd →
              rc_pass c = id ∧ cls pass = EffectPass ∧ sd_texture sd = true.
Proof.
  intros Hp Hok.
  unfold render_step, the_pass, pass_render, _updateSharedDepthPass, the_pass.
  unfold_js. rewrite Hp. simpl.
  destruct (enabled pass); simpl;
    [|by exists loc, s, []; rewrite app_nil_r; split_and!; try done; intros ?? []%elem_of_nil].
  destruct (skip && bool_decide (dpi = Some i)); simpl;
    [by exists loc, s, []; rewrite app_nil_r; split_and!; try done; intros ?? []%elem_of_nil|].
  destruct (bool_decide (cls pass = MRTRenderPass)) eqn:Hmrt; simpl.
  - destruct (_useMRT s) eqn:Hu; simpl;
      [|by exists loc, s, []; rewrite app_nil_r; split_and!; try done;
           intros ?? []%elem_of_nil].
    repeat (case_step; simpl).
    all: do 3 eexists; split; [reflexivity|]; simpl.
    all: split_and!; [done|done|reflexivity| |].
    all: try (intros c sd ->%list_elem_of_singleton; simpl; done).
    all: try exact Hok.
    all: try exact (shared_ok_swap _ Hok).
    all: unfold shared_ok; simpl; intros _; eexists; split; reflexivity.
  - destruct (bool_decide (cls pass = EffectPass)) eqn:Heff; simpl;
      [apply bool_decide_eq_true in Heff|].
    + destruct (l_valid loc) eqn:Hv; simpl.
      * destruct (Hok Hv) as (sd0 & Hsd0 & Htex).
        repeat (case_step; simpl).
        all: do 3 eexists; split; [reflexivity|]; simpl.
        all: split_and!; [done|done|reflexivity|first [exact Hok|exact (shared_ok_swap _ Hok)]|].
        all: intros c sd ->%list_elem_of_singleton; simpl; intros Hsd.
        all: rewrite Hsd0 in Hsd; by simplify_eq.
      * repeat (case_step; simpl).
        all: do 3 eexists; split; [reflexivity|]; simpl.
        all: split_and!; [done|done|reflexivity|first [exact Hok|exact (shared_ok_swap _ Hok)]|].
        all: intros c sd ->%list_elem_of_singleton; simpl; done.
    + repeat (case_step; simpl).
      all: do 3 eexists; split; [reflexivity|]; simpl.
      all: split_and!; [done|done|reflexivity|first [exact Hok|exact (shared_ok_swap _ Hok)]|].
      all: intros c sd ->%list_elem_of_singleton; simpl; done.
Qed.

Lemma render_loop_shared throws skip dpi ids : ∀ i loc s,
  (∀ id, id ∈ ids → is_Some (heap s !! id)) → shared_ok loc →
  ∃ loc' s' cs,
    render_loop throws skip dpi i ids loc s = (Normal loc', s')
    ∧ composer_of s' = composer_of s ∧ heap s' = heap s
    ∧ calls s' = calls s ++ cs
    ∧ ∀ c sd, c ∈ cs → rc_shared c = Some sd →
              rc_pass c ∈ ids
              ∧ cls <$> heap s !! rc_pass c = Some EffectPass
              ∧ sd_texture sd = true.
Proof.
  induction ids as [|id rest IH]; intros i loc s Hheap Hok; simpl.
  - exists loc, s, []. unfold ret. rewrite app_nil_r.
    split_and!; try done. by intros ?? []%elem_of_nil.
  - destruct (Hheap id) as [pass Hp]; [left|].
    destruct (render_step_shared throws skip dpi i id loc s pass Hp Hok)
      as (loc1 & s1 & cs1 & Hstep & Hf1 & Hh1 & Hc1 & Hok1 & Hsh1).
    destruct (IH (S i) loc1 s1) as (loc2 & s2 & cs2 & Hloop & Hf2 & Hh2 & Hc2 & Hsh2).
    { intros id' Hid'. rewrite Hh1. apply Hheap. by right. }
    { exact Hok1. }
    exists loc2, s2, (cs1 ++ cs2).
    unfold bind. rewrite Hstep, Hloop.
    split_and!; [done|congruence|congruence|by rewrite Hc2, Hc1, app_assoc|].
    intros c sd [Hc|Hc]%elem_of_app Hsd.
    + destruct (Hsh1 c sd Hc Hsd) as (-> & Hcls & Htex).
      split_and!; [by left|by rewrite Hp; simpl; rewrite Hcls|done].
    + destruct (Hsh2 c sd Hc Hsd) as (Hin & Hcls & Htex).
      split_and!; [by right|by rewrite <- Hh1|done].
Qed.

(** X18.  One frame of a composer whose listed passes are objects: the
    only passes handed the shared depth pass are EffectPasses of the list,
    and they are handed one that has a texture.  Of the composer's own
    fields [render] assigns the stencil flag and the shared depth pass
    only: the list, the two buffers (they are swapped in local variables
    only), the depth texture and the references to the renderer and to
    the substitute are as before. *)
Theorem render_shares_depth_with_effects (throws : nat → bool) (s : St) :
  (∀ id, id ∈ passes s → is_Some (heap s !! id)) →
  let s' := snd (render throws s) in
  composer_of s' = composer_of s
  ∧ ∀ c sd, c ∈ new_calls s s' → rc_shared c = Some sd →
            rc_pass c ∈ passes s
            ∧ cls <$> heap s !! rc_pass c = Some EffectPass
            ∧ sd_texture sd = true.
Proof.
  intros Hheap s'. subst s'. unfold render, new_calls. unfold_js.
  destruct (renderer s) eqn:Hr; simpl.
  - destruct (render_loop_shared throws (skipDepthPass s) (find_depthPassIndex s)
                (passes s) 0
                (mkLocals (inputBuffer s) (outputBuffer s) (_sharedDepthPass s)
                   (validSharedDepth s)) s Hheap)
      as (loc' & s' & cs & Hloop & Hf & _ & Hc & Hsh).
    { unfold shared_ok, validSharedDepth. simpl.
      destruct (_sharedDepthPass s) as [sd|]; [|done]. intros ?. by exists sd. }
    rewrite Hloop. simpl. rewrite Hc, drop_app_length. done.
  - rewrite drop_all. split; [done|]. by intros ?? []%elem_of_nil.
Qed.

(** The substitute and a depth-reading EffectPass are on the list: the EffectPass, and nobody else, is handed the shared
    depth pass. *)
Lemma render_shares_depth_with_effects_witness :
  let s := snd (addPass sample_platform 1 None
                  (snd (addPass sample_platform 0 None (sample_composer true)))) in
  let s' := snd (render (λ _, false) s) in
  passes s = [3%nat; 1%nat]
  ∧ map (λ c, (rc_pass c, rc_shared c)) (new_calls s s')
    = [(3%nat, None); (1%nat, Some (mkSharedDepth true))]
  ∧ composer_of s' = composer_of s
  ∧ ∀ c sd, c ∈ new_calls s s' → rc_shared c = Some sd →
            cls <$> heap s !! rc_pass c = Some EffectPass.
Proof.
  intros s s'.
  assert (passes s = [3%nat; 1%nat]) as Hp by (vm_compute; reflexivity).
  destruct (render_shares_depth_with_effects (λ _, false) s) as [H1 H2].
  - intros id Hid. rewrite Hp in Hid.
    repeat (apply elem_of_cons in Hid as [->|Hid]);
      [vm_compute; eexists; reflexivity..|by apply elem_of_nil in Hid].
  - split_and!; [exact Hp|vm_compute; reflexivity|exact H1|].
    intros c sd Hc Hsd. by destruct (H2 c sd Hc Hsd) as (_ & ? & _).
Defined.

Lemma expected_calls_renders s skip dpi ids : ∀ k i id,
  (i, id) ∈ expected_calls s skip dpi k ids →
  id ∈ ids ∧ renders s skip dpi i id = true.
Proof.
  induction ids as [|x rest IH]; intros k i id; simpl; [by intros []%elem_of_nil|].
  intros [Hin|Hin]%elem_of_app.
  - destruct (renders s skip dpi k x) eqn:Hr; [|by apply elem_of_nil in Hin].
    apply list_elem_of_singleton in Hin as [= -> ->]. split; [by left|done].
  - destruct (IH _ _ _ Hin) as [? ?]. split; [by right|done].
Qed.

Lemma checkMRTSupport_frame plat s :
  let s1 := snd (_checkMRTSupport plat s) in
  passes s1 = passes s ∧ renderer s1 = renderer s
  ∧ (∀ id, cls <$> heap s1 !! id = cls <$> heap s !! id)
  ∧ (_useMRT s1 = false → renderer s ≠ None →
     _mrtRenderPass s1 = None ∧ _sharedDepthPass s1 = None).
Proof.
  assert (∀ f i (h : gmap nat Pass) j,
            (∀ p, cls (f p) = cls p) → cls <$> alter f i h !! j = cls <$> h !! j) as Halter.
  { intros f i h j Hf. rewrite lookup_alter. case_decide; [subst|done].
    destruct (h !! j); simpl; [by rewrite Hf|done]. }
  unfold _checkMRTSupport, _cleanupMRTResources, on_pass. unfold_js.
  destruct (renderer s) as [r|] eqn:Hr; simpl; [|by rewrite Hr].
  repeat (case_step; simpl); rewrite ?Hr; split_and!; try done.
  all: try (intros id; by apply Halter).
  all: intros Hu _; simpl in *; try congruence.
  all: repeat match goal with
       | H : _ || _ = false |- _ => apply orb_false_iff in H as [? ?]
       end; decide_hyps.
  all: try match goal with
       | H : negb ?b = false, H' : ?b = false |- _ => rewrite H' in H; discriminate
       end.
  all: split; try done;
    match goal with
    | H : ¬ ?x ≠ None |- ?x = None =>
        revert H; destruct x; [intros H'; exfalso; by apply H'|done]
    end.
Qed.

(** X19.  When the capability probe finds no multi-target support - as
    it may when [setRenderer] hands the composer another renderer - the
    references to the substitute and to the shared depth pass are dropped,
    but the list is not touched: a substitute that took the place of a
    RenderPass stays on it, and from then on [render] passes it over.  No
    pass of class MRTRenderPass is drawn in any frame. *)
Theorem failed_probe_strands_the_substitute (plat : Platform)
  (throws : nat → bool) (s : St) :
  (∀ id, id ∈ passes s → is_Some (heap s !! id)) →
  let s1 := snd (_checkMRTSupport plat s) in
  _useMRT s1 = false →
  passes s1 = passes s
  ∧ (∀ id, cls <$> heap s1 !! id = cls <$> heap s !! id)
  ∧ (renderer s ≠ None → _mrtRenderPass s1 = None ∧ _sharedDepthPass s1 = None)
  ∧ ∀ c, c ∈ new_calls s1 (snd (render throws s1)) →
         cls <$> heap s1 !! rc_pass c ≠ Some MRTRenderPass.
Proof.
  intros Hheap s1 Hu.
  destruct (checkMRTSupport_frame plat s) as (Hp & Hr & Hcls & Hclean).
  fold s1 in Hp, Hr, Hcls, Hclean.
  split_and!; [done|done|by apply Hclean|].
  assert (∀ id, id ∈ passes s1 → is_Some (heap s1 !! id)) as Hheap1.
  { intros id Hid. rewrite Hp in Hid. apply Hheap in Hid.
    specialize (Hcls id). destruct (heap s1 !! id); [done|].
    destruct Hid as [? Hid]. by rewrite Hid in Hcls. }
  destruct (render_spec throws s1 Hheap1) as (_ & Hplan & _).
  intros c Hc Hmrt.
  assert ((rc_index c, rc_pass c) ∈ render_plan s1) as Hin.
  { rewrite <- Hplan. by apply (list_elem_of_fmap_2 (λ c, (rc_index c, rc_pass c))). }
  unfold render_plan in Hin. destruct (renderer s1); [|by apply elem_of_nil in Hin].
  apply expected_calls_renders in Hin as [_ Hrend].
  unfold renders in Hrend. destruct (heap s1 !! rc_pass c) as [p|]; [|done].
  simpl in Hmrt. injection Hmrt as Hmrt.
  rewrite Hu, Hmrt in Hrend. simpl in Hrend.
  by rewrite andb_false_r in Hrend.
Qed.

(** The substitute took the place of the RenderPass; then the probe finds
    that the test target cannot be allocated.  The substitute is still the
    only pass of the list, and a frame draws nothing. *)
Lemma failed_probe_strands_the_substitute_witness :
  let s := snd (addPass sample_platform 0 None (sample_composer true)) in
  let plat := mkPlatform AllocThrows false AllocThrows AllocThrows false false in
  let s1 := snd (_checkMRTSupport plat s) in
  cls <$> heap s !! 3%nat = Some MRTRenderPass
  ∧ new_calls s (snd (render (λ _, false) s)) ≠ []
  ∧ passes s1 = [3%nat]
  ∧ _mrtRenderPass s1 = None
  ∧ new_calls s1 (snd (render (λ _, false) s1)) = [].
Proof.
  intros s plat s1.
  assert (passes s = [3%nat]) as Hp by (vm_compute; reflexivity).
  destruct (failed_probe_strands_the_substitute plat (λ _, false) s)
    as (H1 & _ & H2 & _).
  - intros id Hid. rewrite Hp in Hid.
    apply list_elem_of_singleton in Hid as ->. vm_compute. eexists. reflexivity.
  - vm_compute. reflexivity.
  - split_and!; [vm_compute; reflexivity|vm_compute; discriminate
                |by rewrite <- Hp|apply H2; vm_compute; discriminate
                |vm_compute; reflexivity].
Defined.

End RenderMore.

(** ** The two variants of OutlineManager.update *)

Module VariantFacts.

Import OutlineManager.
Import ManagerFacts.

Ltac run_update_ts :=
  unfold OutlineManagerTS.update, depthPass_render, maskPass_render, setVisibleAll,
    on_world, on_mgr;
  unfold_js; simpl; repeat (case_step; simpl).

(** X20.  The TypeScript [update] has no dedup: every call that gets past
    the guard renders depth and then one mask, whatever the time.  It
    answers [true] and leaves scene background and camera mask as it found
    them when no render raises; when one raises, the exception leaves
    [update] with the background still nulled, and if it was the mask
    render, with the camera still narrowed to the mask layer. *)
Theorem ts_update_renders_depth_every_call (env : Env) (m : OutlineManager.t)
  (w : World) :
  idle m = false →
  let r := OutlineManagerTS.update env (mkSt m w) in
  let w' := world (snd r) in
  let sels := selectionsByLayer m in
  new_events w w'
  = [EvSetVisible sels false; EvDepthRender None]
    ++ (if depthThrows env then []
        else [EvSetVisible sels true; EvMaskRender (layers_set (maskLayer m))])
  ∧ fst r = (if depthThrows env || maskThrows env then Thrown else Normal true)
  ∧ background w' = (if depthThrows env || maskThrows env then None else background w)
  ∧ cameraMask w' = (if negb (depthThrows env) && maskThrows env
                     then layers_set (maskLayer m) else cameraMask w)
  ∧ lastDepthPassTime w' = lastDepthPassTime w.
Proof.
  intros Hidle r w' sels. subst r w' sels. unfold idle in Hidle.
  unfold maskLayer.
  run_update_ts; try congruence.
  all: simpl; rewrite <- ?app_assoc; simpl.
  all: split_and!; try done.
  all: erewrite new_events_app; [reflexivity|]; simpl; rewrite <- ?app_assoc; reflexivity.
Qed.

(** Two calls at the same instant: two depth renders. *)
Lemma ts_update_renders_depth_every_call_witness :
  let m := mk {[ 10 := {[ 1%nat ]} ]} 10 (Some 10) false (Number_of_Z 1) (px 1 1) (px 1 1) in
  let w := mkWorld None None None Undefined (Some 7%nat) 1 [] in
  let env := mkEnv 1000 false false false false in
  let st1 := snd (OutlineManagerTS.update env (mkSt m w)) in
  let st2 := snd (OutlineManagerTS.update env st1) in
  new_events w (world st1)
  = [EvSetVisible (selectionsByLayer m) false; EvDepthRender None;
     EvSetVisible (selectionsByLayer m) true; EvMaskRender 1024]
  ∧ count is_depth (trace (world st2)) = 2%nat
  ∧ background (world st1) = Some 7%nat.
Proof.
  intros m w env st1 st2.
  destruct (ts_update_renders_depth_every_call env m w) as (H1 & _ & H2 & _).
  - vm_compute. reflexivity.
  - split_and!; [|vm_compute; reflexivity|exact H2].
    etransitivity; [exact H1|]. vm_compute. reflexivity.
Defined.

(** X21.  The JavaScript [update] is the TypeScript one with the depth
    block made conditional.  A call that the guard stops answers [false]
    and does nothing in either variant.  For a call that gets past the
    guard: when the dedup token lets the depth pass through, the two end
    alike - same answer or exception, same manager, same calls to the
    collaborators in the same order, same camera mask - and they leave
    the same scene background unless the mask render raises (the
    JavaScript variant has restored it by then, the TypeScript variant has
    not); within the window of the token, and with no render raising, the
    TypeScript variant makes the calls of the JavaScript variant preceded
    by the three calls of the depth block. *)
Theorem update_variants_agree (env : Env) (m : OutlineManager.t) (w : World) :
  let js := OutlineManager.update env (mkSt m w) in
  let ts := OutlineManagerTS.update env (mkSt m w) in
  (idle m = true → js = (Normal false, mkSt m w) ∧ ts = (Normal false, mkSt m w))
  ∧ (idle m = false → depthDue (now env) (lastDepthPassTime w) = true →
     fst js = fst ts ∧ mgr (snd js) = mgr (snd ts)
     ∧ new_events w (world (snd js)) = new_events w (world (snd ts))
     ∧ cameraMask (world (snd js)) = cameraMask (world (snd ts))
     ∧ (maskThrows env = false →
        background (world (snd js)) = background (world (snd ts))))
  ∧ (idle m = false → depthDue (now env) (lastDepthPassTime w) = false →
     depthThrows env = false → maskThrows env = false →
     fst js = fst ts ∧ mgr (snd js) = mgr (snd ts)
     ∧ new_events w (world (snd ts))
       = [EvSetVisible (selectionsByLayer m) false; EvDepthRender None;
          EvSetVisible (selectionsByLayer m) true]
         ++ new_events w (world (snd js))
     ∧ cameraMask (world (snd js)) = cameraMask (world (snd ts))
     ∧ background (world (snd js)) = background (world (snd ts))).
Proof.
  intros js ts. subst js ts. unfold idle.
  split_and!.
  - intros Hidle. split; [by apply update_idle|].
    unfold OutlineManagerTS.update. unfold_js. simpl. by rewrite Hidle.
  - intros Hidle Hdue. unfold OutlineManagerTS.update.
    run_update; simpl in *; try congruence.
    all: split_and!; try done.
  - intros Hidle Hdue Hd Hm. unfold OutlineManagerTS.update.
    run_update; simpl in *; try congruence.
    all: split_and!; try done.
    all: unfold new_events; simpl; rewrite <- ?app_assoc, ?drop_app_length; reflexivity.
Qed.

(** The second consumer of a frame, 5 ms after the first rendered depth;
    and a manager with nothing to do. *)
Lemma update_variants_agree_witness :
  let m := mk {[ 10 := {[ 1%nat ]} ]} 10 (Some 10) false (Number_of_Z 1) (px 1 1) (px 1 1) in
  let m0 := mk {[ 10 := ∅ ]} 10 None false (Number_of_Z 1) (px 1 1) (px 1 1) in
  let w := mkWorld (Some 1000) None None Undefined (Some 7%nat) 1 [] in
  let env := mkEnv 1005 false false false false in
  new_events w (world (snd (OutlineManager.update env (mkSt m w))))
  = [EvMaskRender 1024]
  ∧ new_events w (world (snd (OutlineManagerTS.update env (mkSt m w))))
    = [EvSetVisible (selectionsByLayer m) false; EvDepthRender None;
       EvSetVisible (selectionsByLayer m) true; EvMaskRender 1024]
  ∧ OutlineManagerTS.update env (mkSt m0 w) = (Normal false, mkSt m0 w).
Proof.
  intros m m0 w env.
  destruct (update_variants_agree env m w) as (_ & _ & H).
  destruct (update_variants_agree env m0 w) as (H0 & _).
  destruct H as (_ & _ & H & _);
    [vm_compute; reflexivity|vm_compute; reflexivity|reflexivity|reflexivity|].
  destruct H0 as [_ H0]; [vm_compute; reflexivity|].
  split_and!; [vm_compute; reflexivity| |exact H0].
  etransitivity; [exact H|]. vm_compute. reflexivity.
Defined.

End VariantFacts.

(** ** PerformanceLogger *)

Module LoggerFacts.

Import PerformanceLogger.

Section Properties.

Context {num : Type}.
Variable sub : num → num → num.
Variable add : num → num → num.
Variable zero : num.
Variable div : num → nat → num.
Variable Math_min : list num → outcome num.
Variable Math_max : list num → outcome num.

Lemma stats_of_spec (times : list num) :
  match stats_of add zero div Math_min Math_max times with
  | Normal stats =>
      count stats = length times
      ∧ returned (Math_min times) = true ∧ returned (Math_max times) = true
  | Thrown => returned (Math_min times) = false ∨ returned (Math_max times) = false
  end.
Proof.
  unfold stats_of. destruct (Math_min times); simpl; [|by left].
  destruct (Math_max times); simpl; [done|by right].
Qed.

(** The durations [getTimeData] makes statistics of: those of the lists
    that have an entry. *)
Lemma getTimeData_spec (l : t num) :
  let visited := λ label,
    match timeData l !! label with
    | Some times => if (0 <? length times)%nat then Some times else None
    | None => None
    end in
  match getTimeData add zero div Math_min Math_max l with
  | Normal d =>
      (∀ label, label ≠ "__proto__" →
                count <$> own d !! label = length <$> visited label)
      ∧ own d !! "__proto__" = None
      ∧ count <$> proto d = length <$> visited "__proto__"
      ∧ (∀ label times, visited label = Some times →
           returned (Math_min times) = true ∧ returned (Math_max times) = true)
  | Thrown =>
      ∃ label times, visited label = Some times
        ∧ (returned (Math_min times) = false ∨ returned (Math_max times) = false)
  end.
Proof.
  intros visited. unfold getTimeData.
  set (entries := omap _ (timeData l)).
  assert (∀ label, entries !! label
                   = stats_of add zero div Math_min Math_max <$> visited label) as Hent.
  { intros label. unfold entries, visited. rewrite lookup_omap.
    destruct (timeData l !! label) as [times|]; simpl; [|done].
    by destruct (0 <? length times)%nat. }
  case_bool_decide as Hex.
  - destruct Hex as (label & o & Hl & Ho). rewrite Hent in Hl.
    destruct (visited label) as [times|] eqn:Hv; [|done].
    injection Hl as <-. exists label, times. split; [done|].
    pose proof (stats_of_spec times) as H.
    destruct (stats_of add zero div Math_min Math_max times); [done|exact H].
  - assert (∀ label times, visited label = Some times →
              ∃ stats, stats_of add zero div Math_min Math_max times = Normal stats
                       ∧ count stats = length times
                       ∧ returned (Math_min times) = true
                       ∧ returned (Math_max times) = true) as Hok.
    { intros label times Hv. pose proof (stats_of_spec times) as H.
      destruct (stats_of add zero div Math_min Math_max times) as [stats|] eqn:E.
      - exists stats. by destruct H as (? & ? & ?).
      - exfalso. apply Hex. exists label, Thrown. split; [|done].
        by rewrite Hent, Hv; simpl; rewrite E. }
    assert (∀ label, count <$> omap (λ o : outcome (Stats num),
                                      match o with Normal stats => Some stats
                                                 | Thrown => None end)
                                   entries !! label
                     = length <$> visited label) as Hres.
    { intros label. rewrite lookup_omap, Hent.
      destruct (visited label) as [times|] eqn:Hv; simpl; [|done].
      destruct (Hok label times Hv) as (stats & -> & Hc & _). simpl. by rewrite Hc. }
    simpl. split_and!.
    + intros label Hne. rewrite lookup_delete_ne by done. apply Hres.
    + apply lookup_delete_eq.
    + apply Hres.
    + intros label times Hv. by destruct (Hok label times Hv) as (? & _ & _ & ? & ?).
Qed.

Lemma call_recorded c (l : t num) : recorded l → recorded (call sub c l).
Proof.
  intros Hrec. destruct c; simpl; try exact Hrec.
  - intros label times Hl. simpl in Hl. by rewrite lookup_empty in Hl.
  - unfold time. destruct (enabled l); simpl; exact Hrec.
  - unfold timeEnd. destruct (enabled l); simpl; [|exact Hrec].
    destruct (collectTimes l); simpl; [|exact Hrec].
    destruct (timers l !! label) as [start|]; simpl; [|exact Hrec].
    intros label' times. simpl.
    destruct (decide (label' = label)) as [->|Hne].
    + rewrite lookup_alter_eq.
      destruct (timeData l !! label) as [old|] eqn:Hold; simpl.
      * rewrite Hold. simpl. intros [= <-]. by destruct old.
      * rewrite lookup_insert_eq. simpl. by intros [= <-].
    + rewrite lookup_alter_ne by done.
      destruct (timeData l !! label); [|rewrite lookup_insert_ne by done]; apply Hrec.
  - unfold log. destruct (enabled l); simpl; exact Hrec.
  - unfold warn. destruct (enabled l); simpl; exact Hrec.
Qed.

Lemma run_recorded cs : ∀ l : t num, recorded l → recorded (run sub cs l).
Proof.
  induction cs as [|c cs IH]; intros l Hrec; simpl; [done|].
  by apply IH, call_recorded.
Qed.

(** X22.  Whatever calls a program makes on a new logger, in whatever
    order: [getTimeData()] raises exactly when [Math.min] or [Math.max]
    cannot take one of the recorded lists of durations.  Otherwise the
    object it answers has an own entry for exactly the labels other than
    [__proto__] for which durations are kept, each with the number of its
    durations, which is at least one; a label without a completed
    measurement since the last [clearTimeData()] has no entry.  Durations
    recorded under the label [__proto__] never make an entry: their
    statistics become the prototype of the object. *)
Theorem getTimeData_reports_what_was_recorded (cs : list (Call num))
  (enabled0 : bool) :
  let l := run sub cs (new_PerformanceLogger enabled0) in
  (∀ label times, timeData l !! label = Some times → (0 < length times)%nat)
  ∧ match getTimeData add zero div Math_min Math_max l with
    | Normal d =>
        (∀ label, label ≠ "__proto__" →
                  count <$> own d !! label = length <$> timeData l !! label)
        ∧ own d !! "__proto__" = None
        ∧ count <$> proto d = length <$> timeData l !! "__proto__"
        ∧ (∀ label times, timeData l !! label = Some times →
             returned (Math_min times) = true ∧ returned (Math_max times) = true)
    | Thrown =>
        ∃ label times, timeData l !! label = Some times
          ∧ (returned (Math_min times) = false ∨ returned (Math_max times) = false)
    end.
Proof.
  intros l.
  assert (recorded l) as Hrec.
  { apply run_recorded. intros ? ? H. simpl in H. by rewrite lookup_empty in H. }
  assert (∀ label times, timeData l !! label = Some times → (0 < length times)%nat)
    as Hpos.
  { intros label times Ht. specialize (Hrec label times Ht).
    destruct times; [done|simpl; lia]. }
  assert (∀ label,
            match timeData l !! label with
            | Some times => if (0 <? length times)%nat then Some times else None
            | None => None
            end = timeData l !! label) as Hvis.
  { intros label. destruct (timeData l !! label) as [times|] eqn:Ht; [|done].
    apply Hpos in Ht. apply Nat.ltb_lt in Ht. by rewrite Ht. }
  split; [exact Hpos|].
  pose proof (getTimeData_spec l) as H. cbv zeta in H.
  destruct (getTimeData add zero div Math_min Math_max l) as [d|].
  - destruct H as (H1 & H2 & H3 & H4). split_and!.
    + intros label Hne. rewrite (H1 label Hne). by rewrite Hvis.
    + exact H2.
    + rewrite H3. by rewrite Hvis.
    + intros label times Ht. apply (H4 label). by rewrite Hvis.
  - destruct H as (label & times & Hv & Hm). rewrite Hvis in Hv. eauto.
Qed.

(** X23.  A measurement from start to end: with the logger enabled and
    collecting, [time(label)] followed by [timeEnd(label)] appends exactly
    one duration - the difference of the two clock readings - to the
    durations of the label and removes the timer; timers and durations of
    other labels are not touched.  If [getTimeData()] then returns and the
    label is not [__proto__], the count it reports for the label is one
    more than the number of durations kept before. *)
Theorem time_then_timeEnd_records_once (label : string) (t0 t1 : num) (l : t num) :
  enabled l = true → collectTimes l = true →
  let l' := timeEnd sub label t1 (time label t0 l) in
  let before := default [] (timeData l !! label) in
  timeData l' !! label = Some (before ++ [sub t1 t0])
  ∧ timers l' !! label = None
  ∧ (∀ other, other ≠ label →
              timeData l' !! other = timeData l !! other
              ∧ timers l' !! other = timers l !! other)
  ∧ (label ≠ "__proto__" →
     ∀ d, getTimeData add zero div Math_min Math_max l' = Normal d →
          count <$> own d !! label = Some (S (length before))).
Proof.
  intros He Hc l' before.
  assert (timeData l' !! label = Some (before ++ [sub t1 t0])
          ∧ timers l' !! label = None
          ∧ (∀ other, other ≠ label →
                      timeData l' !! other = timeData l !! other
                      ∧ timers l' !! other = timers l !! other)) as (Hdata & Htimer & Hother).
  { subst l' before. destruct l as [e tm c td co]. simpl in He, Hc. subst e c.
    unfold timeEnd, time. simpl. rewrite lookup_insert_eq. simpl.
    split_and!.
    - rewrite lookup_alter_eq.
      destruct (td !! label) as [old|] eqn:Hold; simpl.
      + by rewrite Hold.
      + by rewrite lookup_insert_eq.
    - apply lookup_delete_eq.
    - intros other Hne.
      rewrite lookup_alter_ne, lookup_delete_ne, lookup_insert_ne by done.
      split; [|done].
      destruct (td !! label); [done|]. by rewrite lookup_insert_ne. }
  split_and!; [done|done|done|].
  intros Hne d Hd. pose proof (getTimeData_spec l') as H. cbv zeta in H.
  rewrite Hd in H. destruct H as (H1 & _). rewrite (H1 label Hne), Hdata.
  rewrite length_app. simpl.
  replace (0 <? length before + 1)%nat with true by (symmetry; apply Nat.ltb_lt; lia).
  simpl. rewrite length_app. simpl. f_equal. lia.
Qed.

Lemma call_disabled c (l : t num) :
  enabled l = false → c ≠ CallEnable →
  enabled (call sub c l) = false
  ∧ timers (call sub c l) = timers l
  ∧ collectTimes (call sub c l)
    = match c with
      | CallEnableTimeCollection => true
      | CallDisableTimeCollection => false
      | _ => collectTimes l
      end
  ∧ timeData (call sub c l) = (if c is CallClearTimeData then ∅ else timeData l)
  ∧ console (call sub c l) = console l ++ errors [c].
Proof.
  intros He Hc. destruct c; simpl; try done.
  all: unfold time, timeEnd, log, warn; rewrite ?He; simpl; rewrite ?app_nil_r; done.
Qed.

(** X24.  A disabled logger is silent but for errors: as long as nobody
    calls [enable()], no timer is started, no duration is recorded, and
    the console receives the [error] calls, in order, and nothing else. *)
Theorem disabled_logger_prints_errors_only (cs : list (Call num)) (l : t num) :
  enabled l = false → CallEnable ∉ cs →
  let l' := run sub cs l in
  enabled l' = false
  ∧ timers l' = timers l
  ∧ (∀ label times, timeData l' !! label = Some times →
                    timeData l !! label = Some times)
  ∧ console l' = console l ++ errors cs.
Proof.
  revert l. induction cs as [|c cs IH]; intros l He Hcs; simpl.
  { rewrite app_nil_r. done. }
  apply not_elem_of_cons in Hcs as [Hc Hcs].
  destruct (call_disabled c l He) as (He1 & Ht1 & _ & Hd1 & Hc1); [done|].
  destruct (IH (call sub c l) He1 Hcs) as (He2 & Ht2 & Hd2 & Hc2).
  split_and!; [done|congruence| |].
  - intros label times Hl. apply Hd2 in Hl. rewrite Hd1 in Hl.
    destruct c; done.
  - rewrite Hc2, Hc1, <- app_assoc. f_equal.
    unfold errors. simpl. by destruct c.
Qed.

End Properties.

(** Two measurements of one label and one under the label [__proto__];
    integers stand for the clock readings, and [Math.min] and [Math.max]
    take lists of up to 65535 durations. *)
Lemma getTimeData_reports_what_was_recorded_witness :
  let lo := λ times : list Z,
    if Z.of_nat (length times) <=? 65535 then Normal (foldr Z.min (hd 0 times) times)
    else Thrown in
  let hi := λ times : list Z,
    if Z.of_nat (length times) <=? 65535 then Normal (foldr Z.max (hd 0 times) times)
    else Thrown in
  let cs := [CallEnableTimeCollection; CallTime "render" 100; CallTimeEnd "render" 105;
             CallTime "render" 200; CallTimeEnd "render" 207;
             CallTime "__proto__" 250; CallTimeEnd "__proto__" 251;
             CallTime "idle" 300] in
  let l := run Z.sub cs (new_PerformanceLogger true) in
  timeData l !! "render" = Some [5; 7]
  ∧ timeData l !! "__proto__" = Some [1]
  ∧ ∃ d, getTimeData Z.add 0 (λ a n, a `div` Z.of_nat n) lo hi l = Normal d
         ∧ count <$> own d !! "render" = Some 2%nat
         ∧ own d !! "idle" = None
         ∧ own d !! "__proto__" = None
         ∧ count <$> proto d = Some 1%nat.
Proof.
  intros lo hi cs l.
  pose proof (getTimeData_reports_what_was_recorded Z.sub Z.add 0
                (λ a n, a `div` Z.of_nat n) lo hi cs true) as [_ H].
  fold l in H.
  assert (timeData l !! "render" = Some [5; 7]) as Hr by (vm_compute; reflexivity).
  assert (timeData l !! "__proto__" = Some [1]) as Hp by (vm_compute; reflexivity).
  assert (timeData l !! "idle" = None) as Hi by (vm_compute; reflexivity).
  split; [exact Hr|]. split; [exact Hp|].
  destruct (getTimeData Z.add 0 (λ a n, a `div` Z.of_nat n) lo hi l) as [d|] eqn:E.
  - exists d. destruct H as (H1 & H2 & H3 & _).
    split_and!; [reflexivity| | |exact H2|].
    + rewrite H1, Hr by discriminate. reflexivity.
    + pose proof (H1 "idle") as Hidle. rewrite Hi in Hidle.
      destruct (own d !! "idle"); [|reflexivity].
      discriminate Hidle. discriminate.
    + rewrite H3, Hp. reflexivity.
  - vm_compute in E. discriminate E.
Defined.

(** A measurement of 5 time units on a logger that holds one of 3. *)
Lemma time_then_timeEnd_records_once_witness :
  let lo := λ times : list Z, Normal (foldr Z.min (hd 0 times) times) in
  let hi := λ times : list Z, Normal (foldr Z.max (hd 0 times) times) in
  let l := mk true ∅ true {[ "render" := [3] ]} [] in
  timeData (timeEnd Z.sub "render" 105 (time "render" 100 l)) !! "render" = Some [3; 5].
Proof.
  intros lo hi l.
  destruct (time_then_timeEnd_records_once Z.sub Z.add 0
              (λ a n, a `div` Z.of_nat n) lo hi
              "render" 100 105 l) as (H & _).
  - reflexivity.
  - reflexivity.
  - etransitivity; [exact H|]. vm_compute. reflexivity.
Defined.

(** A disabled logger is asked to time, to log and to report an error. *)
Lemma disabled_logger_prints_errors_only_witness :
  let cs := [CallTime "render" 100; CallLog ["frame"]; CallError ["lost context"];
             CallTimeEnd "render" 105] in
  console (run Z.sub cs (new_PerformanceLogger false)) = [ConsoleError ["lost context"]].
Proof.
  intros cs.
  destruct (disabled_logger_prints_errors_only Z.sub cs (new_PerformanceLogger false))
    as (_ & _ & _ & H).
  - reflexivity.
  - intros Hin. repeat (apply elem_of_cons in Hin as [Hin|Hin]; [discriminate Hin|]).
    by apply elem_of_nil in Hin.
  - exact H.
Defined.

End LoggerFacts.
